(** * remove-background-next: the worker pool and the worker script

    A shallow embedding of [worker-pool.js] (class [WorkerPool]) and of
    [worker.js] (class [PipelineSingleton] and the message listener), with
    the properties of the pool coordinator and of the execution unit
    stated and proved over it.

    JavaScript objects with identity ([Worker] objects, promises) live in
    stores indexed by allocation order; a reference is an index.  The
    pool's [Map] and [Set] are insertion-ordered, as in JavaScript, and
    are kept as lists.  Everything the pool does to the outside
    ([postMessage], [resolve], [reject], progress callbacks, [terminate],
    [setTimeout]) is appended to a log of actions. *)

From stdpp Require Import base list strings pretty.

Open Scope string_scope.
Open Scope nat_scope.
Open Scope list_scope.

(** ** JavaScript values carried by messages *)

#[warnings="-register-all"]
Inductive JsVal :=
| VUndef
| VNull
| VNum (n : Z)
| VStr (s : string)
| VBuf (bytes : list Z)
| VErr (message : string)
| VObj (fields : list (string * JsVal)).

Fixpoint assoc (k : string) (fs : list (string * JsVal)) : JsVal :=
  match fs with
  | [] => VUndef
  | (k', v) :: fs' => if decide (k = k') then v else assoc k fs'
  end.

(** [v.k]: a missing property reads as [undefined]. *)
Definition getField (k : string) (v : JsVal) : JsVal :=
  match v with
  | VObj fs => assoc k fs
  | VErr m => if decide (k = "message") then VStr m else VUndef
  | _ => VUndef
  end.

(** [v] is [null] or [undefined]: the values whose properties cannot be
    read. *)
Definition nullish (v : JsVal) : bool :=
  match v with
  | VUndef | VNull => true
  | _ => false
  end.

(** [v === "lit"] for a string literal. *)
Definition isStr (v : JsVal) (lit : string) : bool :=
  match v with
  | VStr s => bool_decide (s = lit)
  | _ => false
  end.

(** The message of [new Error(v)]. *)
Definition toMessage (v : JsVal) : string :=
  match v with
  | VUndef => ""
  | VNull => "null"
  | VNum n => pretty n
  | VStr s => s
  | VBuf _ => "[object ArrayBuffer]"
  | VErr m => "Error: " +:+ m
  | VObj _ => "[object Object]"
  end.

Definition newError (v : JsVal) : JsVal := VErr (toMessage v).

(** ** Insertion-ordered [Set] and [Map] *)

Section JsCollections.
Context {A : Type} `{EqDecision A}.

Definition jsset_add (x : A) (l : list A) : list A :=
  if decide (x ∈ l) then l else l ++ [x].

Definition jsset_delete (x : A) (l : list A) : list A :=
  filter (λ y, y ≠ x) l.

Context {V : Type}.

Fixpoint jsmap_get (k : A) (m : list (A * V)) : option V :=
  match m with
  | [] => None
  | (k', v) :: m' => if decide (k = k') then Some v else jsmap_get k m'
  end.

Fixpoint jsmap_set (k : A) (v : V) (m : list (A * V)) : list (A * V) :=
  match m with
  | [] => [(k, v)]
  | (k', v') :: m' =>
      if decide (k = k') then (k, v) :: m' else (k', v') :: jsmap_set k v m'
  end.

Definition jsmap_delete (k : A) (m : list (A * V)) : list (A * V) :=
  filter (λ kv, kv.1 ≠ k) m.
End JsCollections.

(** ** Data model of the pool *)

(** References to [Worker] objects and to promises. *)
Abbreviation wref := nat (only parsing).
Abbreviation pref := nat (only parsing).

(** A [Worker] object with the two properties the pool sets on it, and
    whether [terminate()] was called on it. *)
Record WorkerObj := mkWorker {
  worker_id : nat;
  worker_busy : bool;
  worker_terminated : bool
}.

(** The task object built by [processImage]; [task_promise] stands for the
    [resolve]/[reject] pair of the promise it was created in. *)
Record Task := mkTask {
  task_id : string;
  task_imageUrl : string;
  task_promise : pref;
  task_onProgress : option nat;
  task_worker : option wref
}.

Inductive PromiseState :=
| Pending
| Fulfilled (v : JsVal)
| Rejected (e : JsVal).

Inductive Action :=
| PostMessage (w : wref) (msg : JsVal)
| CallResolve (p : pref) (v : JsVal)
| CallReject (p : pref) (e : JsVal)
| CallProgress (cb : nat) (data : JsVal)
| TerminateWorker (w : wref)
| SetTimeout (w : wref) (ms : nat)
| ThrowTypeError.

Record Pool := mkPool {
  maxWorkers : nat;
  workers : list (option wref);
  taskQueue : list Task;
  activeTasks : list (string * Task);
  readyWorkers : list wref;
  isInitializing : bool;
  heap : list WorkerObj;
  promises : list PromiseState;
  timers : list wref;
  log : list Action
}.

Definition with_workers (x : list (option wref)) (s : Pool) : Pool :=
  mkPool (maxWorkers s) x (taskQueue s) (activeTasks s) (readyWorkers s)
    (isInitializing s) (heap s) (promises s) (timers s) (log s).
Definition with_taskQueue (x : list Task) (s : Pool) : Pool :=
  mkPool (maxWorkers s) (workers s) x (activeTasks s) (readyWorkers s)
    (isInitializing s) (heap s) (promises s) (timers s) (log s).
Definition with_activeTasks (x : list (string * Task)) (s : Pool) : Pool :=
  mkPool (maxWorkers s) (workers s) (taskQueue s) x (readyWorkers s)
    (isInitializing s) (heap s) (promises s) (timers s) (log s).
Definition with_readyWorkers (x : list wref) (s : Pool) : Pool :=
  mkPool (maxWorkers s) (workers s) (taskQueue s) (activeTasks s) x
    (isInitializing s) (heap s) (promises s) (timers s) (log s).
Definition with_isInitializing (x : bool) (s : Pool) : Pool :=
  mkPool (maxWorkers s) (workers s) (taskQueue s) (activeTasks s)
    (readyWorkers s) x (heap s) (promises s) (timers s) (log s).
Definition with_heap (x : list WorkerObj) (s : Pool) : Pool :=
  mkPool (maxWorkers s) (workers s) (taskQueue s) (activeTasks s)
    (readyWorkers s) (isInitializing s) x (promises s) (timers s) (log s).
Definition with_promises (x : list PromiseState) (s : Pool) : Pool :=
  mkPool (maxWorkers s) (workers s) (taskQueue s) (activeTasks s)
    (readyWorkers s) (isInitializing s) (heap s) x (timers s) (log s).
Definition with_timers (x : list wref) (s : Pool) : Pool :=
  mkPool (maxWorkers s) (workers s) (taskQueue s) (activeTasks s)
    (readyWorkers s) (isInitializing s) (heap s) (promises s) x (log s).
Definition emit (a : Action) (s : Pool) : Pool :=
  mkPool (maxWorkers s) (workers s) (taskQueue s) (activeTasks s)
    (readyWorkers s) (isInitializing s) (heap s) (promises s) (timers s)
    (log s ++ [a]).

(** ** Primitive steps on the stores *)

(** [worker.busy = b] *)
Definition set_busy (w : wref) (b : bool) (s : Pool) : Pool :=
  with_heap (alter (λ o, mkWorker (worker_id o) b (worker_terminated o)) w
               (heap s)) s.

(** [worker.terminate()] *)
Definition terminateWorker (w : wref) (s : Pool) : Pool :=
  emit (TerminateWorker w)
    (with_heap (alter (λ o, mkWorker (worker_id o) (worker_busy o) true) w
                  (heap s)) s).

(** [worker.id]; a reference always points into the heap. *)
Definition idOf (w : wref) (s : Pool) : nat :=
  from_option worker_id 0 (heap s !! w).

Definition busyOf (w : wref) (s : Pool) : option bool :=
  worker_busy <$> heap s !! w.

(** A promise settles on the first [resolve] or [reject] only. *)
Definition settle (p : pref) (r : PromiseState) (s : Pool) : Pool :=
  match promises s !! p with
  | Some Pending => with_promises (<[p := r]> (promises s)) s
  | _ => s
  end.

(** [task.resolve(v)] and [task.reject(e)] *)
Definition resolveTask (t : Task) (v : JsVal) (s : Pool) : Pool :=
  settle (task_promise t) (Fulfilled v) (emit (CallResolve (task_promise t) v) s).
Definition rejectTask (t : Task) (e : JsVal) (s : Pool) : Pool :=
  settle (task_promise t) (Rejected e) (emit (CallReject (task_promise t) e) s).

(** [array[i] = x]: an index past the end extends the array with holes. *)
Definition array_set {A} (i : nat) (x : A) (l : list (option A)) : list (option A) :=
  if decide (i < length l) then <[i := Some x]> l
  else l ++ replicate (i - length l) None ++ [Some x].

(** ** The class [WorkerPool] *)

(** [navigator.hardwareConcurrency || 4] *)
Definition hardwareDefault (hc : option nat) : nat :=
  match hc with
  | Some (S n) => S n
  | _ => 4
  end.

Definition newWorkerPool (requested : nat) (hc : option nat) : Pool :=
  mkPool (Nat.min requested (hardwareDefault hc)) [] [] [] [] false [] [] [] [].

Definition initMsg : JsVal := VObj [("type", VStr "init")].

(** One iteration of the loop in [initialize]. *)
Definition spawnWorker (i : nat) (s : Pool) : Pool :=
  let w := length (heap s) in
  let s1 := with_heap (heap s ++ [mkWorker i false false]) s in
  let s2 := with_workers (workers s1 ++ [Some w]) s1 in
  emit (PostMessage w initMsg) s2.

Definition initialize (s : Pool) : Pool :=
  if isInitializing s then s
  else
    let s1 := with_isInitializing true s in
    let s2 := foldl (λ acc i, spawnWorker i acc) s1 (seq 0 (maxWorkers s1)) in
    with_isInitializing false s2.

Fixpoint findTaskIdByWorker (w : wref) (m : list (string * Task)) : option string :=
  match m with
  | [] => None
  | (taskId, task) :: m' =>
      if decide (task_worker task = Some w) then Some taskId
      else findTaskIdByWorker w m'
  end.

Definition getAvailableWorker (s : Pool) : option wref * Pool :=
  if decide (length (readyWorkers s) = 0) then (None, s)
  else
    match readyWorkers s with
    | [] => (None, s)
    | w :: _ => (Some w, with_readyWorkers (jsset_delete w (readyWorkers s)) s)
    end.

Definition taskMsg (t : Task) : JsVal :=
  VObj [("imageUrl", VStr (task_imageUrl t)); ("taskId", VStr (task_id t))].

(** [task.worker = worker] *)
Definition setWorker (w : wref) (t : Task) : Task :=
  mkTask (task_id t) (task_imageUrl t) (task_promise t) (task_onProgress t) (Some w).

Definition executeTask (t : Task) (w : wref) (s : Pool) : Pool :=
  let s1 := set_busy w true s in
  let t' := setWorker w t in
  let s2 := with_activeTasks (jsmap_set (task_id t') t' (activeTasks s1)) s1 in
  emit (PostMessage w (taskMsg t')) s2.

Definition processQueue (s : Pool) : Pool :=
  if decide (length (taskQueue s) = 0 ∨ length (readyWorkers s) = 0) then s
  else
    match taskQueue s with
    | [] => s
    | t :: rest =>
        let s1 := with_taskQueue rest s in
        match getAvailableWorker s1 with
        | (Some w, s2) => executeTask t w s2
        | (None, s2) => with_taskQueue (t :: taskQueue s2) s2
        end
    end.

(** The test [taskId && this.activeTasks.has(taskId)], returning the
    entry: [null] and the empty string are falsy. *)
Definition boundTask (taskId : option string) (s : Pool) : option (string * Task) :=
  match taskId with
  | None => None
  | Some k =>
      if decide (k = "") then None
      else (λ t, (k, t)) <$> jsmap_get k (activeTasks s)
  end.

(** [this.readyWorkers.add(worker)] of the ['ready'] case. *)
Definition markReady (w : wref) (s : Pool) : Pool :=
  with_readyWorkers (jsset_add w (readyWorkers s)) s.

(** The ['complete'] / ['error'] case up to its call of [processQueue]. *)
Definition release (w : wref) (data : JsVal) (s : Pool) : Pool :=
  let taskId := findTaskIdByWorker w (activeTasks s) in
  let status := getField "status" data in
  let s1 := set_busy w false s in
  let s2 := with_readyWorkers (jsset_add w (readyWorkers s1)) s1 in
  match boundTask taskId s2 with
  | Some (k, task) =>
      let s' := with_activeTasks (jsmap_delete k (activeTasks s2)) s2 in
      if isStr status "complete" then resolveTask task data s'
      else rejectTask task (newError (getField "error" data)) s'
  | None => s2
  end.

(** The default case: forward the message to the task's [onProgress]. *)
Definition forward (w : wref) (data : JsVal) (s : Pool) : Pool :=
  match boundTask (findTaskIdByWorker w (activeTasks s)) s with
  | Some (_, task) =>
      match task_onProgress task with
      | Some cb => emit (CallProgress cb data) s
      | None => s
      end
  | None => s
  end.

(** [switch (data.status)]: reading a property of [null] or [undefined]
    throws a [TypeError], which ends the listener before any case runs. *)
Definition handleWorkerMessage (w : wref) (data : JsVal) (s : Pool) : Pool :=
  if nullish data then emit ThrowTypeError s
  else
    let status := getField "status" data in
    if isStr status "ready" then processQueue (markReady w s)
    else if isStr status "complete" || isStr status "error" then
      processQueue (release w data s)
    else forward w data s.

(** The loop of [handleWorkerError] over [activeTasks.entries()].  The
    only entry the body deletes is the one being visited, so the live
    iteration visits the entries present when the loop starts. *)
Fixpoint rejectBound (w : wref) (error : JsVal) (entries : list (string * Task))
    (s : Pool) : Pool :=
  match entries with
  | [] => s
  | (taskId, task) :: rest =>
      let s' :=
        if decide (findTaskIdByWorker w (activeTasks s) = Some taskId) then
          let s1 := rejectTask task error s in
          with_activeTasks (jsmap_delete taskId (activeTasks s1)) s1
        else s in
      rejectBound w error rest s'
  end.

Definition restartDelay : nat := 1000.

Definition handleWorkerError (w : wref) (error : JsVal) (s : Pool) : Pool :=
  let s1 := set_busy w false s in
  let s2 := with_readyWorkers (jsset_delete w (readyWorkers s1)) s1 in
  let s3 := rejectBound w error (activeTasks s2) s2 in
  emit (SetTimeout w restartDelay) (with_timers (timers s3 ++ [w]) s3).

Definition restartWorker (w : wref) (s : Pool) : Pool :=
  let s1 := terminateWorker w s in
  let new := length (heap s1) in
  let s2 := with_heap (heap s1 ++ [mkWorker (idOf w s1) false false]) s1 in
  let s3 := with_workers (array_set (idOf w s2) new (workers s2)) s2 in
  emit (PostMessage new initMsg) s3.

(** The id built in [processImage] from [Date.now()] and the base-36
    digits of [Math.random()]. *)
Definition taskIdOf (now : N) (rnd : string) : string :=
  "task_" +:+ pretty now +:+ "_" +:+ rnd.

(** The body of [processImage] up to its call of [processQueue]. *)
Definition enqueue (now : N) (rnd : string) (imageUrl : string)
    (onProgress : option nat) (s : Pool) : Pool :=
  let p := length (promises s) in
  let s1 := with_promises (promises s ++ [Pending]) s in
  let task := mkTask (taskIdOf now rnd) imageUrl p onProgress None in
  with_taskQueue (taskQueue s1 ++ [task]) s1.

Definition processImage (now : N) (rnd : string) (imageUrl : string)
    (onProgress : option nat) (s : Pool) : Pool :=
  processQueue (enqueue now rnd imageUrl onProgress s).

Record Stats := mkStats {
  totalWorkers : nat;
  readyWorkersCount : nat;
  activeTasksCount : nat;
  queuedTasks : nat;
  statsInitializing : bool
}.

Definition getStats (s : Pool) : Stats :=
  mkStats (length (workers s)) (length (readyWorkers s))
    (length (activeTasks s)) (length (taskQueue s)) (isInitializing s).

Definition terminatedError : JsVal := VErr "Worker pool terminated".

(** The loop [for (const worker of this.workers) worker.terminate()]: a
    hole in the array yields [undefined], and the call on it throws. *)
Fixpoint terminateAll (ws : list (option wref)) (s : Pool) : option Pool :=
  match ws with
  | [] => Some s
  | Some w :: ws' => terminateAll ws' (terminateWorker w s)
  | None :: _ => None
  end.

Fixpoint terminatedPrefix (ws : list (option wref)) (s : Pool) : Pool :=
  match ws with
  | Some w :: ws' => terminatedPrefix ws' (terminateWorker w s)
  | _ => s
  end.

Definition terminate (s : Pool) : Pool :=
  let s1 := foldl (λ acc t, rejectTask t terminatedError acc) s (taskQueue s) in
  let s2 := with_taskQueue [] s1 in
  let s3 := foldl (λ acc t, rejectTask t terminatedError acc) s2
              (snd <$> activeTasks s2) in
  let s4 := with_activeTasks [] s3 in
  match terminateAll (workers s4) s4 with
  | Some s5 => with_readyWorkers [] (with_workers [] s5)
  | None => emit ThrowTypeError (terminatedPrefix (workers s4) s4)
  end.

(** ** Events reaching the pool *)

Inductive Event :=
| EInitialize
| EProcessImage (now : N) (rnd : string) (imageUrl : string) (onProgress : option nat)
| EWorkerMessage (w : wref) (data : JsVal)
| EWorkerError (w : wref) (error : JsVal)
| ERestartTimer (w : wref)
| ETerminate.

(** The listeners wired to a worker run for as long as the worker was
    created and not terminated. *)
Definition listening (w : wref) (s : Pool) : bool :=
  match heap s !! w with
  | Some o => negb (worker_terminated o)
  | None => false
  end.

Fixpoint remove_first (w : wref) (l : list wref) : list wref :=
  match l with
  | [] => []
  | x :: l' => if decide (x = w) then l' else x :: remove_first w l'
  end.

Definition step (s : Pool) (e : Event) : Pool :=
  match e with
  | EInitialize => initialize s
  | EProcessImage now rnd url cb => processImage now rnd url cb s
  | EWorkerMessage w data =>
      if listening w s then handleWorkerMessage w data s else s
  | EWorkerError w error =>
      if listening w s then handleWorkerError w error s else s
  | ERestartTimer w =>
      if decide (w ∈ timers s) then
        restartWorker w (with_timers (remove_first w (timers s)) s)
      else s
  | ETerminate => terminate s
  end.

Definition run (s : Pool) (evs : list Event) : Pool := foldl step s evs.

(** ** Observations on a run *)

(** The ids of the tasks submitted by a sequence of events, in order. *)
Definition submitted (evs : list Event) : list string :=
  omap (λ e, match e with
             | EProcessImage now rnd _ _ => Some (taskIdOf now rnd)
             | _ => None
             end) evs.

(** The ids of the tasks dispatched to a worker, in order of dispatch. *)
Definition dispatched (l : list Action) : list string :=
  omap (λ a, match a with
             | PostMessage _ msg =>
                 match getField "taskId" msg with
                 | VStr k => Some k
                 | _ => None
                 end
             | _ => None
             end) l.

(** The calls of [resolve] and [reject] in a log. *)
Definition isSettlement (a : Action) : bool :=
  match a with
  | CallResolve _ _ | CallReject _ _ => true
  | _ => false
  end.

Definition settlements (l : list Action) : list Action :=
  filter (λ a, isSettlement a = true) l.

(** The promises of the tasks the pool holds. *)
Definition queuedPromises (s : Pool) : list pref :=
  task_promise <$> taskQueue s.
Definition activePromises (s : Pool) : list pref :=
  (λ kt, task_promise kt.2) <$> activeTasks s.
Definition live (s : Pool) : list pref := queuedPromises s ++ activePromises s.

(** The entries of the active map bound to a worker. *)
Definition boundTo (w : wref) (m : list (string * Task)) : list (string * Task) :=
  filter (λ kt, task_worker kt.2 = Some w) m.
Definition notBoundTo (w : wref) (m : list (string * Task)) : list (string * Task) :=
  filter (λ kt, task_worker kt.2 ≠ Some w) m.

(** The drain loop in the words of the specification: while the pending
    queue is non-empty and a unit is ready, pop the head task, pop a ready
    unit, bind them, mark the unit busy and dispatch. *)
Fixpoint drainLoop (n : nat) (s : Pool) : Pool :=
  match n with
  | 0 => s
  | S n' =>
      match taskQueue s, readyWorkers s with
      | t :: rest, w :: _ =>
          drainLoop n'
            (executeTask t w
               (with_readyWorkers (jsset_delete w (readyWorkers s))
                  (with_taskQueue rest s)))
      | _, _ => s
      end
  end.

Definition drainQueue (s : Pool) : Pool := drainLoop (length (taskQueue s)) s.

(** What [processQueue] does when it has a task and a ready worker. *)
Definition dispatchHead (t : Task) (rest : list Task) (w : wref) (s : Pool) : Pool :=
  executeTask t w
    (with_readyWorkers (jsset_delete w (readyWorkers s)) (with_taskQueue rest s)).

(** ** Invariants of the pool *)

(** Nothing is left to drain: no task waits while a worker is ready. *)
Definition drained (s : Pool) : Prop := taskQueue s = [] ∨ readyWorkers s = [].

Record Core (s : Pool) : Prop := mkCore {
  core_keys : NoDup (activeTasks s).*1;
  core_ready : NoDup (readyWorkers s);
  core_live : NoDup (live s);
  core_pending : ∀ p, p ∈ live s → promises s !! p = Some Pending;
  core_flag : isInitializing s = false
}.

(** Two states that differ in the promises and the log only. *)
Definition sameShape (s s' : Pool) : Prop :=
  maxWorkers s' = maxWorkers s ∧ workers s' = workers s ∧
  taskQueue s' = taskQueue s ∧ activeTasks s' = activeTasks s ∧
  readyWorkers s' = readyWorkers s ∧ isInitializing s' = isInitializing s ∧
  heap s' = heap s ∧ timers s' = timers s.

(** Two states that differ in the workers, the heap and the log only. *)
Definition sameTasks (s s' : Pool) : Prop :=
  maxWorkers s' = maxWorkers s ∧ taskQueue s' = taskQueue s ∧
  activeTasks s' = activeTasks s ∧ readyWorkers s' = readyWorkers s ∧
  isInitializing s' = isInitializing s ∧ promises s' = promises s ∧
  timers s' = timers s.

(** The ids of the waiting tasks, head first. *)
Definition queuedIds (s : Pool) : list string := task_id <$> taskQueue s.

(** A call of [processImage] with what it reads from the clock and the
    random generator. *)
Definition Submission : Type := N * string * string * option nat.

Definition submissionId (x : Submission) : string :=
  let '(now, rnd, _, _) := x in taskIdOf now rnd.

Definition submit (s : Pool) (x : Submission) : Pool :=
  let '(now, rnd, imageUrl, onProgress) := x in
  processImage now rnd imageUrl onProgress s.

(** The log grew, and by no dispatch of a task. *)
Definition extendsQuietly (s s' : Pool) : Prop :=
  ∃ l, log s' = log s ++ l ∧ dispatched l = [].

(** Events that neither create nor replace nor release workers. *)
Definition keepsWorkers (e : Event) : bool :=
  match e with
  | EProcessImage _ _ _ _ | EWorkerMessage _ _ | EWorkerError _ _ => true
  | _ => false
  end.

(** Two states with the same worker list, the same worker objects up to
    their flags, and no restart timer lost. *)
Definition sameUnits (s s' : Pool) : Prop :=
  workers s' = workers s ∧ length (heap s') = length (heap s) ∧
  (∀ w, idOf w s' = idOf w s) ∧ (∀ w, w ∈ timers s → w ∈ timers s').

(** The ids the pool holds: those of the waiting tasks and the keys of
    the active map. *)
Definition heldIds (s : Pool) : list string := queuedIds s ++ (activeTasks s).*1.

(** A worker reports ['ready'] only while no active task is bound to it. *)
Definition readyWhileUnbound (s : Pool) (e : Event) : bool :=
  match e with
  | EWorkerMessage w data =>
      if listening w s && isStr (getField "status" data) "ready"
      then bool_decide (findTaskIdByWorker w (activeTasks s) = None)
      else true
  | _ => true
  end.

Fixpoint readyReportsUnbound (s : Pool) (evs : list Event) : bool :=
  match evs with
  | [] => true
  | e :: evs' => readyWhileUnbound s e && readyReportsUnbound (step s e) evs'
  end.

(** What holds of a pool whose task ids are distinct and whose workers
    report ['ready'] only while unbound. *)
Record Tidy (s : Pool) : Prop := mkTidy {
  tidy_ready : ∀ w, w ∈ readyWorkers s → boundTo w (activeTasks s) = [];
  tidy_one : ∀ w, length (boundTo w (activeTasks s)) ≤ 1;
  tidy_pending : ∀ p, promises s !! p = Some Pending → p ∈ live s;
  tidy_ids : ∀ k, k ∈ heldIds s → k ≠ ""
}.

(** ** The worker script: [PipelineSingleton] and the message listener

    The listener is an [async] function: it runs until its next [await]
    and resumes when the awaited load settles.  A call of the listener is
    kept with the point it is suspended at; the settling of a load is an
    event naming the call it resumes.  Loaded models and processors are
    identified by a number. *)

Module WorkerScript.

Inductive Directive :=
| DInit
| DTask (imageUrl : JsVal).

Inductive Phase :=
| AwaitModel
| AwaitProcessor
| AwaitImage (model processor : option nat)
| Finished (instance : option (option nat * option nat)).

(** A call of the listener, with the two local flags of [getInstance]. *)
Record Call := mkCall {
  directive : Directive;
  phase : Phase;
  modelLoaded : bool;
  processorLoaded : bool
}.

Record Script := mkScript {
  model : option nat;
  processor : option nat;
  outbox : list JsVal;
  calls : list Call;
  modelLoads : nat;
  processorLoads : nat
}.

Definition initial : Script := mkScript None None [] [] 0 0.

Definition post (msg : JsVal) (st : Script) : Script :=
  mkScript (model st) (processor st) (outbox st ++ [msg]) (calls st)
    (modelLoads st) (processorLoads st).

Definition truthy (v : JsVal) : bool :=
  match v with
  | VUndef | VNull => false
  | VNum n => negb (bool_decide (n = 0%Z))
  | VStr s => negb (bool_decide (s = ""))
  | _ => true
  end.

(** The two branches of the listener. *)
Definition directiveOf (data : JsVal) : option Directive :=
  if isStr (getField "type" data) "init" then Some DInit
  else if truthy (getField "imageUrl" data) then Some (DTask (getField "imageUrl" data))
  else None.

Definition initiateMsg : JsVal :=
  VObj [("status", VStr "initiate"); ("message", VStr "Starting model download...")].
Definition infoMsg (text : string) : JsVal :=
  VObj [("status", VStr "progress"); ("type", VStr "info"); ("message", VStr text)].
Definition readyMsg : JsVal :=
  VObj [("status", VStr "ready"); ("message", VStr "Model and processor are ready!")].
Definition errorMsg (text : string) : JsVal :=
  VObj [("status", VStr "error"); ("error", VStr text)].
Definition outputRecord (width height : Z) (bytes : list Z) : JsVal :=
  VObj [("width", VNum width); ("height", VNum height); ("imageData", VBuf bytes)].
Definition completeMsg (width height : Z) (bytes : list Z) : JsVal :=
  VObj [("status", VStr "complete"); ("output", outputRecord width height bytes)].

(** The message of the [catch] block of [getInstance]. *)
Definition constructionError (modelLoaded : bool) (message : string) : JsVal :=
  errorMsg ("Failed to load " +:+ (if modelLoaded then "processor" else "model")
            +:+ ": " +:+ message).

(** [!this.model || !this.processor] *)
Definition needsConstruction (st : Script) : bool :=
  negb (bool_decide (is_Some (model st))) || negb (bool_decide (is_Some (processor st))).

(** What the listener does once [getInstance] has returned a pair. *)
Definition afterInstance (d : Directive) (m p : option nat) : Phase :=
  match d with
  | DInit => Finished (Some (m, p))
  | DTask _ => AwaitImage m p
  end.

(** [getInstance] from its entry to its first [await], or to its
    [return] when the pipeline is there. *)
Definition getInstance_begin (d : Directive) (st : Script) : Script :=
  if needsConstruction st then
    let st1 := post (infoMsg "Loading model...") (post initiateMsg st) in
    mkScript (model st1) (processor st1) (outbox st1)
      (calls st1 ++ [mkCall d AwaitModel false false])
      (S (modelLoads st1)) (processorLoads st1)
  else
    mkScript (model st) (processor st) (outbox st)
      (calls st ++ [mkCall d (afterInstance d (model st) (processor st)) false false])
      (modelLoads st) (processorLoads st).

(** The [catch] block of [getInstance] followed by the one of the
    listener, which receives the rethrown error. *)
Definition constructionFailed (c : nat) (call : Call) (message : string)
    (st : Script) : Script :=
  let st1 := post (errorMsg message)
               (post (constructionError (modelLoaded call) message) st) in
  mkScript (model st1) (processor st1) (outbox st1)
    (<[c := mkCall (directive call) (Finished None) (modelLoaded call)
             (processorLoaded call)]> (calls st1))
    (modelLoads st1) (processorLoads st1).

(** [getInstance] resumed by [AutoModel.from_pretrained]. *)
Definition getInstance_modelSettled (c : nat) (call : Call)
    (r : string + nat) (st : Script) : Script :=
  match r with
  | inr m =>
      let st1 := post (infoMsg "Model loaded successfully! Loading processor...") st in
      mkScript (Some m) (processor st1) (outbox st1)
        (<[c := mkCall (directive call) AwaitProcessor true (processorLoaded call)]>
           (calls st1))
        (modelLoads st1) (S (processorLoads st1))
  | inl message => constructionFailed c call message st
  end.

(** [getInstance] resumed by [AutoProcessor.from_pretrained]. *)
Definition getInstance_processorSettled (c : nat) (call : Call)
    (r : string + nat) (st : Script) : Script :=
  match r with
  | inr p =>
      let st1 := post readyMsg
                   (post (infoMsg "Processor loaded successfully! Ready to process images.")
                      st) in
      mkScript (model st1) (Some p) (outbox st1)
        (<[c := mkCall (directive call) (afterInstance (directive call) (model st1) (Some p))
                 (modelLoaded call) true]> (calls st1))
        (modelLoads st1) (processorLoads st1)
  | inl message => constructionFailed c call message st
  end.

(** The rest of the task branch: the image pipeline either yields the
    encoded image or throws. *)
Definition imageSettled (c : nat) (call : Call) (m p : option nat)
    (r : string + (Z * Z * list Z)) (st : Script) : Script :=
  let st1 :=
    match r with
    | inr (width, height, bytes) => post (completeMsg width height bytes) st
    | inl message => post (errorMsg message) st
    end in
  mkScript (model st1) (processor st1) (outbox st1)
    (<[c := mkCall (directive call) (Finished (Some (m, p))) (modelLoaded call)
             (processorLoaded call)]> (calls st1))
    (modelLoads st1) (processorLoads st1).

Inductive UEvent :=
| UMessage (data : JsVal)
| UModelSettled (c : nat) (r : string + nat)
| UProcessorSettled (c : nat) (r : string + nat)
| UImageSettled (c : nat) (r : string + (Z * Z * list Z)).

Definition ustep (st : Script) (e : UEvent) : Script :=
  match e with
  | UMessage data =>
      match directiveOf data with
      | Some d => getInstance_begin d st
      | None => st
      end
  | UModelSettled c r =>
      match calls st !! c with
      | Some call =>
          match phase call with
          | AwaitModel => getInstance_modelSettled c call r st
          | _ => st
          end
      | None => st
      end
  | UProcessorSettled c r =>
      match calls st !! c with
      | Some call =>
          match phase call with
          | AwaitProcessor => getInstance_processorSettled c call r st
          | _ => st
          end
      | None => st
      end
  | UImageSettled c r =>
      match calls st !! c with
      | Some call =>
          match phase call with
          | AwaitImage m p => imageSettled c call m p r st
          | _ => st
          end
      | None => st
      end
  end.

Definition urun (st : Script) (evs : list UEvent) : Script := foldl ustep st evs.

(** A call is constructing while it awaits one of the two loads. *)
Definition constructing (call : Call) : bool :=
  match phase call with
  | AwaitModel | AwaitProcessor => true
  | _ => false
  end.

(** The two local flags of a suspended call say which load it awaits. *)
Definition flagsAgree (call : Call) : Prop :=
  match phase call with
  | AwaitModel => modelLoaded call = false
  | AwaitProcessor => modelLoaded call = true
  | _ => True
  end.

(** The pair a call of [getInstance] returned, once it has. *)
Definition instanceOf (call : Call) : option (option nat * option nat) :=
  match phase call with
  | AwaitImage m p => Some (m, p)
  | Finished r => r
  | _ => None
  end.

(** The pipeline [(m, p)] is built, [ml] and [pl] loads were begun, no
    call is constructing, and the calls from the [n]-th on returned
    [(m, p)]. *)
Definition built (m p n ml pl : nat) (st : Script) : Prop :=
  model st = Some m ∧ processor st = Some p
  ∧ modelLoads st = ml ∧ processorLoads st = pl
  ∧ Forall (λ call, constructing call = false) (calls st)
  ∧ (∀ c call, n ≤ c → calls st !! c = Some call →
       instanceOf call = Some (Some m, Some p)).

(** ** The alpha channel of the result

    The loop of the task branch that writes the mask into the alpha
    channel of the canvas pixels.  [pixelData.data] is a
    [Uint8ClampedArray]: a store clamps the value to a byte, and a store
    past the end of the array does nothing. *)

Definition clampByte (v : Z) : Z := Z.max 0 (Z.min 255 v).

(** [for (let i = start; i < mask.length; ++i) data[4 * i + 3] = mask[i]],
    with [mask] the part of the mask from [start] on. *)
Fixpoint writeAlphaFrom (start : nat) (mask : list Z) (data : list Z) : list Z :=
  match mask with
  | [] => data
  | v :: mask' => writeAlphaFrom (S start) mask' (<[4 * start + 3 := clampByte v]> data)
  end.

Definition writeAlpha (mask data : list Z) : list Z := writeAlphaFrom 0 mask data.

(** *** The progress callbacks of [getInstance] *)

(** [`${v}`] *)
Definition toText (v : JsVal) : string :=
  match v with
  | VUndef => "undefined"
  | VNull => "null"
  | VNum n => pretty n
  | VStr s => s
  | VBuf _ => "[object ArrayBuffer]"
  | VErr m => "Error: " +:+ m
  | VObj _ => "[object Object]"
  end.

(** [{ ...base, ...extra }]: a property of [extra] replaces the value of
    a property of that name in place, and is appended otherwise. *)
Definition spread (base extra : list (string * JsVal)) : list (string * JsVal) :=
  foldl (λ acc kv, jsmap_set kv.1 kv.2 acc) base extra.

(** The message a progress callback builds from a progress object of
    the library; [percent] renders [Math.round] of the object's
    [progress], a floating-point number. *)
Definition progressReport (kind label : string) (percent : JsVal → string)
    (progress : list (string * JsVal)) : JsVal :=
  let p := VObj progress in
  if isStr (getField "status" p) "progress" && truthy (getField "file" p) then
    VObj [("status", VStr "progress"); ("type", VStr kind);
          ("file", getField "file" p); ("progress", getField "progress" p);
          ("loaded", getField "loaded" p); ("total", getField "total" p);
          ("message", VStr ("Downloading " +:+ kind +:+ " file: "
                            +:+ toText (getField "file" p)
                            +:+ " (" +:+ percent (getField "progress" p) +:+ "%)"))]
  else
    VObj (spread [("status", VStr "progress"); ("type", VStr kind);
                  ("message", if truthy (getField "message" p)
                              then getField "message" p
                              else VStr (label +:+ " loading: "
                                         +:+ toText (getField "status" p)))]
            progress).

(** [modelProgressCallback] and [processorProgressCallback], with the
    [progress_callback] the listener passes, [x => self.postMessage(x)]. *)
Definition modelProgressCallback (percent : JsVal → string)
    (progress : list (string * JsVal)) (st : Script) : Script :=
  post (progressReport "model" "Model" percent progress) (post (VObj progress) st).
Definition processorProgressCallback (percent : JsVal → string)
    (progress : list (string * JsVal)) (st : Script) : Script :=
  post (progressReport "processor" "Processor" percent progress)
    (post (VObj progress) st).


End WorkerScript.

(** The worker each dispatched task was sent to, in order of dispatch. *)
Definition assignments (l : list Action) : list (nat * string) :=
  omap (λ a, match a with
             | PostMessage w msg =>
                 match getField "taskId" msg with
                 | VStr k => Some (w, k)
                 | _ => None
                 end
             | _ => None
             end) l.

(** The promises [resolve] or [reject] was called on, in order. *)
Definition settledPromises (l : list Action) : list nat :=
  omap (λ a, match a with
             | CallResolve p _ | CallReject p _ => Some p
             | _ => None
             end) l.

Definition isPending (x : PromiseState) : bool :=
  match x with
  | Pending => true
  | _ => false
  end.

(** The number of promises that are not settled. *)
Definition pendingCount (s : Pool) : nat :=
  length (filter (λ x, isPending x = true) (promises s)).

(** [terminate()] was called on the worker. *)
Definition wasTerminated (w : nat) (s : Pool) : Prop :=
  worker_terminated <$> heap s !! w = Some true.


(** [resolve] or [reject] was called at most once on each promise, and
    on exactly the promises that are settled. *)
Definition settledOnce (s : Pool) : Prop :=
  NoDup (settledPromises (log s))
  ∧ ∀ p, p ∈ settledPromises (log s)
         ↔ ∃ r, promises s !! p = Some r ∧ isPending r = false.


(** An active task bound to a worker that was terminated. *)
Definition stranded (k : string) (t : Task) (w : wref) (s : Pool) : Prop :=
  (k, t) ∈ activeTasks s ∧ task_worker t = Some w ∧ wasTerminated w s.


(** The last task posted to a worker, among the tasks posted so far. *)
Definition lastTo (w : wref) (l : list (nat * string)) : option (nat * string) :=
  last (filter (λ a, a.1 = w) l).

(** Every task the pool holds was created by the call of [processImage]
    whose position is the task's promise, and sits in the active map under
    its own id. *)
Definition tracked (subs : list string) (s : Pool) : Prop :=
  length (promises s) = length subs
  ∧ (∀ t, t ∈ taskQueue s → subs !! task_promise t = Some (task_id t))
  ∧ (∀ k t, (k, t) ∈ activeTasks s →
       task_id t = k ∧ subs !! task_promise t = Some k).

(** An active task is the last task that was posted to its worker. *)
Definition answersLast (s : Pool) : Prop :=
  ∀ w k t, (k, t) ∈ activeTasks s → task_worker t = Some w →
    lastTo w (assignments (log s)) = Some (w, k).


(** Every task whose promise is pending is in the queue or in the
    active map. *)
Definition Held (s : Pool) : Prop :=
  ∀ p, promises s !! p = Some Pending → p ∈ live s.

(** A ready worker is bound to no active task; no worker is bound to
    two; no task id is the empty string. *)
Record ReadyUnbound (s : Pool) : Prop := mkReadyUnbound {
  ru_ready : ∀ w, w ∈ readyWorkers s → boundTo w (activeTasks s) = [];
  ru_one : ∀ w, length (boundTo w (activeTasks s)) ≤ 1;
  ru_ids : ∀ k, k ∈ heldIds s → k ≠ ""
}.


(** * Properties *)

(** ** The insertion-ordered collections *)

Section JsCollectionFacts.
Context {A : Type} `{EqDecision A}.

Lemma jsset_add_elem (x : A) (l : list A) : x ∈ jsset_add x l.
Proof.
  unfold jsset_add. case_decide; [done|].
  apply elem_of_app. right. by apply list_elem_of_singleton.
Qed.

Lemma jsset_add_NoDup (x : A) (l : list A) : NoDup l → NoDup (jsset_add x l).
Proof.
  intros Hl. unfold jsset_add. case_decide as Hx; [done|].
  apply NoDup_app. split_and!; [done| |apply NoDup_singleton].
  intros y Hy ->%list_elem_of_singleton. done.
Qed.

Lemma jsset_add_nil (x : A) : jsset_add x [] = [x].
Proof. unfold jsset_add. rewrite decide_False; [done|apply not_elem_of_nil]. Qed.

Lemma jsset_add_length (x : A) (l : list A) :
  length l ≤ length (jsset_add x l) ≤ S (length l).
Proof.
  unfold jsset_add. case_decide; [lia|]. rewrite length_app. csimpl. lia.
Qed.

Lemma jsset_delete_not_elem (x : A) (l : list A) : x ∉ jsset_delete x l.
Proof. unfold jsset_delete. rewrite list_elem_of_filter. by intros [Hne _]. Qed.

Lemma jsset_delete_NoDup (x : A) (l : list A) : NoDup l → NoDup (jsset_delete x l).
Proof. apply NoDup_filter. Qed.

Lemma jsset_delete_absent (x : A) (l : list A) : x ∉ l → jsset_delete x l = l.
Proof.
  unfold jsset_delete. induction l as [|y l IH]; [done|].
  rewrite not_elem_of_cons. intros [Hxy Hx].
  rewrite filter_cons_True by done. by rewrite IH.
Qed.

Lemma jsset_delete_head (x : A) (l : list A) :
  NoDup (x :: l) → jsset_delete x (x :: l) = l.
Proof.
  rewrite NoDup_cons. intros [Hx _]. unfold jsset_delete.
  rewrite filter_cons_False by naive_solver. by apply jsset_delete_absent.
Qed.

Lemma jsset_delete_elem (x y : A) (l : list A) :
  y ∈ jsset_delete x l ↔ y ≠ x ∧ y ∈ l.
Proof. unfold jsset_delete. by rewrite list_elem_of_filter. Qed.

Context {V : Type}.
Implicit Types m : list (A * V).

Lemma jsmap_get_elem k v m : jsmap_get k m = Some v → (k, v) ∈ m.
Proof.
  induction m as [|[k' v'] m IH]; csimpl; [done|].
  case_decide as Hk.
  - intros [= ->]. subst. apply list_elem_of_here.
  - intros H. apply list_elem_of_further. auto.
Qed.

Lemma jsmap_get_None k m : jsmap_get k m = None ↔ k ∉ m.*1.
Proof.
  induction m as [|[k' v'] m IH]; csimpl.
  - split; [intros _; apply not_elem_of_nil|done].
  - case_decide as Hk.
    + subst. split; [done|]. intros []. apply list_elem_of_here.
    + rewrite IH, not_elem_of_cons. split; [by intros ?|by intros [_ ?]].
Qed.

Lemma jsmap_get_unique k v m : NoDup m.*1 → (k, v) ∈ m → jsmap_get k m = Some v.
Proof.
  induction m as [|[k' v'] m IH]; csimpl.
  - intros _ H. by apply not_elem_of_nil in H.
  - rewrite NoDup_cons. intros [Hk' Hm] [Heq|Hin]%elem_of_cons.
    + injection Heq as -> ->. by rewrite decide_True.
    + case_decide as Hk; [|auto]. subst. destruct Hk'.
      apply list_elem_of_fmap. by exists (k', v).
Qed.

Lemma jsmap_set_keys k v m :
  (jsmap_set k v m).*1 = if decide (k ∈ m.*1) then m.*1 else m.*1 ++ [k].
Proof.
  induction m as [|[k' v'] m IH]; csimpl.
  - done.
  - destruct (decide (k = k')) as [->|Hne]; csimpl.
    + rewrite decide_True; [done|apply list_elem_of_here].
    + rewrite IH. destruct (decide (k ∈ m.*1)) as [Hin|Hin].
      * rewrite decide_True; [done|by apply list_elem_of_further].
      * rewrite decide_False; [done|]. rewrite not_elem_of_cons. done.
Qed.

Lemma jsmap_set_fresh k v m : k ∉ m.*1 → jsmap_set k v m = m ++ [(k, v)].
Proof.
  induction m as [|[k' v'] m IH]; csimpl; [done|].
  rewrite not_elem_of_cons. intros [Hne Hk].
  rewrite decide_False by done. by rewrite IH.
Qed.

Lemma jsmap_set_NoDup k v m : NoDup m.*1 → NoDup (jsmap_set k v m).*1.
Proof.
  intros Hm. rewrite jsmap_set_keys. case_decide as Hk; [done|].
  apply NoDup_app. split_and!; [done| |apply NoDup_singleton].
  intros y Hy ->%list_elem_of_singleton. done.
Qed.

Lemma jsmap_set_values {B} (f : A * V → B) k v m :
  f <$> jsmap_set k v m ⊆+ f (k, v) :: (f <$> m).
Proof.
  induction m as [|[k' v'] m IH]; csimpl; [done|].
  case_decide as Hk; csimpl.
  - apply submseteq_skip. by apply submseteq_cons.
  - etrans; [apply submseteq_skip, IH|]. by apply submseteq_swap.
Qed.

Lemma jsmap_delete_sublist k m : jsmap_delete k m `sublist_of` m.
Proof. apply sublist_filter. Qed.

Lemma jsmap_delete_keys k m : (jsmap_delete k m).*1 = filter (λ k', k' ≠ k) m.*1.
Proof.
  unfold jsmap_delete. induction m as [|[k' v'] m IH]; [done|].
  rewrite fmap_cons. csimpl. destruct (decide (k' = k)) as [->|Hne].
  - rewrite !filter_cons_False by naive_solver. done.
  - rewrite !filter_cons_True by done. rewrite fmap_cons. csimpl. by rewrite IH.
Qed.

Lemma jsmap_delete_NoDup k m : NoDup m.*1 → NoDup (jsmap_delete k m).*1.
Proof. rewrite jsmap_delete_keys. apply NoDup_filter. Qed.

Lemma jsmap_delete_absent k m : k ∉ m.*1 → jsmap_delete k m = m.
Proof.
  unfold jsmap_delete. induction m as [|[k' v'] m IH]; [done|].
  rewrite fmap_cons, not_elem_of_cons. csimpl. intros [Hne Hk].
  rewrite filter_cons_True by (simpl; congruence). by rewrite IH.
Qed.

(** Deleting the key of an entry removes that entry and nothing else. *)
Lemma jsmap_delete_split k v m :
  NoDup m.*1 → (k, v) ∈ m →
  ∃ m1 m2, m = m1 ++ (k, v) :: m2 ∧ jsmap_delete k m = m1 ++ m2.
Proof.
  intros Hnd Hin. apply list_elem_of_split in Hin as (m1 & m2 & ->).
  exists m1, m2. split; [done|].
  rewrite fmap_app, fmap_cons in Hnd. csimpl in Hnd.
  apply NoDup_app in Hnd as (_ & Hdisj & [Hk2 _]%NoDup_cons).
  unfold jsmap_delete. rewrite filter_app, filter_cons_False by naive_solver.
  fold (jsmap_delete k m1). fold (jsmap_delete k m2).
  rewrite !jsmap_delete_absent; [done|done|].
  intros Hk1. apply (Hdisj k Hk1). apply list_elem_of_here.
Qed.
End JsCollectionFacts.

(** ** Settling promises *)

Lemma settle_shape p r s : sameShape s (settle p r s).
Proof. unfold settle. by destruct (promises s !! p) as [[]|]. Qed.

Lemma settle_log p r s : log (settle p r s) = log s.
Proof. unfold settle. by destruct (promises s !! p) as [[]|]. Qed.

Lemma settle_length p r s : length (promises (settle p r s)) = length (promises s).
Proof.
  unfold settle. destruct (promises s !! p) as [[]|]; try done.
  simpl. apply length_insert.
Qed.

Lemma settle_other p q r s : q ≠ p → promises (settle p r s) !! q = promises s !! q.
Proof.
  intros Hne. unfold settle. destruct (promises s !! p) as [[]|]; try done.
  simpl. by apply list_lookup_insert_ne.
Qed.

Lemma settle_pending p r s :
  promises s !! p = Some Pending → promises (settle p r s) !! p = Some r.
Proof.
  intros Hp. unfold settle. rewrite Hp. simpl.
  apply list_lookup_insert_eq. by eapply lookup_lt_Some.
Qed.

Lemma settle_settled p r s :
  promises s !! p ≠ Some Pending → settle p r s = s.
Proof. unfold settle. by destruct (promises s !! p) as [[]|]. Qed.

Lemma rejectTask_shape t e s : sameShape s (rejectTask t e s).
Proof. unfold rejectTask. apply (settle_shape _ _ (emit _ s)). Qed.

Lemma resolveTask_shape t v s : sameShape s (resolveTask t v s).
Proof. unfold resolveTask. apply (settle_shape _ _ (emit _ s)). Qed.

Lemma rejectTask_log t e s :
  log (rejectTask t e s) = log s ++ [CallReject (task_promise t) e].
Proof. unfold rejectTask. by rewrite settle_log. Qed.

Lemma resolveTask_log t v s :
  log (resolveTask t v s) = log s ++ [CallResolve (task_promise t) v].
Proof. unfold resolveTask. by rewrite settle_log. Qed.

Lemma rejectTask_other t e s q :
  q ≠ task_promise t → promises (rejectTask t e s) !! q = promises s !! q.
Proof. intros. unfold rejectTask. by rewrite settle_other. Qed.

Lemma resolveTask_other t v s q :
  q ≠ task_promise t → promises (resolveTask t v s) !! q = promises s !! q.
Proof. intros. unfold resolveTask. by rewrite settle_other. Qed.

Lemma rejectTask_pending t e s :
  promises s !! task_promise t = Some Pending →
  promises (rejectTask t e s) !! task_promise t = Some (Rejected e).
Proof. intros. unfold rejectTask. by rewrite settle_pending. Qed.

Lemma resolveTask_pending t v s :
  promises s !! task_promise t = Some Pending →
  promises (resolveTask t v s) !! task_promise t = Some (Fulfilled v).
Proof. intros. unfold resolveTask. by rewrite settle_pending. Qed.

Lemma sameShape_refl s : sameShape s s.
Proof. by repeat split. Qed.

Lemma sameShape_trans s1 s2 s3 : sameShape s1 s2 → sameShape s2 s3 → sameShape s1 s3.
Proof. unfold sameShape. intros ? ?. destruct_and!. repeat split; congruence. Qed.

(** Rejecting a list of tasks one after the other. *)
Lemma rejectAll_shape e ts s :
  sameShape s (foldl (λ acc t, rejectTask t e acc) s ts).
Proof.
  revert s. induction ts as [|t ts IH]; intros s; simpl; [apply sameShape_refl|].
  eapply sameShape_trans; [apply (rejectTask_shape t e)|apply IH].
Qed.

Lemma rejectAll_log e ts s :
  log (foldl (λ acc t, rejectTask t e acc) s ts)
  = log s ++ ((λ t, CallReject (task_promise t) e) <$> ts).
Proof.
  revert s. induction ts as [|t ts IH]; intros s; csimpl; [by rewrite app_nil_r|].
  rewrite IH, rejectTask_log, <-app_assoc. done.
Qed.

Lemma rejectAll_other e ts s q :
  q ∉ task_promise <$> ts →
  promises (foldl (λ acc t, rejectTask t e acc) s ts) !! q = promises s !! q.
Proof.
  revert s. induction ts as [|t ts IH]; intros s; csimpl; [done|].
  rewrite not_elem_of_cons. intros [Hq Hts].
  rewrite IH by done. by apply rejectTask_other.
Qed.

Lemma rejectAll_pending e ts s t :
  NoDup (task_promise <$> ts) → t ∈ ts →
  promises s !! task_promise t = Some Pending →
  promises (foldl (λ acc t, rejectTask t e acc) s ts) !! task_promise t
  = Some (Rejected e).
Proof.
  revert s. induction ts as [|t' ts IH]; intros s; csimpl.
  - intros _ H. by apply not_elem_of_nil in H.
  - rewrite NoDup_cons. intros [Hnot Hnd] [->|Hin]%elem_of_cons Hp.
    + rewrite rejectAll_other by done. by apply rejectTask_pending.
    + apply IH; [done|done|]. rewrite rejectTask_other; [done|].
      intros Heq. apply Hnot. rewrite <-Heq. by apply list_elem_of_fmap_2.
Qed.

(** ** One call of [processQueue] *)

Lemma processQueue_idle s : drained s → processQueue s = s.
Proof.
  intros Hd. unfold processQueue. case_decide as Hc; [done|].
  destruct Hc. destruct Hd as [-> | ->]; auto.
Qed.

Lemma processQueue_dispatch s t rest w ws :
  taskQueue s = t :: rest → readyWorkers s = w :: ws →
  processQueue s = dispatchHead t rest w s.
Proof.
  intros Hq Hr. unfold processQueue. rewrite Hq, Hr.
  case_decide as Hc; [simpl in Hc; lia|].
  unfold getAvailableWorker. simpl readyWorkers. rewrite Hr.
  case_decide as Hc'; [simpl in Hc'; lia|].
  unfold dispatchHead. by rewrite Hr.
Qed.

(** The two cases of [processQueue], as an elimination principle. *)
Lemma processQueue_cases (P : Pool → Prop) s :
  (drained s → P s) →
  (∀ t rest w ws, taskQueue s = t :: rest → readyWorkers s = w :: ws →
     P (dispatchHead t rest w s)) →
  P (processQueue s).
Proof.
  intros Hidle Hdisp.
  destruct (taskQueue s) as [|t rest] eqn:Hq.
  { rewrite processQueue_idle; [|by left]. apply Hidle. by left. }
  destruct (readyWorkers s) as [|w ws] eqn:Hr.
  { rewrite processQueue_idle; [|by right]. apply Hidle. by right. }
  erewrite processQueue_dispatch by done. by eapply Hdisp.
Qed.

Lemma drained_processQueue s :
  NoDup (readyWorkers s) →
  length (taskQueue s) ≤ 1 ∨ length (readyWorkers s) ≤ 1 →
  drained (processQueue s).
Proof.
  intros Hnd Hone. apply processQueue_cases; [done|].
  intros t rest w ws Hq Hr. unfold drained. simpl.
  rewrite Hq, Hr in Hone. rewrite Hr in Hnd |- *.
  rewrite jsset_delete_head by done. simpl in Hone.
  destruct Hone; [left; destruct rest|right; destruct ws]; simpl in *; done || lia.
Qed.

Lemma live_dispatchHead t rest w s :
  taskQueue s = t :: rest → live (dispatchHead t rest w s) ⊆+ live s.
Proof.
  intros Hq. unfold live, queuedPromises, activePromises. simpl. rewrite Hq. csimpl.
  etrans; [apply submseteq_skips_l, jsmap_set_values|]. simpl.
  by rewrite Permutation_middle.
Qed.

Lemma Core_dispatchHead t rest w s :
  taskQueue s = t :: rest → Core s → Core (dispatchHead t rest w s).
Proof.
  intros Hq [Hk Hr Hl Hp Hf]. pose proof (live_dispatchHead t rest w s Hq) as Hsub.
  split.
  - simpl. by apply jsmap_set_NoDup.
  - simpl. by apply jsset_delete_NoDup.
  - apply submseteq_sublist_r in Hsub as (l' & Hperm & Hsl).
    rewrite Hperm. by eapply sublist_NoDup.
  - intros p Hin. simpl. apply Hp. by eapply elem_of_submseteq.
  - done.
Qed.

Lemma Core_processQueue s : Core s → Core (processQueue s).
Proof.
  intros Hc. apply processQueue_cases; [done|].
  intros t rest w ws Hq _. by apply Core_dispatchHead.
Qed.

(** ** The invariants hold along every run *)

Lemma Core_new requested hc : Core (newWorkerPool requested hc).
Proof. split; simpl; try done; try apply NoDup_nil_2. intros p H. by apply not_elem_of_nil in H. Qed.

Lemma Core_same_tasks s s' :
  activeTasks s' = activeTasks s → taskQueue s' = taskQueue s →
  readyWorkers s' = readyWorkers s → promises s' = promises s →
  isInitializing s' = isInitializing s → Core s → Core s'.
Proof.
  intros Ha Hq Hr Hp Hi [? ? ? ? ?].
  split; unfold live, queuedPromises, activePromises in *;
    rewrite ?Ha, ?Hq, ?Hr, ?Hp, ?Hi; done.
Qed.

Lemma live_lt s p : Core s → p ∈ live s → p < length (promises s).
Proof. intros Hc Hin. eapply lookup_lt_Some. by apply (core_pending s Hc). Qed.

Lemma Core_enqueue now rnd url cb s : Core s → Core (enqueue now rnd url cb s).
Proof.
  intros Hc. pose proof Hc as [Hk Hr Hl Hp Hf]. split; try done.
  - unfold live, queuedPromises, activePromises in *. simpl. rewrite fmap_app. csimpl.
    rewrite <-app_assoc. csimpl. rewrite <-Permutation_middle. apply NoDup_cons. split; [|done].
    intros Hin. apply (live_lt s _ Hc) in Hin. lia.
  - intros p. unfold live, queuedPromises, activePromises in *. simpl.
    rewrite fmap_app. csimpl. rewrite <-app_assoc. csimpl.
    rewrite <-Permutation_middle.
    intros [->|Hin]%elem_of_cons.
    + by rewrite lookup_app_r, Nat.sub_diag.
    + rewrite lookup_app_l; [by apply Hp|]. eapply lookup_lt_Some. by apply Hp.
Qed.

Lemma Core_markReady w s : Core s → Core (markReady w s).
Proof.
  intros [Hk Hr Hl Hp Hf]. split; try done. simpl. by apply jsset_add_NoDup.
Qed.

(** ** Looking up the task bound to a worker *)

Lemma findTaskIdByWorker_app w m1 m2 :
  findTaskIdByWorker w (m1 ++ m2)
  = match findTaskIdByWorker w m1 with
    | Some k => Some k
    | None => findTaskIdByWorker w m2
    end.
Proof.
  induction m1 as [|[k t] m1 IH]; simpl; [done|]. by case_decide.
Qed.

Lemma findTaskIdByWorker_None w m :
  findTaskIdByWorker w m = None ↔ boundTo w m = [].
Proof.
  unfold boundTo. induction m as [|[k t] m IH]; simpl; [done|].
  case_decide as Hw.
  - rewrite filter_cons_True by done. done.
  - rewrite filter_cons_False by done. done.
Qed.

Lemma findTaskIdByWorker_Some w m k :
  findTaskIdByWorker w m = Some k →
  ∃ t, (k, t) ∈ m ∧ task_worker t = Some w.
Proof.
  induction m as [|[k' t'] m IH]; simpl; [done|].
  case_decide as Hw.
  - intros [= ->]. exists t'. split; [apply list_elem_of_here|done].
  - intros (t & Hin & Ht)%IH. exists t. split; [by apply list_elem_of_further|done].
Qed.

Lemma boundTask_Some o s k t :
  boundTask o s = Some (k, t) →
  o = Some k ∧ k ≠ "" ∧ jsmap_get k (activeTasks s) = Some t.
Proof.
  unfold boundTask. destruct o as [k'|]; [|done].
  case_decide; [done|].
  destruct (jsmap_get k' (activeTasks s)) as [t'|] eqn:Hg; simpl; [|done].
  by intros [= -> ->].
Qed.

Lemma boundTask_None_find w s :
  findTaskIdByWorker w (activeTasks s) = None →
  boundTask (findTaskIdByWorker w (activeTasks s)) s = None.
Proof. by intros ->. Qed.

(** ** The loop of [handleWorkerError] in closed form *)

Lemma with_activeTasks_rejectTask a t e s :
  with_activeTasks a (rejectTask t e s) = rejectTask t e (with_activeTasks a s).
Proof.
  unfold rejectTask, settle. simpl.
  by destruct (promises s !! task_promise t) as [[]|].
Qed.

Lemma with_activeTasks_rejectAll a e ts s :
  with_activeTasks a (foldl (λ acc t, rejectTask t e acc) s ts)
  = foldl (λ acc t, rejectTask t e acc) (with_activeTasks a s) ts.
Proof.
  revert s. induction ts as [|t ts IH]; intros s; simpl; [done|].
  by rewrite IH, with_activeTasks_rejectTask.
Qed.

Lemma with_activeTasks_id s : with_activeTasks (activeTasks s) s = s.
Proof. by destruct s. Qed.

Lemma boundTo_app w m1 m2 : boundTo w (m1 ++ m2) = boundTo w m1 ++ boundTo w m2.
Proof. apply filter_app. Qed.

Lemma notBoundTo_app w m1 m2 :
  notBoundTo w (m1 ++ m2) = notBoundTo w m1 ++ notBoundTo w m2.
Proof. apply filter_app. Qed.

Lemma boundTo_cons w k t m :
  boundTo w ((k, t) :: m)
  = if decide (task_worker t = Some w) then (k, t) :: boundTo w m else boundTo w m.
Proof.
  unfold boundTo. case_decide.
  - by rewrite filter_cons_True.
  - by rewrite filter_cons_False.
Qed.

Lemma notBoundTo_cons w k t m :
  notBoundTo w ((k, t) :: m)
  = if decide (task_worker t = Some w) then notBoundTo w m else (k, t) :: notBoundTo w m.
Proof.
  unfold notBoundTo. case_decide.
  - rewrite filter_cons_False; [done|]. simpl. intros Hn. by apply Hn.
  - by rewrite filter_cons_True.
Qed.

Lemma notBoundTo_id w m : boundTo w m = [] → notBoundTo w m = m.
Proof.
  induction m as [|[k t] m IH]; [done|].
  rewrite boundTo_cons, notBoundTo_cons. case_decide; [done|].
  intros Hb. by rewrite IH.
Qed.

Lemma rejectBound_closed w e entries :
  ∀ s kept,
    activeTasks s = kept ++ entries → NoDup (activeTasks s).*1 →
    boundTo w kept = [] →
    rejectBound w e entries s
    = with_activeTasks (kept ++ notBoundTo w entries)
        (foldl (λ acc t, rejectTask t e acc) s (snd <$> boundTo w entries)).
Proof.
  induction entries as [|[k t] rest IH]; intros s kept Ha Hnd Hkept.
  - simpl. rewrite app_nil_r in *. rewrite <-Ha. by rewrite with_activeTasks_id.
  - simpl. rewrite Ha, findTaskIdByWorker_app.
    apply findTaskIdByWorker_None in Hkept as Hfind. rewrite Hfind. simpl.
    rewrite boundTo_cons, notBoundTo_cons.
    destruct (decide (task_worker t = Some w)) as [Hw|Hw].
    + rewrite decide_True by done. csimpl.
      destruct (jsmap_delete_split k t (activeTasks s)) as (m1 & m2 & Hsplit & Hdel);
        [done|rewrite Ha; apply elem_of_app; right; apply list_elem_of_here|].
      assert (activeTasks (rejectTask t e s) = activeTasks s) as Hsame
        by apply (rejectTask_shape t e s).
      rewrite Hsame.
      assert (jsmap_delete k (activeTasks s) = kept ++ rest) as Hdel'.
      { rewrite Ha in Hnd |- *. unfold jsmap_delete. rewrite filter_app.
        rewrite filter_cons_False by naive_solver.
        rewrite fmap_app, fmap_cons in Hnd. csimpl in Hnd.
        apply NoDup_app in Hnd as (_ & Hdisj & [Hk2 _]%NoDup_cons).
        fold (jsmap_delete k kept). fold (jsmap_delete k rest).
        rewrite !jsmap_delete_absent; [done|done|].
        intros Hk1. apply (Hdisj k Hk1). apply list_elem_of_here. }
      rewrite Hdel'. rewrite (IH _ kept); [| done | | done].
      * rewrite <-with_activeTasks_rejectAll. done.
      * simpl. rewrite <-Hdel'. by apply jsmap_delete_NoDup.
    + rewrite decide_False.
      * rewrite (IH s (kept ++ [(k, t)])).
        -- by rewrite <-app_assoc.
        -- by rewrite <-app_assoc.
        -- done.
        -- rewrite boundTo_app, Hkept, boundTo_cons. by rewrite decide_False.
      * intros Hf. apply findTaskIdByWorker_Some in Hf as (t' & Hin & _).
        rewrite Ha, fmap_app, fmap_cons in Hnd.
        apply NoDup_app in Hnd as (_ & _ & [Hk _]%NoDup_cons).
        apply Hk. apply list_elem_of_fmap. by exists (k, t').
Qed.

(** ** Removing tasks from the pool *)

Lemma Core_drop s s' :
  Core s →
  taskQueue s' `sublist_of` taskQueue s →
  activeTasks s' `sublist_of` activeTasks s →
  NoDup (readyWorkers s') →
  isInitializing s' = false →
  (∀ p, p ∈ live s' → promises s' !! p = promises s !! p) →
  Core s'.
Proof.
  intros [Hk Hr Hl Hp Hf] Hq Ha Hr' Hf' Hsame.
  assert (live s' `sublist_of` live s) as Hsub.
  { unfold live, queuedPromises, activePromises.
    apply sublist_app; by apply fmap_sublist. }
  split; try done.
  - eapply sublist_NoDup; [exact Hk|]. by apply fmap_sublist.
  - eapply sublist_NoDup; [exact Hl|exact Hsub].
  - intros p Hin. rewrite Hsame by done. apply Hp. by eapply elem_of_sublist.
Qed.

Lemma bound_free_disjoint w m p :
  NoDup ((λ kt : string * Task, task_promise kt.2) <$> m) →
  p ∈ (λ kt : string * Task, task_promise kt.2) <$> boundTo w m →
  p ∉ (λ kt : string * Task, task_promise kt.2) <$> notBoundTo w m.
Proof.
  intros Hnd Hb Hn.
  pose proof (filter_app_complement (λ kt : string * Task, task_worker kt.2 = Some w) m)
    as Hperm.
  rewrite <-Hperm, fmap_app in Hnd.
  apply NoDup_app in Hnd as (_ & Hdisj & _). by apply (Hdisj p).
Qed.

Lemma Core_set_busy w b s : Core s → Core (set_busy w b s).
Proof. by apply Core_same_tasks. Qed.

Lemma Core_emit a s : Core s → Core (emit a s).
Proof. by apply Core_same_tasks. Qed.

Lemma Core_with_timers x s : Core s → Core (with_timers x s).
Proof. by apply Core_same_tasks. Qed.

Lemma Core_release w data s : Core s → Core (release w data s).
Proof.
  intros Hc. unfold release.
  set (s2 := with_readyWorkers _ _).
  assert (Core s2) as Hc2.
  { pose proof Hc as [Hk Hr Hl Hp Hf]. split; try done.
    simpl. by apply jsset_add_NoDup. }
  destruct (boundTask _ s2) as [[k t]|] eqn:Hb; [|done].
  apply boundTask_Some in Hb as (_ & _ & Hget).
  apply jsmap_get_elem in Hget.
  destruct (jsmap_delete_split k t (activeTasks s2)) as (m1 & m2 & Hsplit & Hdel);
    [apply Hc2|done|].
  set (s3 := with_activeTasks _ s2).
  assert (task_promise t ∉ live s3) as Hnot.
  { pose proof (core_live s2 Hc2) as Hnd.
    unfold live, queuedPromises, activePromises in *.
    change (activeTasks s3) with (jsmap_delete k (activeTasks s2)).
    change (taskQueue s3) with (taskQueue s2).
    rewrite Hdel. rewrite Hsplit in Hnd.
    rewrite !fmap_app, fmap_cons in Hnd. simpl in Hnd.
    rewrite (assoc_L (++)) in Hnd. apply NoDup_app in Hnd as (_ & Hdisj & [Hno _]%NoDup_cons).
    rewrite fmap_app, !elem_of_app. intros [Hin|[Hin|Hin]].
    - apply (Hdisj (task_promise t)); [apply elem_of_app; by left|apply list_elem_of_here].
    - apply (Hdisj (task_promise t)); [apply elem_of_app; by right|apply list_elem_of_here].
    - done. }
  assert (∀ s4, sameShape s3 s4 →
            (∀ q, q ≠ task_promise t → promises s4 !! q = promises s3 !! q) →
            Core s4) as Hfin.
  { intros s4 (_ & _ & Hq & Ha & Hr & Hi & _) Hother.
    assert (live s4 = live s3) as Hlive.
    { unfold live, queuedPromises, activePromises. by rewrite Hq, Ha. }
    apply (Core_drop s2); [done|by rewrite Hq|rewrite Ha; apply jsmap_delete_sublist
                           |rewrite Hr; apply Hc2|rewrite Hi; apply Hc2|].
    intros p Hin. rewrite Hother; [done|]. intros ->. apply Hnot. by rewrite <-Hlive. }
  case_match.
  - apply Hfin; [apply resolveTask_shape|]. intros q Hq. by apply resolveTask_other.
  - apply Hfin; [apply rejectTask_shape|]. intros q Hq. by apply rejectTask_other.
Qed.

Lemma Core_forward w data s : Core s → Core (forward w data s).
Proof.
  intros Hc. unfold forward.
  destruct (boundTask _ s) as [[k t]|]; [|done].
  destruct (task_onProgress t); [by apply Core_emit|done].
Qed.

Lemma Core_handleWorkerMessage w data s :
  Core s → Core (handleWorkerMessage w data s).
Proof.
  intros Hc. unfold handleWorkerMessage.
  repeat case_match.
  - by apply Core_emit.
  - by apply Core_processQueue, Core_markReady.
  - by apply Core_processQueue, Core_release.
  - by apply Core_forward.
Qed.

(** [handleWorkerError] with its loop in closed form. *)
Lemma handleWorkerError_closed w e s :
  NoDup (activeTasks s).*1 →
  handleWorkerError w e s
  = emit (SetTimeout w restartDelay)
      (with_timers (timers s ++ [w])
         (with_activeTasks (notBoundTo w (activeTasks s))
            (foldl (λ acc t, rejectTask t e acc)
               (with_readyWorkers (jsset_delete w (readyWorkers s)) (set_busy w false s))
               (snd <$> boundTo w (activeTasks s))))).
Proof.
  intros Hnd. unfold handleWorkerError.
  rewrite (rejectBound_closed w e _ _ []); [|done|done|done].
  simpl app.
  match goal with
  | |- emit _ (with_timers (timers ?A ++ _) _) = _ =>
      assert (timers A = timers s) as ->; [|done]
  end.
  simpl. by destruct (rejectAll_shape e (snd <$> boundTo w (activeTasks s))
    (with_readyWorkers (jsset_delete w (readyWorkers s)) (set_busy w false s)))
    as (_ & _ & _ & _ & _ & _ & _ & ->).
Qed.

Lemma Core_handleWorkerError w e s : Core s → Core (handleWorkerError w e s).
Proof.
  intros Hc. rewrite handleWorkerError_closed by apply Hc.
  apply Core_emit, Core_with_timers.
  set (s2 := with_readyWorkers _ _).
  pose proof (rejectAll_shape e (snd <$> boundTo w (activeTasks s)) s2)
    as (_ & _ & Hq & Ha & Hr & Hi & _).
  apply (Core_drop s); [done| | | | |].
  - simpl. by rewrite Hq.
  - simpl. apply sublist_filter.
  - simpl. rewrite Hr. simpl. apply jsset_delete_NoDup, Hc.
  - simpl. rewrite Hi. apply Hc.
  - intros p Hin. simpl promises. rewrite rejectAll_other; [done|].
    intros Hb. rewrite <-list_fmap_compose in Hb.
    unfold live, queuedPromises, activePromises in Hin. simpl in Hin.
    rewrite Hq in Hin. simpl in Hin.
    pose proof (core_live s Hc) as Hnd. unfold live, queuedPromises, activePromises in Hnd.
    apply NoDup_app in Hnd as (_ & Hdisj & Hnda).
    apply elem_of_app in Hin as [Hin|Hin].
    + apply (Hdisj p Hin).
      eapply elem_of_sublist; [exact Hb|]. apply fmap_sublist, sublist_filter.
    + by apply (bound_free_disjoint w (activeTasks s) p).
Qed.

(** ** Spawning and terminating workers *)

Lemma sameTasks_refl s : sameTasks s s.
Proof. by repeat split. Qed.

Lemma sameTasks_trans s1 s2 s3 : sameTasks s1 s2 → sameTasks s2 s3 → sameTasks s1 s3.
Proof. unfold sameTasks. intros ? ?. destruct_and!. repeat split; congruence. Qed.

Lemma Core_sameTasks s s' : sameTasks s s' → Core s → Core s'.
Proof. intros (_ & ? & ? & ? & ? & ? & _). by apply Core_same_tasks. Qed.

Lemma spawn_sameTasks l s : sameTasks s (foldl (λ acc i, spawnWorker i acc) s l).
Proof.
  revert s. induction l as [|i l IH]; intros s; simpl; [apply sameTasks_refl|].
  eapply sameTasks_trans; [|apply IH]. by repeat split.
Qed.

Lemma spawn_workers n : ∀ a s,
  workers (foldl (λ acc i, spawnWorker i acc) s (seq a n))
  = workers s ++ (Some <$> seq (length (heap s)) n).
Proof.
  induction n as [|n IH]; intros a s; csimpl; [by rewrite app_nil_r|].
  rewrite IH. simpl. rewrite length_app, <-app_assoc. simpl.
  by rewrite Nat.add_1_r.
Qed.

Lemma spawn_heap n : ∀ a s,
  heap (foldl (λ acc i, spawnWorker i acc) s (seq a n))
  = heap s ++ ((λ i, mkWorker i false false) <$> seq a n).
Proof.
  induction n as [|n IH]; intros a s; csimpl; [by rewrite app_nil_r|].
  rewrite IH. simpl. by rewrite <-app_assoc.
Qed.

Lemma spawn_log n : ∀ a s,
  log (foldl (λ acc i, spawnWorker i acc) s (seq a n))
  = log s ++ ((λ w, PostMessage w initMsg) <$> seq (length (heap s)) n).
Proof.
  induction n as [|n IH]; intros a s; csimpl; [by rewrite app_nil_r|].
  rewrite IH. simpl. rewrite length_app, <-app_assoc. simpl.
  by rewrite Nat.add_1_r.
Qed.

Lemma initialize_unfold s :
  isInitializing s = false →
  initialize s
  = with_isInitializing false
      (foldl (λ acc i, spawnWorker i acc) (with_isInitializing true s)
         (seq 0 (maxWorkers s))).
Proof. intros Hf. unfold initialize. by rewrite Hf. Qed.

Lemma initialize_workers s :
  isInitializing s = false →
  workers (initialize s) = workers s ++ (Some <$> seq (length (heap s)) (maxWorkers s)).
Proof. intros Hf. rewrite initialize_unfold by done. simpl. by rewrite spawn_workers. Qed.

Lemma initialize_sameTasks s : isInitializing s = false → sameTasks s (initialize s).
Proof.
  intros Hf. rewrite initialize_unfold by done.
  pose proof (spawn_sameTasks (seq 0 (maxWorkers s)) (with_isInitializing true s))
    as (? & ? & ? & ? & ? & ? & ?).
  repeat split; simpl; try done; by rewrite Hf.
Qed.

Lemma Core_initialize s : Core s → Core (initialize s).
Proof.
  intros Hc. eapply Core_sameTasks; [|done]. apply initialize_sameTasks, Hc.
Qed.

Lemma terminateWorker_sameTasks w s : sameTasks s (terminateWorker w s).
Proof. by repeat split. Qed.

Lemma terminateAll_sameTasks ws : ∀ s s', terminateAll ws s = Some s' → sameTasks s s'.
Proof.
  induction ws as [|[w|] ws IH]; intros s s'; simpl.
  - intros [= <-]. apply sameTasks_refl.
  - intros H%IH. eapply sameTasks_trans; [apply (terminateWorker_sameTasks w)|done].
  - done.
Qed.

Lemma terminatedPrefix_sameTasks ws : ∀ s, sameTasks s (terminatedPrefix ws s).
Proof.
  induction ws as [|[w|] ws IH]; intros s; simpl; try apply sameTasks_refl.
  eapply sameTasks_trans; [apply (terminateWorker_sameTasks w)|apply IH].
Qed.

Lemma terminateAll_dense ws s :
  Forall is_Some ws → is_Some (terminateAll ws s).
Proof.
  intros Hd. revert s. induction Hd as [|o ws [w ->] _ IH]; intros s; simpl; [done|].
  apply IH.
Qed.

Lemma terminateAll_log ws : ∀ s s',
  terminateAll ws s = Some s' →
  log s' = log s ++ omap (λ o, TerminateWorker <$> o) ws.
Proof.
  induction ws as [|[w|] ws IH]; intros s s'; csimpl.
  - intros [= <-]. by rewrite app_nil_r.
  - intros H%IH. rewrite H. simpl. by rewrite <-app_assoc.
  - done.
Qed.

Lemma Core_restartWorker w s : Core s → Core (restartWorker w s).
Proof. by apply Core_same_tasks. Qed.

Lemma terminate_tasks s :
  taskQueue (terminate s) = [] ∧ activeTasks (terminate s) = [] ∧
  isInitializing (terminate s) = isInitializing s ∧
  (readyWorkers (terminate s) = [] ∨ readyWorkers (terminate s) = readyWorkers s).
Proof.
  unfold terminate.
  set (s1 := foldl _ s (taskQueue s)). set (s2 := with_taskQueue [] s1).
  set (s3 := foldl _ s2 _). set (s4 := with_activeTasks [] s3).
  pose proof (rejectAll_shape terminatedError (taskQueue s) s)
    as (_ & _ & _ & _ & Hr1 & Hi1 & _).
  pose proof (rejectAll_shape terminatedError (snd <$> activeTasks s2) s2)
    as (_ & _ & Hq3 & _ & Hr3 & Hi3 & _).
  fold s1 in Hr1, Hi1. fold s3 in Hq3, Hr3, Hi3.
  destruct (terminateAll (workers s4) s4) as [s5|] eqn:Ht.
  - apply terminateAll_sameTasks in Ht as (_ & Hq & Ha & _ & Hi & _).
    simpl. rewrite Hq, Ha, Hi. simpl. rewrite Hq3, Hi3. simpl. rewrite Hi1. auto.
  - pose proof (terminatedPrefix_sameTasks (workers s4) s4) as (_ & Hq & Ha & Hr & Hi & _).
    set (s5 := terminatedPrefix (workers s4) s4) in *. simpl. rewrite Hq, Ha, Hi, Hr. simpl. rewrite Hq3, Hi3, Hr3. simpl.
    rewrite Hi1, Hr1. auto.
Qed.

Lemma Core_terminate s : Core s → Core (terminate s).
Proof.
  intros Hc. destruct (terminate_tasks s) as (Hq & Ha & Hi & Hr).
  split.
  - rewrite Ha. apply NoDup_nil_2.
  - destruct Hr as [-> | ->]; [apply NoDup_nil_2|apply Hc].
  - unfold live, queuedPromises, activePromises. rewrite Hq, Ha. apply NoDup_nil_2.
  - unfold live, queuedPromises, activePromises. rewrite Hq, Ha.
    intros p H. by apply not_elem_of_nil in H.
  - rewrite Hi. apply Hc.
Qed.

Lemma release_frame w data s :
  taskQueue (release w data s) = taskQueue s ∧
  readyWorkers (release w data s) = jsset_add w (readyWorkers s) ∧
  workers (release w data s) = workers s ∧
  timers (release w data s) = timers s ∧
  heap (release w data s) = heap (set_busy w false s).
Proof.
  unfold release. cbv zeta. destruct (boundTask _ _) as [[k t]|]; [|done].
  case_match.
  - match goal with
    | |- context [resolveTask t data ?X] =>
        destruct (resolveTask_shape t data X) as (_ & -> & -> & _ & -> & _ & -> & ->)
    end. done.
  - match goal with
    | |- context [rejectTask t ?e ?X] =>
        destruct (rejectTask_shape t e X) as (_ & -> & -> & _ & -> & _ & -> & ->)
    end. done.
Qed.

Lemma Core_step s e : Core s → Core (step s e).
Proof.
  intros Hc. destruct e as [|now rnd url cb|w data|w err|w|]; simpl.
  - by apply Core_initialize.
  - by apply Core_processQueue, Core_enqueue.
  - case_match; [by apply Core_handleWorkerMessage|done].
  - case_match; [by apply Core_handleWorkerError|done].
  - case_decide; [|done]. by apply Core_restartWorker, Core_with_timers.
  - by apply Core_terminate.
Qed.

Lemma Core_run evs : ∀ s, Core s → Core (run s evs).
Proof.
  induction evs as [|e evs IH]; intros s Hc; simpl; [done|].
  by apply IH, Core_step.
Qed.

Lemma Core_reachable requested hc evs : Core (run (newWorkerPool requested hc) evs).
Proof. apply Core_run, Core_new. Qed.

(** ** Nothing is left to drain after a step *)

Lemma drained_step s e : Core s → drained s → drained (step s e).
Proof.
  intros Hc Hd. destruct e as [|now rnd url cb|w data|w err|w|]; simpl.
  - destruct (initialize_sameTasks s (core_flag s Hc)) as (_ & Hq & _ & Hr & _).
    unfold drained. by rewrite Hq, Hr.
  - apply drained_processQueue; [apply Hc|]. simpl. rewrite length_app. simpl.
    destruct Hd as [-> | ->]; simpl; auto.
  - case_match; [|done]. unfold handleWorkerMessage. repeat case_match.
    + exact Hd.
    + apply drained_processQueue; [apply Core_markReady, Hc|]. simpl.
      destruct Hd as [-> | ->]; [left; simpl; lia|right]. by rewrite jsset_add_nil.
    + apply drained_processQueue; [apply Core_release, Hc|].
      destruct (release_frame w data s) as (Hq & Hr & _).
      rewrite Hq, Hr. destruct Hd as [-> | ->]; [left; simpl; lia|right].
      by rewrite jsset_add_nil.
    + unfold forward. destruct (boundTask _ s) as [[k t]|]; [|done].
      by destruct (task_onProgress t).
  - case_match; [|done]. rewrite handleWorkerError_closed by apply Hc.
    unfold drained. simpl.
    destruct (rejectAll_shape err (snd <$> boundTo w (activeTasks s))
      (with_readyWorkers (jsset_delete w (readyWorkers s)) (set_busy w false s)))
      as (_ & _ & -> & _ & -> & _).
    simpl. destruct Hd as [-> | ->]; auto.
  - case_decide; done.
  - left. apply terminate_tasks.
Qed.

Lemma drained_reachable requested hc evs :
  drained (run (newWorkerPool requested hc) evs).
Proof.
  assert (∀ evs s, Core s → drained s → drained (run s evs)) as H.
  { clear evs. induction evs as [|e evs IH]; intros s Hc Hd; simpl; [done|].
    apply IH; [by apply Core_step|by apply drained_step]. }
  apply H; [apply Core_new|by left].
Qed.

(** ** What a call of [processQueue] leaves untouched *)

Lemma processQueue_promises s : promises (processQueue s) = promises s.
Proof. apply processQueue_cases; done. Qed.

Lemma processQueue_log s :
  log (processQueue s)
  = log s ++ match taskQueue s, readyWorkers s with
             | t :: _, w :: _ => [PostMessage w (taskMsg (setWorker w t))]
             | _, _ => []
             end.
Proof.
  apply processQueue_cases.
  - intros [-> | ->]; [by rewrite app_nil_r|]. destruct (taskQueue s); by rewrite app_nil_r.
  - intros t rest w ws -> ->. done.
Qed.

Lemma processQueue_either s :
  (drained s ∧ processQueue s = s)
  ∨ ∃ t rest w ws, taskQueue s = t :: rest ∧ readyWorkers s = w :: ws
                   ∧ processQueue s = dispatchHead t rest w s.
Proof.
  destruct (taskQueue s) as [|t rest] eqn:Hq.
  { left. split; [by left|]. apply processQueue_idle. by left. }
  destruct (readyWorkers s) as [|w ws] eqn:Hr.
  { left. split; [by right|]. apply processQueue_idle. by right. }
  right. exists t, rest, w, ws. split_and!; try done. by eapply processQueue_dispatch.
Qed.

Lemma processQueue_workers s :
  workers (processQueue s) = workers s ∧ timers (processQueue s) = timers s ∧
  length (heap (processQueue s)) = length (heap s) ∧
  (∀ w, idOf w (processQueue s) = idOf w s).
Proof.
  destruct (processQueue_either s) as [[_ ->]|(t & rest & w & ws & _ & _ & ->)]; [done|].
  simpl. rewrite length_alter. do 3 (split; [done|]).
  intros w'. unfold idOf. simpl. rewrite list_lookup_alter.
  case_decide; [|done]. subst. by destruct (heap s !! _).
Qed.

Lemma isStr_eq v lit : isStr v lit = true → v = VStr lit.
Proof. destruct v; simpl; try done. by intros ->%bool_decide_eq_true. Qed.

Lemma settlements_app l1 l2 : settlements (l1 ++ l2) = settlements l1 ++ settlements l2.
Proof. apply filter_app. Qed.

Lemma dispatched_app l1 l2 : dispatched (l1 ++ l2) = dispatched l1 ++ dispatched l2.
Proof. apply omap_app. Qed.

(** ** C3: a second [initialize()] spawns a second generation *)

Lemma totalWorkers_getStats s : totalWorkers (getStats s) = length (workers s).
Proof. done. Qed.

(** C3.  The flag [isInitializing] is reset before [initialize] returns
    and the function never suspends, so the guard on it finds it false in
    every state a run can reach: each call of [initialize()] appends
    [maxWorkers] fresh workers to the list, and two calls on a new pool
    leave twice [min(requested, hardwareConcurrency || 4)] of them. *)
Theorem initialize_twice_spawns_two_generations :
  (∀ requested hc evs,
     let s := run (newWorkerPool requested hc) evs in
     isInitializing s = false
     ∧ totalWorkers (getStats (initialize s))
       = totalWorkers (getStats s) + maxWorkers s)
  ∧ (∀ requested hc,
       totalWorkers (getStats (initialize (initialize (newWorkerPool requested hc))))
       = 2 * Nat.min requested (hardwareDefault hc))
  ∧ workers (run (newWorkerPool 2 (Some 8)) [EInitialize; EInitialize])
    = [Some 0; Some 1; Some 2; Some 3].
Proof.
  split_and!.
  - intros requested hc evs s.
    pose proof (core_flag s (Core_reachable requested hc evs)) as Hf.
    split; [done|]. rewrite !totalWorkers_getStats, initialize_workers by done.
    by rewrite length_app, length_fmap, length_seq.
  - intros requested hc. rewrite totalWorkers_getStats.
    assert (isInitializing (initialize (newWorkerPool requested hc)) = false) as Hf
      by apply (Core_initialize _ (Core_new requested hc)).
    rewrite initialize_workers by done.
    rewrite initialize_workers by done.
    rewrite !length_app, !length_fmap, !length_seq.
    destruct (initialize_sameTasks (newWorkerPool requested hc) eq_refl) as (-> & _).
    simpl. lia.
  - reflexivity.
Qed.

(** ** C1: what the promise of a completed task resolves with *)

Lemma handleWorkerMessage_settled w data s :
  isStr (getField "status" data) "complete" = true
  ∨ isStr (getField "status" data) "error" = true →
  handleWorkerMessage w data s = processQueue (release w data s).
Proof.
  intros Hst. unfold handleWorkerMessage.
  destruct Hst as [Hst|Hst]; apply isStr_eq in Hst as Heq;
    destruct data; try done; simpl in *; rewrite Heq; done.
Qed.

Lemma release_bound w data s k t :
  findTaskIdByWorker w (activeTasks s) = Some k → k ≠ "" →
  jsmap_get k (activeTasks s) = Some t →
  release w data s
  = let s' := with_activeTasks (jsmap_delete k (activeTasks s))
                (with_readyWorkers (jsset_add w (readyWorkers s)) (set_busy w false s)) in
    if isStr (getField "status" data) "complete" then resolveTask t data s'
    else rejectTask t (newError (getField "error" data)) s'.
Proof.
  intros Hf Hk Hg. unfold release, boundTask. rewrite Hf. simpl.
  rewrite decide_False by done. by rewrite Hg.
Qed.

Lemma release_unbound w data s :
  findTaskIdByWorker w (activeTasks s) = None →
  release w data s
  = with_readyWorkers (jsset_add w (readyWorkers s)) (set_busy w false s).
Proof. intros Hf. unfold release. by rewrite Hf. Qed.

(** C1, as stated, fails: the promise of a completed task does not
    resolve with the record [{ width, height, imageData }].  One worker,
    one task, and the ['complete'] message of the worker script. *)
Lemma resolve_value_is_not_the_output_record :
  ¬ (∀ s w width height bytes k t,
       findTaskIdByWorker w (activeTasks s) = Some k → k ≠ "" →
       jsmap_get k (activeTasks s) = Some t →
       promises s !! task_promise t = Some Pending →
       promises (handleWorkerMessage w (WorkerScript.completeMsg width height bytes) s)
         !! task_promise t
       = Some (Fulfilled (WorkerScript.outputRecord width height bytes))).
Proof.
  intros H.
  specialize (H (run (newWorkerPool 1 None)
                   [EInitialize; EWorkerMessage 0 WorkerScript.readyMsg;
                    EProcessImage 7 "x1" "data:image/png;base64,AA" None])
                0 640%Z 480%Z [137%Z; 80%Z] "task_7_x1"
                (mkTask "task_7_x1" "data:image/png;base64,AA" 0 None (Some 0))).
  vm_compute in H. by specialize (H eq_refl ltac:(done) eq_refl eq_refl).
Qed.

(** C1, amended.  When a worker bound to a task with a pending promise
    delivers a message of status ['complete'], the promise is fulfilled
    with the whole message: for the message the worker script posts this is
    [{ status: 'complete', output: { width, height, imageData } }], and the
    record [{ width, height, imageData }] is its [output] property. *)
Theorem resolve_value_is_the_complete_message s w data k t :
  isStr (getField "status" data) "complete" = true →
  findTaskIdByWorker w (activeTasks s) = Some k → k ≠ "" →
  jsmap_get k (activeTasks s) = Some t →
  promises s !! task_promise t = Some Pending →
  let s' := handleWorkerMessage w data s in
  promises s' !! task_promise t = Some (Fulfilled data)
  ∧ settlements (log s') = settlements (log s) ++ [CallResolve (task_promise t) data]
  ∧ ∀ width height bytes,
      data = WorkerScript.completeMsg width height bytes →
      getField "output" data = WorkerScript.outputRecord width height bytes
      ∧ data ≠ WorkerScript.outputRecord width height bytes.
Proof.
  intros Hst Hf Hk Hg Hp s'. subst s'.
  rewrite handleWorkerMessage_settled by auto.
  rewrite processQueue_promises, processQueue_log.
  rewrite (release_bound w data s k t) by done. cbv zeta. rewrite Hst.
  split_and!.
  - by apply resolveTask_pending.
  - rewrite settlements_app, resolveTask_log, settlements_app. simpl log.
    rewrite <-app_assoc. f_equal.
    assert (∀ l, (∀ a, a ∈ l → isSettlement a = false) → settlements l = []) as Hnone.
    { intros l Hl. unfold settlements. induction l as [|a l IH]; [done|].
      rewrite filter_cons_False.
      - apply IH. intros a' Ha'. apply Hl. by apply list_elem_of_further.
      - rewrite (Hl a); [done|apply list_elem_of_here]. }
    rewrite (Hnone (match taskQueue _ with [] => _ | _ => _ end)).
    + by rewrite app_nil_r.
    + intros a. repeat case_match; rewrite ?elem_of_nil, ?list_elem_of_singleton;
        try done; by intros ->.
  - intros width height bytes ->. split; [done|]. by intros [=].
Qed.

Lemma resolve_value_is_the_complete_message_witness :
  let s := run (newWorkerPool 1 None)
             [EInitialize; EWorkerMessage 0 WorkerScript.readyMsg;
              EProcessImage 7 "x1" "data:image/png;base64,AA" None] in
  let data := WorkerScript.completeMsg 640 480 [137%Z; 80%Z] in
  promises (handleWorkerMessage 0 data s) !! 0 = Some (Fulfilled data).
Proof.
  intros s data.
  apply (resolve_value_is_the_complete_message s 0 data "task_7_x1"
           (mkTask "task_7_x1" "data:image/png;base64,AA" 0 None (Some 0)));
    [reflexivity|reflexivity|done|reflexivity|reflexivity].
Defined.

(** ** C10: an ['error'] message from a worker bound to no task *)

Lemma settlements_processQueue s :
  settlements (log (processQueue s)) = settlements (log s).
Proof.
  rewrite processQueue_log, settlements_app.
  destruct (taskQueue s) as [|t ?], (readyWorkers s) as [|w' ?]; by rewrite app_nil_r.
Qed.

(** C10.  A message of status ['error'] from a worker that no active task
    is bound to settles no promise and calls neither [resolve] nor
    [reject]; the worker is marked not busy and added to the ready set
    before the queue is drained.  So with an empty queue the worker ends up
    in the ready set, and the next submitted task is sent to it when it is
    the only ready worker; with a waiting task and no other ready worker
    the head of the queue is sent to it at once.  The message posted by
    the worker script when the pipeline cannot be built has that status. *)
Theorem unbound_error_marks_ready w data s :
  isStr (getField "status" data) "error" = true →
  findTaskIdByWorker w (activeTasks s) = None →
  let s1 := release w data s in
  let s' := handleWorkerMessage w data s in
  (s' = processQueue s1
   ∧ s1 = with_readyWorkers (jsset_add w (readyWorkers s)) (set_busy w false s))
  ∧ (promises s' = promises s ∧ settlements (log s') = settlements (log s))
  ∧ (w ∈ readyWorkers s1 ∧ (is_Some (heap s !! w) → busyOf w s1 = Some false))
  ∧ (taskQueue s = [] →
       s' = s1 ∧ w ∈ readyWorkers s'
       ∧ (readyWorkers s = [] →
          ∀ now rnd url cb,
            log (processImage now rnd url cb s')
            = log s ++ [PostMessage w (taskMsg (setWorker w
                (mkTask (taskIdOf now rnd) url (length (promises s)) cb None)))]))
  ∧ (∀ t rest, taskQueue s = t :: rest → readyWorkers s = [] →
       s' = dispatchHead t rest w s1
       ∧ log s' = log s ++ [PostMessage w (taskMsg (setWorker w t))])
  ∧ (∀ loaded message,
       isStr (getField "status" (WorkerScript.constructionError loaded message))
         "error" = true).
Proof.
  intros Hst Hf s1 s'. subst s1 s'.
  rewrite handleWorkerMessage_settled by auto.
  rewrite (release_unbound w data s Hf).
  set (s1 := with_readyWorkers _ _).
  split_and!; try done.
  - by rewrite processQueue_promises.
  - by rewrite settlements_processQueue.
  - simpl. apply jsset_add_elem.
  - intros [o Ho]. unfold busyOf.
    change (heap s1) with
      (alter (λ o, mkWorker (worker_id o) false (worker_terminated o)) w (heap s)).
    by rewrite list_lookup_alter_eq, Ho.
  - intros Hq. assert (processQueue s1 = s1) as Hidle
      by (apply processQueue_idle; by left).
    rewrite Hidle. split_and!; [done|apply jsset_add_elem|].
    intros Hr now rnd url cb. unfold processImage.
    rewrite (processQueue_dispatch _
               (mkTask (taskIdOf now rnd) url (length (promises s)) cb None) [] w []).
    + done.
    + simpl. by rewrite Hq.
    + simpl. rewrite Hr. apply jsset_add_nil.
  - intros t rest Hq Hr.
    assert (processQueue s1 = dispatchHead t rest w s1) as ->.
    { eapply processQueue_dispatch; [done|]. simpl. rewrite Hr. apply jsset_add_nil. }
    done.
Qed.

Lemma unbound_error_marks_ready_witness :
  let s := run (newWorkerPool 1 None) [EInitialize] in
  let data := WorkerScript.constructionError false "fetch failed" in
  readyWorkers (handleWorkerMessage 0 data s) = [0]
  ∧ promises (handleWorkerMessage 0 data s) = promises s.
Proof.
  intros s data.
  destruct (unbound_error_marks_ready 0 data s eq_refl eq_refl)
    as (_ & [Hp _] & _ & Hidle & _).
  split; [|exact Hp].
  destruct (Hidle eq_refl) as (-> & _). reflexivity.
Defined.

(** ** C5: the queue is first-in first-out *)

Lemma extendsQuietly_refl s : extendsQuietly s s.
Proof. exists []. by rewrite app_nil_r. Qed.

Lemma extendsQuietly_same_log s s' : log s' = log s → extendsQuietly s s'.
Proof. intros H. exists []. by rewrite app_nil_r. Qed.

Lemma extendsQuietly_trans s1 s2 s3 :
  extendsQuietly s1 s2 → extendsQuietly s2 s3 → extendsQuietly s1 s3.
Proof.
  intros (l1 & H1 & Hd1) (l2 & H2 & Hd2). exists (l1 ++ l2).
  rewrite H2, H1, <-app_assoc, dispatched_app, Hd1, Hd2. done.
Qed.

Lemma extendsQuietly_dispatched s s' :
  extendsQuietly s s' → dispatched (log s') = dispatched (log s).
Proof. intros (l & -> & Hl). by rewrite dispatched_app, Hl, app_nil_r. Qed.

Lemma rejectAll_quiet e ts s :
  extendsQuietly s (foldl (λ acc t, rejectTask t e acc) s ts).
Proof.
  eexists. split; [apply rejectAll_log|].
  induction ts as [|t ts IH]; [done|]. by rewrite fmap_cons.
Qed.

Lemma release_quiet w data s : extendsQuietly s (release w data s).
Proof.
  unfold release. cbv zeta. destruct (boundTask _ _) as [[k t]|];
    [|by apply extendsQuietly_same_log].
  case_match.
  - eexists [_]. split; [by rewrite resolveTask_log|done].
  - eexists [_]. split; [by rewrite rejectTask_log|done].
Qed.

Lemma forward_frame w data s :
  taskQueue (forward w data s) = taskQueue s ∧ extendsQuietly s (forward w data s).
Proof.
  unfold forward. destruct (boundTask _ s) as [[k t]|];
    [|split; [done|apply extendsQuietly_refl]].
  destruct (task_onProgress t); split; try done; try apply extendsQuietly_refl.
  by exists [CallProgress n data].
Qed.

Lemma handleWorkerError_frame w e s :
  NoDup (activeTasks s).*1 →
  taskQueue (handleWorkerError w e s) = taskQueue s
  ∧ workers (handleWorkerError w e s) = workers s
  ∧ extendsQuietly s (handleWorkerError w e s).
Proof.
  intros Hnd. rewrite handleWorkerError_closed by done.
  set (s2 := with_readyWorkers _ _).
  pose proof (rejectAll_shape e (snd <$> boundTo w (activeTasks s)) s2)
    as (_ & Hw & Hq & _).
  split_and!.
  - simpl. by rewrite Hq.
  - simpl. by rewrite Hw.
  - eapply (extendsQuietly_trans _ (foldl _ s2 _)).
    + apply (rejectAll_quiet e _ s2).
    + by eexists [_].
Qed.

Lemma spawn_quiet s n :
  dispatched ((λ w, PostMessage w initMsg) <$> seq (length (heap s)) n) = [].
Proof. generalize (length (heap s)). induction n as [|n IH]; intros a; [done|]. apply IH. Qed.

Lemma initialize_quiet s : isInitializing s = false → extendsQuietly s (initialize s).
Proof.
  intros Hf. rewrite initialize_unfold by done.
  exists ((λ w, PostMessage w initMsg) <$> seq (length (heap s)) (maxWorkers s)). split.
  - simpl. by rewrite spawn_log.
  - apply (spawn_quiet s).
Qed.

Lemma terminateAll_quiet ws : ∀ s s', terminateAll ws s = Some s' → extendsQuietly s s'.
Proof.
  intros s s' H. eexists. split; [by apply terminateAll_log|].
  clear H. induction ws as [|[w|] ws IH]; done.
Qed.

Lemma terminatedPrefix_quiet ws : ∀ s, extendsQuietly s (terminatedPrefix ws s).
Proof.
  induction ws as [|[w|] ws IH]; intros s; simpl; try apply extendsQuietly_refl.
  eapply extendsQuietly_trans; [|apply IH]. by eexists [_].
Qed.

Lemma terminate_quiet s : extendsQuietly s (terminate s).
Proof.
  unfold terminate.
  set (s1 := foldl _ s (taskQueue s)). set (s2 := with_taskQueue [] s1).
  set (s3 := foldl _ s2 _). set (s4 := with_activeTasks [] s3).
  assert (extendsQuietly s s4) as H4.
  { eapply (extendsQuietly_trans _ s1); [apply rejectAll_quiet|].
    apply (rejectAll_quiet terminatedError (snd <$> activeTasks s2) s2). }
  destruct (terminateAll (workers s4) s4) as [s5|] eqn:Ht.
  - apply terminateAll_quiet in Ht.
    eapply extendsQuietly_trans; [exact H4|]. exact Ht.
  - eapply extendsQuietly_trans; [exact H4|].
    eapply extendsQuietly_trans; [apply (terminatedPrefix_quiet (workers s4))|].
    by eexists [_].
Qed.

Lemma submitted_app evs1 evs2 :
  submitted (evs1 ++ evs2) = submitted evs1 ++ submitted evs2.
Proof. apply omap_app. Qed.

(** One call of [processQueue] moves at most the head of the queue, and
    that task is the one it dispatches. *)
Lemma processQueue_fifo s :
  ∃ moved, queuedIds s = moved ++ queuedIds (processQueue s)
           ∧ dispatched (log (processQueue s)) = dispatched (log s) ++ moved.
Proof.
  destruct (processQueue_either s) as [[_ ->]|(t & rest & w & ws & Hq & Hr & ->)].
  - exists []. by rewrite app_nil_r.
  - exists [task_id t]. unfold queuedIds. rewrite Hq. split; [done|].
    simpl. by rewrite dispatched_app.
Qed.

Lemma step_fifo s e :
  Core s →
  ∃ moved d,
    queuedIds s ++ submitted [e] = moved ++ queuedIds (step s e)
    ∧ dispatched (log (step s e)) = dispatched (log s) ++ d
    ∧ d `sublist_of` moved.
Proof.
  intros Hc.
  assert (∀ s', taskQueue s' = taskQueue s → extendsQuietly s s' →
            ∃ moved d, queuedIds s ++ [] = moved ++ queuedIds s'
                       ∧ dispatched (log s') = dispatched (log s) ++ d
                       ∧ d `sublist_of` moved) as Hquiet.
  { intros s' Hq Hl. exists [], []. unfold queuedIds. rewrite Hq, !app_nil_r.
    split_and!; [done| |done]. by apply extendsQuietly_dispatched. }
  assert (∀ s1 new, queuedIds s1 = queuedIds s ++ new → extendsQuietly s s1 →
            ∃ moved d, queuedIds s ++ new = moved ++ queuedIds (processQueue s1)
                       ∧ dispatched (log (processQueue s1)) = dispatched (log s) ++ d
                       ∧ d `sublist_of` moved) as Hdrain.
  { intros s1 new Hq Hl. destruct (processQueue_fifo s1) as (moved & Hm & Hd).
    exists moved, moved. rewrite <-Hq, Hd, (extendsQuietly_dispatched s s1 Hl). done. }
  destruct e as [|now rnd url cb|w data|w err|w|]; simpl step; simpl submitted.
  - apply Hquiet; [apply initialize_sameTasks, Hc|apply initialize_quiet, Hc].
  - apply Hdrain; [|by apply extendsQuietly_same_log].
    unfold queuedIds. simpl. by rewrite fmap_app.
  - case_match; [|by apply Hquiet; [|apply extendsQuietly_refl]].
    unfold handleWorkerMessage. repeat case_match.
    + apply Hquiet; [done|]. exists [ThrowTypeError]. by split.
    + apply Hdrain; [by rewrite app_nil_r|by apply extendsQuietly_same_log].
    + apply Hdrain; [|apply release_quiet].
      unfold queuedIds. destruct (release_frame w data s) as (-> & _).
      by rewrite app_nil_r.
    + apply Hquiet; apply forward_frame.
  - case_match; [|by apply Hquiet; [|apply extendsQuietly_refl]].
    apply Hquiet; apply handleWorkerError_frame, Hc.
  - case_decide; [|by apply Hquiet; [|apply extendsQuietly_refl]].
    apply Hquiet; [done|]. eexists [_; _].
    split; [simpl; rewrite <-app_assoc; reflexivity|done].
  - exists (queuedIds s), []. destruct (terminate_tasks s) as (Hq & _).
    unfold queuedIds at 3. rewrite Hq, !app_nil_r.
    split_and!; [done| |apply sublist_nil_l].
    apply extendsQuietly_dispatched, terminate_quiet.
Qed.

(** C5.  Along every run the ids of the waiting tasks are a suffix of the
    ids submitted so far, in submission order, and the tasks dispatched so
    far, in order of dispatch, form a subsequence of the submissions that
    come before that suffix: the queue keeps submission order and a task is
    only dispatched from its head.  With two ready workers and five tasks,
    the first two are dispatched on submission and the other three wait
    in order; each message of a worker that frees it dispatches the next
    one: the third, then the fourth, then the fifth. *)
Theorem queue_is_fifo :
  (∀ requested hc evs,
     let s := run (newWorkerPool requested hc) evs in
     ∃ gone, submitted evs = gone ++ queuedIds s
             ∧ dispatched (log s) `sublist_of` gone)
  ∧ (∀ s t rest w ws, taskQueue s = t :: rest → readyWorkers s = w :: ws →
       taskQueue (processQueue s) = rest
       ∧ dispatched (log (processQueue s)) = dispatched (log s) ++ [task_id t])
  ∧ (let submit5 :=
       [EInitialize; EWorkerMessage 0 WorkerScript.readyMsg;
        EWorkerMessage 1 WorkerScript.readyMsg;
        EProcessImage 1 "a" "u1" None; EProcessImage 2 "b" "u2" None;
        EProcessImage 3 "c" "u3" None; EProcessImage 4 "d" "u4" None;
        EProcessImage 5 "e" "u5" None] in
     let done := WorkerScript.completeMsg 1 1 [] in
     let s5 := run (newWorkerPool 2 None) submit5 in
     let s6 := step s5 (EWorkerMessage 0 done) in
     let s7 := step s6 (EWorkerMessage 1 done) in
     let s8 := step s7 (EWorkerMessage 1 done) in
     (dispatched (log s5) = ["task_1_a"; "task_2_b"]
      ∧ queuedIds s5 = ["task_3_c"; "task_4_d"; "task_5_e"])
     ∧ (dispatched (log s6) = ["task_1_a"; "task_2_b"; "task_3_c"]
        ∧ queuedIds s6 = ["task_4_d"; "task_5_e"])
     ∧ (dispatched (log s7) = ["task_1_a"; "task_2_b"; "task_3_c"; "task_4_d"]
        ∧ queuedIds s7 = ["task_5_e"])
     ∧ (dispatched (log s8)
        = ["task_1_a"; "task_2_b"; "task_3_c"; "task_4_d"; "task_5_e"]
        ∧ queuedIds s8 = [])).
Proof.
  split_and!.
  - intros requested hc evs.
    induction evs as [|e evs IH] using rev_ind; intros s.
    { exists []. split; [done|apply sublist_nil_l]. }
    subst s. unfold run in *. rewrite foldl_app. simpl foldl.
    set (s := foldl step (newWorkerPool requested hc) evs) in *.
    destruct IH as (gone & Hsub & Hdisp).
    destruct (step_fifo s e) as (moved & d & Hq & Hd & Hsl);
      [apply Core_reachable|].
    exists (gone ++ moved). rewrite submitted_app, Hsub, <-!app_assoc.
    split; [by f_equal|].
    rewrite Hd. by apply sublist_app.
  - intros s t rest w ws Hq Hr.
    rewrite (processQueue_dispatch s t rest w ws Hq Hr). split; [done|].
    simpl. by rewrite dispatched_app.
  - vm_compute. done.
Qed.

(** ** C2: draining the queue *)

Lemma drainLoop_drained n s : drained s → drainLoop n s = s.
Proof.
  intros Hd. destruct n as [|n]; [done|]. simpl.
  destruct Hd as [-> | ->]; [done|]. by destruct (taskQueue s).
Qed.

(** The loop stops only when no task waits or no worker is ready. *)
Lemma drainLoop_exit n : ∀ s,
  length (taskQueue s) ≤ n → NoDup (readyWorkers s) → drained (drainLoop n s).
Proof.
  induction n as [|n IH]; intros s Hlen Hnd; simpl.
  { left. destruct (taskQueue s); [done|simpl in Hlen; lia]. }
  destruct (taskQueue s) as [|t rest] eqn:Hq; [by left|].
  destruct (readyWorkers s) as [|w ws] eqn:Hr; [by right|].
  apply IH.
  - simpl. simpl in Hlen. lia.
  - simpl. by apply jsset_delete_NoDup.
Qed.

Lemma drainLoop_S n s t rest w ws :
  taskQueue s = t :: rest → readyWorkers s = w :: ws →
  drainLoop (S n) s = drainLoop n (dispatchHead t rest w s).
Proof. intros Hq Hr. unfold dispatchHead. cbn [drainLoop]. by rewrite Hq, Hr. Qed.

Lemma processQueue_is_drainQueue s :
  NoDup (readyWorkers s) →
  length (taskQueue s) ≤ 1 ∨ length (readyWorkers s) ≤ 1 →
  processQueue s = drainQueue s.
Proof.
  intros Hnd Hone. unfold drainQueue.
  destruct (processQueue_either s) as [[Hd ->]|(t & rest & w & ws & Hq & Hr & ->)].
  { by rewrite drainLoop_drained. }
  rewrite Hq. cbn [length]. rewrite (drainLoop_S _ s t rest w ws) by done.
  rewrite drainLoop_drained; [done|].
  unfold drained. simpl. rewrite Hr in Hnd |- *. rewrite jsset_delete_head by done.
  rewrite Hq, Hr in Hone. simpl in Hone.
  destruct Hone; [left; destruct rest|right; destruct ws]; simpl in *; done || lia.
Qed.

Lemma submit_step x s :
  Core s → drained s →
  let s1 := submit s x in
  Core s1 ∧ drained s1
  ∧ ((readyWorkers s = [] ∧ queuedIds s1 = queuedIds s ++ [submissionId x]
      ∧ log s1 = log s ∧ readyWorkers s1 = [])
     ∨ (∃ w ws, taskQueue s = [] ∧ readyWorkers s = w :: ws ∧ queuedIds s1 = []
                ∧ dispatched (log s1) = dispatched (log s) ++ [submissionId x]
                ∧ readyWorkers s1 = ws)).
Proof.
  intros Hc Hd. destruct x as [[[now rnd] url] cb]. simpl.
  split_and!.
  - by apply Core_processQueue, Core_enqueue.
  - by apply (drained_step s (EProcessImage now rnd url cb)).
  - unfold processImage. destruct (readyWorkers s) as [|w ws] eqn:Hr.
    + left. rewrite processQueue_idle by (by right).
      unfold queuedIds. simpl. rewrite fmap_app. by split_and!.
    + right. destruct Hd as [Hq|?]; [|congruence]. exists w, ws.
      rewrite (processQueue_dispatch _
                 (mkTask (taskIdOf now rnd) url (length (promises s)) cb None) [] w ws);
        [|simpl; by rewrite Hq|done].
      split_and!; try done.
      * simpl. by rewrite dispatched_app.
      * simpl. rewrite Hr. apply jsset_delete_head. rewrite <-Hr. apply Hc.
Qed.

Lemma submit_many subs : ∀ s,
  Core s → drained s →
  let k := length (readyWorkers s) in
  let s' := foldl submit s subs in
  let ids := queuedIds s ++ (submissionId <$> subs) in
  queuedIds s' = drop k ids
  ∧ dispatched (log s') = dispatched (log s) ++ take k ids
  ∧ length (readyWorkers s') = k - length subs.
Proof.
  induction subs as [|x subs IH]; intros s Hc Hd; simpl.
  - rewrite !app_nil_r, Nat.sub_0_r.
    destruct Hd as [Hq | ->]; [|by rewrite app_nil_r].
    unfold queuedIds. rewrite Hq. simpl. rewrite drop_nil, take_nil, app_nil_r. done.
  - destruct (submit_step x s Hc Hd) as (Hc1 & Hd1 & Hcase).
    specialize (IH (submit s x) Hc1 Hd1). simpl in IH.
    destruct IH as (IHq & IHd & IHr).
    destruct Hcase as [(Hr & Hq1 & Hl1 & Hr1)|(w & ws & Hq & Hr & Hq1 & Hl1 & Hr1)].
    + rewrite IHq, IHd, IHr, Hr1, Hq1, Hl1, Hr, <-app_assoc. done.
    + assert (queuedIds s = []) as Hq0 by (unfold queuedIds; by rewrite Hq).
      rewrite IHq, IHd, IHr, Hr1, Hq1, Hl1, Hr, Hq0. simpl. by rewrite <-app_assoc.
Qed.

(** C2.  In every state a run can reach, each call of [processQueue] that
    a handler makes (after a task is pushed, after a worker is marked
    ready, after a worker is released) does what the drain loop of the
    specification does from the same state, and the loop stops only when
    no task waits or no worker is ready; so after every event no task
    waits while a worker is ready.  With [k] ready workers, submitting
    tasks dispatches the first [k] of them on submission and queues the
    others in order; without a ready worker [processQueue] changes
    nothing. *)
Theorem drain_dispatches_while_ready :
  (∀ requested hc evs,
     let s := run (newWorkerPool requested hc) evs in
     (∀ now rnd url cb,
        processQueue (enqueue now rnd url cb s) = drainQueue (enqueue now rnd url cb s))
     ∧ (∀ w, processQueue (markReady w s) = drainQueue (markReady w s))
     ∧ (∀ w data, processQueue (release w data s) = drainQueue (release w data s))
     ∧ drained s)
  ∧ (∀ s, NoDup (readyWorkers s) → drained (drainQueue s))
  ∧ (∀ requested hc evs subs,
       let s := run (newWorkerPool requested hc) evs in
       let k := length (readyWorkers s) in
       let s' := foldl submit s subs in
       let ids := submissionId <$> subs in
       (queuedIds s' = drop k (queuedIds s ++ ids)
        ∧ dispatched (log s') = dispatched (log s) ++ take k (queuedIds s ++ ids))
       ∧ (taskQueue s = [] → k < length subs →
          dispatched (log s') = dispatched (log s) ++ take k ids
          ∧ length (take k ids) = k
          ∧ queuedIds s' = drop k ids
          ∧ length (taskQueue s') = length subs - k
          ∧ readyWorkers s' = []))
  ∧ (∀ s, readyWorkers s = [] → processQueue s = s).
Proof.
  split_and!.
  - intros requested hc evs s.
    pose proof (Core_reachable requested hc evs) as Hc. fold s in Hc.
    pose proof (drained_reachable requested hc evs) as Hd. fold s in Hd.
    split_and!; [| | |done].
    + intros now rnd url cb. apply processQueue_is_drainQueue; [apply Hc|].
      simpl. rewrite length_app. simpl. destruct Hd as [-> | ->]; simpl; auto.
    + intros w. apply processQueue_is_drainQueue; [apply Core_markReady, Hc|].
      simpl. destruct Hd as [-> | ->]; [left; simpl; lia|right].
      by rewrite jsset_add_nil.
    + intros w data. apply processQueue_is_drainQueue; [apply Core_release, Hc|].
      destruct (release_frame w data s) as (-> & -> & _).
      destruct Hd as [-> | ->]; [left; simpl; lia|right]. by rewrite jsset_add_nil.
  - intros s Hnd. by apply drainLoop_exit.
  - intros requested hc evs subs s k s' ids.
    pose proof (Core_reachable requested hc evs) as Hc. fold s in Hc.
    pose proof (drained_reachable requested hc evs) as Hd. fold s in Hd.
    destruct (submit_many subs s Hc Hd) as (Hq & Hl & Hr).
    fold k s' ids in Hq, Hl, Hr. split; [done|].
    intros Hempty Hlt. unfold queuedIds at 2 in Hq. unfold queuedIds at 1 in Hl.
    rewrite Hempty in Hq, Hl. simpl in Hq, Hl.
    assert (length ids = length subs) as Hids by (subst ids; apply length_fmap).
    split_and!; try done.
    + rewrite length_take. lia.
    + rewrite <-(length_fmap task_id). fold (queuedIds s'). rewrite Hq, length_drop. lia.
    + apply length_zero_iff_nil. lia.
  - intros s Hr. apply processQueue_idle. by right.
Qed.

Lemma drain_dispatches_while_ready_witness :
  let s := run (newWorkerPool 2 None)
             [EInitialize; EWorkerMessage 0 WorkerScript.readyMsg;
              EWorkerMessage 1 WorkerScript.readyMsg] in
  let subs : list Submission :=
    [(1%N, "a", "u1", None); (2%N, "b", "u2", None); (3%N, "c", "u3", None)] in
  dispatched (log (foldl submit s subs)) = ["task_1_a"; "task_2_b"]
  ∧ queuedIds (foldl submit s subs) = ["task_3_c"].
Proof.
  intros s subs.
  destruct drain_dispatches_while_ready as (_ & _ & Hsub & _).
  destruct (Hsub 2 None
              [EInitialize; EWorkerMessage 0 WorkerScript.readyMsg;
               EWorkerMessage 1 WorkerScript.readyMsg] subs)
    as (_ & Hmany).
  destruct (Hmany eq_refl ltac:(vm_compute; lia)) as (Hd & _ & Hq & _).
  split; [exact Hd|exact Hq].
Defined.

(** ** C6: [terminate()] *)

Lemma rejectTask_ext t e s s' :
  promises s' = promises s → log s' = log s →
  promises (rejectTask t e s') = promises (rejectTask t e s)
  ∧ log (rejectTask t e s') = log (rejectTask t e s).
Proof.
  intros Hp Hl. rewrite !rejectTask_log, Hl. split; [|done].
  unfold rejectTask, settle. simpl. rewrite Hp.
  destruct (promises s !! task_promise t) as [[]|]; simpl; by rewrite ?Hp.
Qed.

Lemma rejectAll_ext e ts : ∀ s s',
  promises s' = promises s → log s' = log s →
  promises (foldl (λ acc t, rejectTask t e acc) s' ts)
  = promises (foldl (λ acc t, rejectTask t e acc) s ts).
Proof.
  induction ts as [|t ts IH]; intros s s' Hp Hl; simpl; [done|].
  destruct (rejectTask_ext t e s s' Hp Hl). by apply IH.
Qed.

Lemma settlements_rejects e (ts : list Task) :
  settlements ((λ t, CallReject (task_promise t) e) <$> ts)
  = (λ t, CallReject (task_promise t) e) <$> ts.
Proof.
  unfold settlements. induction ts as [|t ts IH]; [done|].
  rewrite fmap_cons, filter_cons_True by done. by rewrite IH.
Qed.

Lemma settlements_terminations (ws : list (option nat)) :
  settlements (omap (λ o, TerminateWorker <$> o) ws) = [].
Proof. induction ws as [|[w|] ws IH]; done. Qed.

Lemma live_outstanding s :
  task_promise <$> (taskQueue s ++ (snd <$> activeTasks s)) = live s.
Proof.
  unfold live, queuedPromises, activePromises.
  by rewrite fmap_app, <-list_fmap_compose.
Qed.

(** [terminate] on a worker list without holes, step by step. *)
Lemma terminate_dense s :
  Forall is_Some (workers s) →
  let outstanding := taskQueue s ++ (snd <$> activeTasks s) in
  taskQueue (terminate s) = [] ∧ activeTasks (terminate s) = []
  ∧ workers (terminate s) = [] ∧ readyWorkers (terminate s) = []
  ∧ promises (terminate s)
    = promises (foldl (λ acc t, rejectTask t terminatedError acc) s outstanding)
  ∧ log (terminate s)
    = log s ++ ((λ t, CallReject (task_promise t) terminatedError) <$> outstanding)
        ++ omap (λ o, TerminateWorker <$> o) (workers s).
Proof.
  intros Hdense outstanding. destruct (terminate_tasks s) as (Hq & Ha & _).
  split; [done|]. split; [done|]. clear Hq Ha.
  unfold terminate.
  set (s1 := foldl _ s (taskQueue s)). set (s2 := with_taskQueue [] s1).
  set (s3 := foldl _ s2 _). set (s4 := with_activeTasks [] s3).
  pose proof (rejectAll_shape terminatedError (taskQueue s) s)
    as (_ & Hw1 & _ & Ha1 & _).
  pose proof (rejectAll_shape terminatedError (snd <$> activeTasks s2) s2)
    as (_ & Hw3 & _).
  fold s1 in Hw1, Ha1. fold s3 in Hw3.
  assert (workers s4 = workers s) as Hw4 by (simpl; rewrite Hw3; simpl; done).
  assert (activeTasks s2 = activeTasks s) as Ha2 by done.
  destruct (terminateAll_dense (workers s4) s4) as [s5 Ht]; [by rewrite Hw4|].
  rewrite Ht. simpl.
  destruct (terminateAll_sameTasks _ _ _ Ht) as (_ & _ & _ & _ & _ & Hp5 & _).
  rewrite (terminateAll_log _ _ _ Ht), Hp5, Hw4. simpl.
  split; [done|]. split; [done|].
  subst outstanding. rewrite foldl_app. fold s1.
  subst s3. rewrite Ha2. split.
  - by apply rejectAll_ext.
  - rewrite rejectAll_log. simpl. subst s1. rewrite rejectAll_log.
    by rewrite fmap_app, <-!app_assoc.
Qed.

(** C6.  In a state reached by any run in which the worker list has no
    hole, [terminate()] calls [reject] with the pool-terminated error
    once for each queued task and once for each active task, on promises
    that are pairwise distinct and were all pending, so each of them
    becomes rejected with that error and no other promise changes; the
    queue, the active map, the worker list and the ready set are empty
    afterwards. *)
Theorem terminate_rejects_everything requested hc evs :
  let s := run (newWorkerPool requested hc) evs in
  Forall is_Some (workers s) →
  let s' := terminate s in
  let outstanding := taskQueue s ++ (snd <$> activeTasks s) in
  (taskQueue s' = [] ∧ activeTasks s' = [] ∧ workers s' = [] ∧ readyWorkers s' = [])
  ∧ settlements (log s')
    = settlements (log s)
        ++ ((λ t, CallReject (task_promise t) terminatedError) <$> outstanding)
  ∧ NoDup (task_promise <$> outstanding)
  ∧ (∀ t, t ∈ outstanding →
       promises s !! task_promise t = Some Pending
       ∧ promises s' !! task_promise t = Some (Rejected terminatedError))
  ∧ (∀ p, p ∉ task_promise <$> outstanding → promises s' !! p = promises s !! p).
Proof.
  intros s Hdense s' outstanding.
  pose proof (Core_reachable requested hc evs) as Hc. fold s in Hc.
  destruct (terminate_dense s Hdense) as (Hq & Ha & Hw & Hr & Hp & Hl).
  fold s' outstanding in Hq, Ha, Hw, Hr, Hp, Hl.
  assert (NoDup (task_promise <$> outstanding)) as Hnd.
  { subst outstanding. rewrite live_outstanding. apply Hc. }
  split_and!; try done.
  - rewrite Hl, !settlements_app, settlements_rejects, settlements_terminations.
    by rewrite app_nil_r.
  - intros t Ht.
    assert (promises s !! task_promise t = Some Pending) as Hpend.
    { apply (core_pending s Hc). subst outstanding. rewrite <-live_outstanding.
      by apply list_elem_of_fmap_2. }
    split; [done|]. rewrite Hp. by apply rejectAll_pending.
  - intros p Hp'. rewrite Hp. by apply rejectAll_other.
Qed.

Lemma terminate_rejects_everything_witness :
  let s := run (newWorkerPool 2 None)
             [EInitialize; EWorkerMessage 0 WorkerScript.readyMsg;
              EProcessImage 1 "a" "u1" None; EProcessImage 2 "b" "u2" None] in
  promises s = [Pending; Pending]
  ∧ promises (terminate s) = [Rejected terminatedError; Rejected terminatedError]
  ∧ settlements (log (terminate s))
    = [CallReject 1 terminatedError; CallReject 0 terminatedError]
  ∧ taskQueue (terminate s) = [] ∧ activeTasks (terminate s) = [].
Proof.
  intros s.
  assert (Forall is_Some (workers s)) as Hdense
    by (repeat constructor; by eexists).
  destruct (terminate_rejects_everything 2 None
              [EInitialize; EWorkerMessage 0 WorkerScript.readyMsg;
               EProcessImage 1 "a" "u1" None; EProcessImage 2 "b" "u2" None] Hdense)
    as ((Hq & Ha & _) & _).
  split_and!; [reflexivity|reflexivity|reflexivity|exact Hq|exact Ha].
Defined.

(** ** C7: a worker fault and the restart that follows *)

Lemma sameUnits_refl s : sameUnits s s.
Proof. by repeat split. Qed.

Lemma sameUnits_trans s1 s2 s3 : sameUnits s1 s2 → sameUnits s2 s3 → sameUnits s1 s3.
Proof.
  intros (Hw1 & Hh1 & Hi1 & Ht1) (Hw2 & Hh2 & Hi2 & Ht2).
  split; [congruence|]. split; [congruence|]. split.
  - intros w. by rewrite Hi2, Hi1.
  - intros w Hw. by apply Ht2, Ht1.
Qed.

Lemma sameUnits_alter f w' s s' :
  (∀ o, worker_id (f o) = worker_id o) →
  workers s' = workers s → heap s' = alter f w' (heap s) →
  (∀ w, w ∈ timers s → w ∈ timers s') →
  sameUnits s s'.
Proof.
  intros Hf Hw Hh Ht. split; [done|]. split; [|split; [|done]].
  - by rewrite Hh, length_alter.
  - intros w. unfold idOf. rewrite Hh, list_lookup_alter.
    case_decide; [|done]. subst. destruct (heap s !! _); simpl; [apply Hf|done].
Qed.

Lemma sameUnits_same s s' :
  workers s' = workers s → heap s' = heap s → timers s' = timers s → sameUnits s s'.
Proof.
  intros Hw Hh Ht. split; [done|]. split; [congruence|]. split.
  - intros w. unfold idOf. by rewrite Hh.
  - intros w. by rewrite Ht.
Qed.

Lemma processQueue_sameUnits s : sameUnits s (processQueue s).
Proof.
  destruct (processQueue_workers s) as (Hw & Ht & Hh & Hi).
  split; [done|]. split; [done|]. split; [done|]. intros w. by rewrite Ht.
Qed.

Lemma handleWorkerError_sameUnits w e s :
  NoDup (activeTasks s).*1 → sameUnits s (handleWorkerError w e s).
Proof.
  intros Hnd. rewrite handleWorkerError_closed by done.
  set (s2 := with_readyWorkers _ _).
  pose proof (rejectAll_shape e (snd <$> boundTo w (activeTasks s)) s2)
    as (_ & Hw & _ & _ & _ & _ & Hh & _).
  apply (sameUnits_alter (λ o, mkWorker (worker_id o) false (worker_terminated o)) w).
  - by intros o.
  - simpl. by rewrite Hw.
  - simpl. by rewrite Hh.
  - intros w' Hin. simpl. apply elem_of_app. by left.
Qed.

Lemma keepsWorkers_step s e :
  Core s → keepsWorkers e = true → sameUnits s (step s e).
Proof.
  intros Hc Hk. destruct e as [|now rnd url cb|w data|w err|w|]; try done; simpl.
  - eapply sameUnits_trans; [|apply processQueue_sameUnits]. by apply sameUnits_same.
  - case_match; [|apply sameUnits_refl]. unfold handleWorkerMessage.
    repeat case_match.
    + by apply sameUnits_same.
    + eapply sameUnits_trans; [|apply processQueue_sameUnits]. by apply sameUnits_same.
    + eapply sameUnits_trans; [|apply processQueue_sameUnits].
      destruct (release_frame w data s) as (_ & _ & Hw & Ht & Hh).
      apply (sameUnits_alter (λ o, mkWorker (worker_id o) false (worker_terminated o)) w);
        [by intros o|done|exact Hh|].
      intros w'. by rewrite Ht.
    + unfold forward. destruct (boundTask _ s) as [[k t]|]; [|apply sameUnits_refl].
      destruct (task_onProgress t); [by apply sameUnits_same|apply sameUnits_refl].
  - case_match; [|apply sameUnits_refl]. apply handleWorkerError_sameUnits, Hc.
Qed.

Lemma keepsWorkers_run mid : ∀ s,
  Core s → forallb keepsWorkers mid = true → sameUnits s (run s mid).
Proof.
  induction mid as [|e mid IH]; intros s Hc Hk; simpl; [apply sameUnits_refl|].
  simpl in Hk. apply andb_prop in Hk as [He Hmid].
  eapply sameUnits_trans; [by apply keepsWorkers_step|].
  apply IH; [by apply Core_step|done].
Qed.

Lemma restartWorker_spec w s o :
  heap s !! w = Some o →
  workers (restartWorker w s) = array_set (worker_id o) (length (heap s)) (workers s)
  ∧ heap (restartWorker w s)
    = alter (λ o, mkWorker (worker_id o) (worker_busy o) true) w (heap s)
        ++ [mkWorker (worker_id o) false false]
  ∧ log (restartWorker w s)
    = log s ++ [TerminateWorker w; PostMessage (length (heap s)) initMsg].
Proof.
  intros Ho.
  assert (w < length (heap s)) as Hlt by (by eapply lookup_lt_Some).
  unfold restartWorker, terminateWorker, idOf. simpl.
  rewrite !length_alter.
  rewrite lookup_app_l by (by rewrite length_alter).
  rewrite list_lookup_alter_eq, Ho. simpl.
  by rewrite <-app_assoc.
Qed.

Lemma settlements_quiet_tail l a :
  isSettlement a = false → settlements (l ++ [a]) = settlements l.
Proof.
  intros Ha. rewrite settlements_app. unfold settlements at 2.
  rewrite filter_cons_False by (by rewrite Ha). by rewrite app_nil_r.
Qed.

(** What [handleWorkerError] and, after any events that keep the
    workers, [restartWorker] do for a worker [w] whose listeners run. *)
Lemma fault_restart_frame requested hc evs w err mid :
  let s := run (newWorkerPool requested hc) evs in
  listening w s = true →
  forallb keepsWorkers mid = true →
  let s1 := step s (EWorkerError w err) in
  let s2 := run s1 mid in
  let s3 := step s2 (ERestartTimer w) in
  let new := length (heap s2) in
  let bound := snd <$> boundTo w (activeTasks s) in
  ((w ∉ readyWorkers s1) ∧ busyOf w s1 = Some false
   ∧ heap s1 = alter (λ o, mkWorker (worker_id o) false (worker_terminated o)) w (heap s)
   ∧ readyWorkers s1 = jsset_delete w (readyWorkers s))
  ∧ (settlements (log s1)
     = settlements (log s) ++ ((λ t, CallReject (task_promise t) err) <$> bound)
     ∧ (∀ t, t ∈ bound →
          promises s !! task_promise t = Some Pending
          ∧ promises s1 !! task_promise t = Some (Rejected err))
     ∧ (∀ p, p ∉ task_promise <$> bound → promises s1 !! p = promises s !! p)
     ∧ activeTasks s1 = notBoundTo w (activeTasks s))
  ∧ (taskQueue s1 = taskQueue s
     ∧ totalWorkers (getStats s1) = totalWorkers (getStats s)
     ∧ last (log s1) = Some (SetTimeout w restartDelay))
  ∧ (workers s3 = array_set (idOf w s) new (workers s)
     ∧ heap s2 !! new = None
     ∧ heap s3 = alter (λ o, mkWorker (worker_id o) (worker_busy o) true) w (heap s2)
                   ++ [mkWorker (idOf w s) false false]
     ∧ listening w s3 = false
     ∧ log s3 = log s2 ++ [TerminateWorker w; PostMessage new initMsg]).
Proof.
  intros s Hlisten Hmid s1 s2 s3 new bound.
  pose proof (Core_reachable requested hc evs) as Hc. fold s in Hc.
  assert (s1 = handleWorkerError w err s) as Hs1
    by (subst s1; simpl; by rewrite Hlisten).
  assert (∃ o, heap s !! w = Some o) as [o Ho].
  { unfold listening in Hlisten. destruct (heap s !! w); [by eexists|done]. }
  set (s0 := with_readyWorkers (jsset_delete w (readyWorkers s)) (set_busy w false s)).
  pose proof (rejectAll_shape err bound s0)
    as (_ & Hw0 & Hq0 & _ & Hr0 & _ & Hh0 & _).
  assert (s1 = emit (SetTimeout w restartDelay)
                 (with_timers (timers s ++ [w])
                    (with_activeTasks (notBoundTo w (activeTasks s))
                       (foldl (λ acc t, rejectTask t err acc) s0 bound)))) as Hs1'.
  { rewrite Hs1. apply handleWorkerError_closed, Hc. }
  assert (NoDup (task_promise <$> bound)) as Hnd.
  { subst bound. rewrite <-list_fmap_compose.
    eapply sublist_NoDup; [|apply fmap_sublist, sublist_filter].
    pose proof (core_live s Hc) as Hl. by apply NoDup_app in Hl as (_ & _ & Hl). }
  assert (Core s1) as Hc1 by (rewrite Hs1; by apply Core_handleWorkerError).
  pose proof (keepsWorkers_run mid s1 Hc1 Hmid) as (Hw2 & Hh2 & Hi2 & Ht2).
  fold s2 in Hw2, Hh2, Hi2, Ht2.
  pose proof (handleWorkerError_sameUnits w err s (core_keys s Hc))
    as (Hw1 & Hh1 & Hi1 & Ht1).
  rewrite <-Hs1 in Hw1, Hh1, Hi1, Ht1.
  assert (w ∈ timers s2) as Htimer.
  { apply Ht2. rewrite Hs1'. simpl. apply elem_of_app. right. apply list_elem_of_here. }
  assert (idOf w s2 = idOf w s) as Hid by (by rewrite Hi2, Hi1).
  assert (w < length (heap s2)) as Hlt.
  { rewrite Hh2, Hh1. by eapply lookup_lt_Some. }
  destruct (lookup_lt_is_Some_2 (heap s2) w Hlt) as [o2 Ho2].
  assert (worker_id o2 = idOf w s) as Hid2.
  { rewrite <-Hid. unfold idOf. by rewrite Ho2. }
  assert (s3 = restartWorker w (with_timers (remove_first w (timers s2)) s2)) as Hs3
    by (subst s3; simpl; by rewrite decide_True).
  destruct (restartWorker_spec w (with_timers (remove_first w (timers s2)) s2) o2 Ho2)
    as (Hs3w & Hs3h & Hs3l).
  rewrite <-Hs3 in Hs3w, Hs3h, Hs3l. rewrite Hid2 in Hs3w, Hs3h.
  change (heap (with_timers (remove_first w (timers s2)) s2)) with (heap s2)
    in Hs3w, Hs3h, Hs3l.
  change (workers (with_timers (remove_first w (timers s2)) s2)) with (workers s2)
    in Hs3w.
  change (log (with_timers (remove_first w (timers s2)) s2)) with (log s2) in Hs3l.
  fold new in Hs3w, Hs3l.
  split; [|split; [|split]].
  - split; [|split; [|split]].
    + rewrite Hs1'. simpl. rewrite Hr0. simpl. apply jsset_delete_not_elem.
    + rewrite Hs1'. unfold busyOf. simpl. rewrite Hh0. simpl.
      by rewrite list_lookup_alter_eq, Ho.
    + rewrite Hs1'. simpl. by rewrite Hh0.
    + rewrite Hs1'. simpl. by rewrite Hr0.
  - split; [|split; [|split]].
    + rewrite Hs1'. simpl log. rewrite settlements_quiet_tail by done.
      rewrite rejectAll_log, settlements_app, settlements_rejects. done.
    + intros t Ht.
      assert (promises s !! task_promise t = Some Pending) as Hpend.
      { apply (core_pending s Hc). unfold live. apply elem_of_app. right.
        unfold activePromises. subst bound.
        apply list_elem_of_fmap in Ht as ([k t'] & -> & Hin).
        apply list_elem_of_filter in Hin as [_ Hin].
        apply list_elem_of_fmap. by exists (k, t'). }
      split; [done|]. rewrite Hs1'. simpl promises. by apply rejectAll_pending.
    + intros p Hp. rewrite Hs1'. simpl promises. by rewrite rejectAll_other.
    + by rewrite Hs1'.
  - split; [|split].
    + rewrite Hs1'. simpl. by rewrite Hq0.
    + rewrite !totalWorkers_getStats. by rewrite Hw1.
    + rewrite Hs1'. simpl. by rewrite last_snoc.
  - split; [|split; [|split; [|split]]].
    + rewrite Hs3w. by rewrite Hw2, Hw1.
    + by apply lookup_ge_None.
    + done.
    + unfold listening. rewrite Hs3h.
      rewrite lookup_app_l by (rewrite length_alter; lia).
      by rewrite list_lookup_alter_eq, Ho2.
    + done.
Qed.

(** C7.  The code diverges where two workers carry the same ordinal.
    [restartWorker] stores the new worker at [this.workers[worker.id]]:
    along every run, when the worker listed at the ordinal of the faulted
    worker [w] is another worker [w'], the restart replaces [w'];
    [w], terminated, stays listed wherever it was, and [w'], whose
    listeners still run, is listed no more at that ordinal.  The state
    arises after a second [initialize()], which numbers a second
    generation from 0: with two workers per generation, a fault of the
    first worker of the second generation replaces the first worker of the
    first, and a later [terminate()] does not reach that worker. *)
Theorem restart_replaces_the_unit_listed_at_the_ordinal :
  (∀ requested hc evs w w' err mid,
     let s := run (newWorkerPool requested hc) evs in
     listening w s = true → forallb keepsWorkers mid = true →
     workers s !! idOf w s = Some (Some w') → w' ≠ w →
     let s2 := run (step s (EWorkerError w err)) mid in
     let s3 := step s2 (ERestartTimer w) in
     workers s3 !! idOf w s = Some (Some (length (heap s2)))
     ∧ (∀ j, workers s !! j = Some (Some w) → workers s3 !! j = Some (Some w))
     ∧ listening w s3 = false
     ∧ (listening w' s2 = true → listening w' s3 = true))
  ∧ (let s := run (newWorkerPool 2 (Some 8)) [EInitialize; EInitialize] in
     let s3 := run s [EWorkerError 2 (VErr "crashed"); ERestartTimer 2] in
     workers s = [Some 0; Some 1; Some 2; Some 3]
     ∧ idOf 2 s = 0
     ∧ workers s3 = [Some 4; Some 1; Some 2; Some 3]
     ∧ listening 2 s3 = false ∧ listening 0 s3 = true
     ∧ totalWorkers (getStats s3) = 4
     ∧ listening 0 (terminate s3) = true).
Proof.
  split.
  - intros requested hc evs w w' err mid s Hlisten Hmid Hslot Hne s2 s3.
    destruct (fault_restart_frame requested hc evs w err mid Hlisten Hmid)
      as (_ & _ & _ & Hw3 & _ & Hh3 & Hl3 & _).
    fold s in Hw3, Hh3, Hl3. fold s2 in Hw3, Hh3, Hl3. fold s3 in Hw3, Hh3, Hl3.
    assert (idOf w s < length (workers s)) as Hlt by (by eapply lookup_lt_Some).
    unfold array_set in Hw3. rewrite decide_True in Hw3 by done.
    split; [|split; [|split]].
    + rewrite Hw3. by apply list_lookup_insert_eq.
    + intros j Hj. rewrite Hw3. rewrite list_lookup_insert_ne; [done|].
      intros <-. rewrite Hslot in Hj. by injection Hj.
    + done.
    + unfold listening. rewrite Hh3.
      destruct (heap s2 !! w') as [o|] eqn:Ho; [|done]. intros Ht.
      rewrite lookup_app_l by (rewrite length_alter; by eapply lookup_lt_Some).
      by rewrite list_lookup_alter_ne, Ho by done.
  - vm_compute. by repeat split.
Qed.

(** When the error listener of a worker [w] runs, [w] leaves the ready
    set and its [busy] flag is set to false, nothing else of the worker
    objects changing; [reject] is called with the fault on the promise of
    every active task bound to [w] and on no other, these promises were
    pending and become rejected, the tasks leave the active map, and the
    queue and the number of workers are unchanged; a restart is scheduled
    after 1000 ms.  After any submissions, worker messages and faults in
    between, when the timer fires [w] is terminated and a worker allocated
    afresh, with the ordinal of [w] and not busy, is stored at that
    ordinal and sent [init]; when the ordinal is within the worker list,
    the new worker takes the place of the entry at the ordinal and the
    number of workers is what it was before the fault. *)
Theorem fault_rejects_bound_and_restarts requested hc evs w err mid :
  let s := run (newWorkerPool requested hc) evs in
  listening w s = true →
  forallb keepsWorkers mid = true →
  let s1 := step s (EWorkerError w err) in
  let s2 := run s1 mid in
  let s3 := step s2 (ERestartTimer w) in
  let new := length (heap s2) in
  let bound := snd <$> boundTo w (activeTasks s) in
  ((w ∉ readyWorkers s1) ∧ busyOf w s1 = Some false
   ∧ heap s1 = alter (λ o, mkWorker (worker_id o) false (worker_terminated o)) w (heap s)
   ∧ readyWorkers s1 = jsset_delete w (readyWorkers s))
  ∧ (settlements (log s1)
     = settlements (log s) ++ ((λ t, CallReject (task_promise t) err) <$> bound)
     ∧ (∀ t, t ∈ bound →
          promises s !! task_promise t = Some Pending
          ∧ promises s1 !! task_promise t = Some (Rejected err))
     ∧ (∀ p, p ∉ task_promise <$> bound → promises s1 !! p = promises s !! p)
     ∧ activeTasks s1 = notBoundTo w (activeTasks s))
  ∧ (taskQueue s1 = taskQueue s
     ∧ totalWorkers (getStats s1) = totalWorkers (getStats s)
     ∧ last (log s1) = Some (SetTimeout w restartDelay))
  ∧ (workers s3 = array_set (idOf w s) new (workers s)
     ∧ heap s2 !! new = None
     ∧ heap s3 !! new = Some (mkWorker (idOf w s) false false)
     ∧ listening w s3 = false
     ∧ log s3 = log s2 ++ [TerminateWorker w; PostMessage new initMsg])
  ∧ (idOf w s < length (workers s) →
     workers s3 = <[idOf w s := Some new]> (workers s)
     ∧ totalWorkers (getStats s3) = totalWorkers (getStats s)).
Proof.
  intros s Hlisten Hmid s1 s2 s3 new bound.
  destruct (fault_restart_frame requested hc evs w err mid Hlisten Hmid)
    as (Hfault & Hrej & Hkeep & Hw3 & Hnew & Hh3 & Hl3 & Hlog3).
  fold s in Hfault, Hrej, Hkeep, Hw3, Hnew, Hh3, Hl3, Hlog3.
  fold s1 in Hfault, Hrej, Hkeep, Hw3, Hnew, Hh3, Hl3, Hlog3.
  fold s2 in Hw3, Hnew, Hh3, Hl3, Hlog3. fold s3 in Hw3, Hh3, Hl3, Hlog3.
  fold new in Hw3, Hnew, Hlog3. fold bound in Hrej.
  split; [done|]. split; [done|]. split; [done|]. split.
  - split; [done|]. split; [done|]. split; [|done].
    rewrite Hh3. apply lookup_ge_None in Hnew.
    rewrite lookup_app_r by (by rewrite length_alter).
    by rewrite length_alter, Nat.sub_diag.
  - intros Hlt. unfold array_set in Hw3. rewrite decide_True in Hw3 by done.
    split; [done|]. by rewrite !totalWorkers_getStats, Hw3, length_insert.
Qed.

Lemma fault_rejects_bound_and_restarts_witness :
  let evs := [EInitialize; EWorkerMessage 0 WorkerScript.readyMsg;
              EWorkerMessage 1 WorkerScript.readyMsg;
              EProcessImage 1 "a" "u1" None] in
  let mid := [EProcessImage 2 "b" "u2" None] in
  let s := run (newWorkerPool 2 None) evs in
  let s1 := step s (EWorkerError 0 (VErr "crashed")) in
  let s3 := step (run s1 mid) (ERestartTimer 0) in
  busyOf 0 s = Some true ∧ busyOf 0 s1 = Some false
  ∧ promises s !! 0 = Some Pending
  ∧ promises s1 !! 0 = Some (Rejected (VErr "crashed"))
  ∧ workers s3 = [Some 2; Some 1]
  ∧ totalWorkers (getStats s3) = totalWorkers (getStats s).
Proof.
  intros evs mid s s1 s3.
  assert (listening 0 s = true) as Hlisten by (vm_compute; reflexivity).
  assert (forallb keepsWorkers mid = true) as Hmid by (vm_compute; reflexivity).
  assert (busyOf 0 s = Some true) as Hbusy by (vm_compute; reflexivity).
  assert (idOf 0 s < length (workers s)) as Hlt by (vm_compute; lia).
  destruct (fault_rejects_bound_and_restarts 2 None evs 0 (VErr "crashed") mid
              Hlisten Hmid)
    as ((_ & Hidle & _) & (_ & Hrej & _) & _ & _ & Hin).
  destruct (Hin Hlt) as [Hw Htotal].
  specialize (Hrej (mkTask "task_1_a" "u1" 0 None (Some 0))).
  vm_compute in Hrej, Hw, Htotal, Hidle.
  destruct (Hrej (list_elem_of_here _ _)) as [Hpend Hrejd].
  vm_compute.
  split; [exact Hbusy|]. split; [exact Hidle|]. split; [exact Hpend|].
  split; [exact Hrejd|]. split; [exact Hw|exact Htotal].
Defined.

(** ** Tasks and workers along runs with distinct ids and timely reports *)

Lemma boundTo_snoc w m k t :
  boundTo w (m ++ [(k, t)])
  = boundTo w m ++ (if decide (task_worker t = Some w) then [(k, t)] else []).
Proof. rewrite boundTo_app, boundTo_cons. by case_decide. Qed.

Lemma taskIdOf_nonempty now rnd : taskIdOf now rnd ≠ "".
Proof. done. Qed.

Lemma Tidy_new requested hc : Tidy (newWorkerPool requested hc).
Proof.
  split.
  - intros w H. by apply not_elem_of_nil in H.
  - intros w. simpl. lia.
  - intros p. simpl. by rewrite lookup_nil.
  - intros k H. by apply not_elem_of_nil in H.
Qed.

Lemma Tidy_same s s' :
  activeTasks s' = activeTasks s → taskQueue s' = taskQueue s →
  readyWorkers s' = readyWorkers s → promises s' = promises s →
  Tidy s → Tidy s'.
Proof.
  intros Ha Hq Hr Hp [? ? ? ?].
  split; unfold heldIds, queuedIds, live, queuedPromises, activePromises in *;
    rewrite ?Ha, ?Hq, ?Hr, ?Hp; done.
Qed.

Lemma Tidy_dispatchHead t rest w ws s :
  taskQueue s = t :: rest → readyWorkers s = w :: ws →
  Core s → NoDup (heldIds s) → Tidy s →
  Tidy (dispatchHead t rest w s)
  ∧ heldIds (dispatchHead t rest w s) ≡ₚ heldIds s.
Proof.
  intros Hq Hr Hc Hnd [Hready Hone Hpend Hids].
  assert (task_id t ∉ (activeTasks s).*1) as Hfresh.
  { unfold heldIds, queuedIds in Hnd. rewrite Hq in Hnd. csimpl in Hnd.
    apply NoDup_cons in Hnd as [Hnot _]. intros Hin. apply Hnot.
    apply elem_of_app. by right. }
  assert (activeTasks (dispatchHead t rest w s)
          = activeTasks s ++ [(task_id t, setWorker w t)]) as Ha.
  { simpl. by apply jsmap_set_fresh. }
  assert (heldIds (dispatchHead t rest w s) ≡ₚ heldIds s) as Hperm.
  { unfold heldIds, queuedIds. rewrite Ha. simpl taskQueue. rewrite Hq.
    rewrite fmap_app. csimpl. rewrite (assoc_L (++)), <-Permutation_cons_append. done. }
  split; [|done]. split.
  - intros w' Hw'. rewrite Ha, boundTo_snoc. simpl in Hw'. rewrite Hr in Hw'.
    rewrite jsset_delete_head in Hw' by (rewrite <-Hr; apply Hc).
    rewrite Hready by (rewrite Hr; by apply list_elem_of_further). simpl.
    rewrite decide_False; [done|]. intros [= ->].
    pose proof (core_ready s Hc) as Hndr. rewrite Hr in Hndr.
    by apply NoDup_cons in Hndr as [? _].
  - intros w'. rewrite Ha, boundTo_snoc, length_app. simpl.
    case_decide as Hw'; [|simpl; specialize (Hone w'); lia].
    injection Hw' as ->. rewrite Hready by (rewrite Hr; apply list_elem_of_here).
    done.
  - intros p Hp. simpl in Hp. apply Hpend in Hp.
    unfold live, queuedPromises, activePromises in *. rewrite Ha. simpl taskQueue.
    rewrite Hq in Hp. rewrite fmap_app. csimpl. csimpl in Hp.
    apply elem_of_cons in Hp as [->|Hp].
    + rewrite !elem_of_app. right. right. apply list_elem_of_here.
    + rewrite (assoc_L (++)). apply elem_of_app. by left.
  - intros k Hk. apply Hids. by rewrite <-Hperm.
Qed.

Lemma Tidy_processQueue s :
  Core s → NoDup (heldIds s) → Tidy s →
  Tidy (processQueue s) ∧ heldIds (processQueue s) ≡ₚ heldIds s.
Proof.
  intros Hc Hnd Ht.
  destruct (processQueue_either s) as [[_ ->]|(t & rest & w & ws & Hq & Hr & ->)];
    [done|]. by eapply Tidy_dispatchHead.
Qed.

Lemma Tidy_enqueue now rnd url cb s :
  Core s → Tidy s →
  Tidy (enqueue now rnd url cb s)
  ∧ heldIds (enqueue now rnd url cb s) ≡ₚ taskIdOf now rnd :: heldIds s.
Proof.
  intros Hc [Hready Hone Hpend Hids].
  assert (heldIds (enqueue now rnd url cb s) ≡ₚ taskIdOf now rnd :: heldIds s) as Hperm.
  { unfold heldIds, queuedIds. simpl. rewrite fmap_app. csimpl.
    rewrite <-(assoc_L (++)). csimpl. by rewrite <-Permutation_middle. }
  split; [|done]. split; try done.
  - intros p Hp. simpl in Hp.
    unfold live, queuedPromises, activePromises in *. simpl.
    rewrite fmap_app. csimpl. rewrite <-(assoc_L (++)). csimpl.
    rewrite <-Permutation_middle.
    destruct (decide (p = length (promises s))) as [->|Hne].
    + apply list_elem_of_here.
    + apply list_elem_of_further, Hpend.
      apply lookup_app_Some in Hp as [Hp|[Hge Hp]]; [done|].
      apply list_lookup_singleton_Some in Hp as [Hp _]. lia.
  - intros k Hk. rewrite Hperm in Hk. apply elem_of_cons in Hk as [->|Hk]; [done|].
    by apply Hids.
Qed.

Lemma Tidy_markReady w s :
  findTaskIdByWorker w (activeTasks s) = None → Tidy s → Tidy (markReady w s).
Proof.
  intros Hf [Hready Hone Hpend Hids]. split; try done.
  intros w'. simpl. unfold jsset_add. case_decide; [apply Hready|].
  intros [Hw'| ->%list_elem_of_singleton]%elem_of_app; [by apply Hready|].
  by apply findTaskIdByWorker_None.
Qed.

Lemma boundTo_sublist w m1 m2 :
  m1 `sublist_of` m2 → boundTo w m1 `sublist_of` boundTo w m2.
Proof.
  induction 1 as [|[k t] l1 l2 _ IH|[k t] l1 l2 _ IH]; [done| |].
  - rewrite !boundTo_cons. case_decide; [by apply sublist_skip|done].
  - rewrite boundTo_cons. case_decide; [by apply sublist_cons|done].
Qed.

Lemma sublist_nil_eq {A} (l : list A) : l `sublist_of` [] → l = [].
Proof. intros H. apply sublist_length in H. by destruct l; [|simpl in H; lia]. Qed.

(** Tasks leave the pool once their promise is settled. *)
Lemma Tidy_shrink s s' :
  Tidy s →
  taskQueue s' `sublist_of` taskQueue s →
  activeTasks s' `sublist_of` activeTasks s →
  (∀ w, w ∈ readyWorkers s' → boundTo w (activeTasks s') = []) →
  (∀ p, promises s' !! p = Some Pending → promises s !! p = Some Pending) →
  (∀ p, promises s' !! p = Some Pending → p ∈ live s → p ∈ live s') →
  Tidy s' ∧ heldIds s' `sublist_of` heldIds s.
Proof.
  intros [Hready Hone Hpend Hids] Hq Ha Hr Hmono Hlive.
  assert (heldIds s' `sublist_of` heldIds s) as Hsub.
  { unfold heldIds, queuedIds. apply sublist_app; by apply fmap_sublist. }
  split; [|done]. split.
  - done.
  - intros w. etrans; [|apply (Hone w)].
    by apply sublist_length, boundTo_sublist.
  - intros p Hp. apply Hlive; [done|]. by apply Hpend, Hmono.
  - intros k Hk. apply Hids. by eapply elem_of_sublist.
Qed.

Lemma Tidy_release w data s :
  Core s → Tidy s →
  Tidy (release w data s) ∧ heldIds (release w data s) `sublist_of` heldIds s.
Proof.
  intros Hc Ht. pose proof Ht as [Hready Hone Hpend Hids].
  destruct (findTaskIdByWorker w (activeTasks s)) as [k|] eqn:Hf.
  - apply findTaskIdByWorker_Some in Hf as Hin. destruct Hin as (t & Hin & Hw).
    assert (k ≠ "") as Hk.
    { apply Hids. unfold heldIds. apply elem_of_app. right.
      apply list_elem_of_fmap. by exists (k, t). }
    pose proof (jsmap_get_unique k t _ (core_keys s Hc) Hin) as Hget.
    destruct (jsmap_delete_split k t (activeTasks s) (core_keys s Hc) Hin)
      as (m1 & m2 & Hsplit & Hdel).
    assert (boundTo w (m1 ++ m2) = []) as Hfree.
    { specialize (Hone w). rewrite Hsplit, boundTo_app, boundTo_cons in Hone.
      rewrite decide_True in Hone by done. rewrite length_app in Hone. simpl in Hone.
      rewrite boundTo_app.
      destruct (boundTo w m1), (boundTo w m2); simpl in Hone; done || lia. }
    assert (promises s !! task_promise t = Some Pending) as Hpt.
    { apply (core_pending s Hc). unfold live, activePromises. apply elem_of_app. right.
      apply list_elem_of_fmap. by exists (k, t). }
    assert (task_promise t ∉ task_promise <$> taskQueue s) as Hnq.
    { pose proof (core_live s Hc) as Hnd. unfold live, queuedPromises in Hnd.
      apply NoDup_app in Hnd as (_ & Hdisj & _). intros Hq. apply (Hdisj _ Hq).
      unfold activePromises. apply list_elem_of_fmap. by exists (k, t). }
    assert (task_promise t ∉ (λ kt : string * Task, task_promise kt.2) <$> (m1 ++ m2))
      as Hna.
    { pose proof (core_live s Hc) as Hnd. unfold live, activePromises in Hnd.
      apply NoDup_app in Hnd as (_ & _ & Hnd). rewrite Hsplit in Hnd.
      rewrite fmap_app, fmap_cons in Hnd. simpl in Hnd.
      apply NoDup_app in Hnd as (_ & Hdisj & [Hno _]%NoDup_cons).
      rewrite fmap_app, elem_of_app. intros [Hin1|Hin2]; [|done].
      apply (Hdisj _ Hin1). apply list_elem_of_here. }
    rewrite (release_bound w data s k t) by done. cbv zeta.
    set (s' := with_activeTasks _ _).
    assert (∀ s4, sameShape s' s4 →
              promises s4 !! task_promise t ≠ Some Pending →
              (∀ q, q ≠ task_promise t → promises s4 !! q = promises s !! q) →
              Tidy s4 ∧ heldIds s4 `sublist_of` heldIds s) as Hfin.
    { intros s4 (_ & _ & Hq4 & Ha4 & Hr4 & _) Hsettled Hother.
      assert (activeTasks s4 = m1 ++ m2) as Ha4' by (by rewrite Ha4, <-Hdel).
      apply Tidy_shrink; [done|by rewrite Hq4|rewrite Ha4; apply jsmap_delete_sublist| | |].
      - intros w'. rewrite Hr4, Ha4'. simpl. unfold jsset_add.
        assert (w' ∈ readyWorkers s → boundTo w' (m1 ++ m2) = []) as Hold.
        { intros Hw'. apply sublist_nil_eq. rewrite <-(Hready w' Hw'), Hsplit.
          apply boundTo_sublist, sublist_app; [done|by apply sublist_cons]. }
        case_decide; [done|].
        intros [Hw'| ->%list_elem_of_singleton]%elem_of_app; [by apply Hold|done].
      - intros p Hp. destruct (decide (p = task_promise t)) as [->|Hne]; [done|].
        by rewrite <-Hother.
      - intros p Hp. destruct (decide (p = task_promise t)) as [->|Hne]; [done|].
        unfold live, queuedPromises, activePromises. rewrite Hq4, Ha4'.
        simpl taskQueue. rewrite Hsplit, !fmap_app, fmap_cons, !elem_of_app, elem_of_cons.
        simpl. tauto. }
    case_match.
    + apply Hfin; [apply resolveTask_shape| |].
      * rewrite resolveTask_pending by done. done.
      * intros q Hq. by rewrite resolveTask_other.
    + apply Hfin; [apply rejectTask_shape| |].
      * rewrite rejectTask_pending by done. done.
      * intros q Hq. by rewrite rejectTask_other.
  - rewrite (release_unbound w data s Hf).
    apply Tidy_shrink; try done.
    intros w'. simpl. unfold jsset_add. case_decide; [apply Hready|].
    intros [Hw'| ->%list_elem_of_singleton]%elem_of_app; [by apply Hready|].
    by apply findTaskIdByWorker_None.
Qed.

Lemma Tidy_handleWorkerError w e s :
  Core s → Tidy s →
  Tidy (handleWorkerError w e s)
  ∧ heldIds (handleWorkerError w e s) `sublist_of` heldIds s.
Proof.
  intros Hc Ht. pose proof Ht as [Hready Hone Hpend Hids].
  rewrite handleWorkerError_closed by apply Hc.
  set (s0 := with_readyWorkers _ _). set (bound := snd <$> boundTo w (activeTasks s)).
  pose proof (rejectAll_shape e bound s0) as (_ & _ & Hq0 & _ & Hr0 & _).
  assert (NoDup (task_promise <$> bound)) as Hnd.
  { subst bound. rewrite <-list_fmap_compose.
    eapply sublist_NoDup; [|apply fmap_sublist, sublist_filter].
    pose proof (core_live s Hc) as Hl. by apply NoDup_app in Hl as (_ & _ & Hl). }
  assert (∀ t, t ∈ bound → promises s !! task_promise t = Some Pending) as Hpb.
  { intros t Hin. apply (core_pending s Hc). unfold live. apply elem_of_app. right.
    unfold activePromises. subst bound.
    apply list_elem_of_fmap in Hin as ([k t'] & -> & Hin).
    apply list_elem_of_filter in Hin as [_ Hin].
    apply list_elem_of_fmap. by exists (k, t'). }
  apply Tidy_shrink; [done| | | | |].
  - simpl. by rewrite Hq0.
  - simpl. apply sublist_filter.
  - intros w'. simpl. rewrite Hr0. simpl. intros [_ Hw']%jsset_delete_elem.
    apply sublist_nil_eq. rewrite <-(Hready w' Hw').
    apply boundTo_sublist, sublist_filter.
  - intros p. simpl.
    destruct (decide (p ∈ task_promise <$> bound)) as [Hin|Hnot].
    + apply list_elem_of_fmap in Hin as (t & -> & Hin).
      rewrite (rejectAll_pending e bound s0 t) by auto. done.
    + by rewrite rejectAll_other.
  - intros p. simpl promises.
    destruct (decide (p ∈ task_promise <$> bound)) as [Hin|Hnot].
    { apply list_elem_of_fmap in Hin as (t & -> & Hin).
      rewrite (rejectAll_pending e bound s0 t) by auto. done. }
    intros _. unfold live, queuedPromises, activePromises. simpl.
    rewrite Hq0. simpl. rewrite !elem_of_app. intros [Hq|Ha]; [by left|right].
    apply list_elem_of_fmap in Ha as ([k t] & -> & Hin).
    apply list_elem_of_fmap. exists (k, t). split; [done|].
    apply list_elem_of_filter. split; [|done]. simpl. intros Hw. apply Hnot.
    subst bound. rewrite <-list_fmap_compose. apply list_elem_of_fmap.
    exists (k, t). split; [done|]. by apply list_elem_of_filter.
Qed.

Lemma Tidy_terminate s :
  Core s → Tidy s → Tidy (terminate s) ∧ heldIds (terminate s) `sublist_of` heldIds s.
Proof.
  intros Hc Ht. destruct (terminate_tasks s) as (Hq & Ha & _).
  assert (∀ p, promises (terminate s) !! p = Some Pending →
               promises s !! p = Some Pending ∧ p ∉ live s) as Hp.
  { intros p. unfold terminate.
    set (s1 := foldl _ s (taskQueue s)). set (s2 := with_taskQueue [] s1).
    set (s3 := foldl _ s2 _). set (s4 := with_activeTasks [] s3).
    assert (promises s4
            = promises (foldl (λ acc t, rejectTask t terminatedError acc) s
                          (taskQueue s ++ (snd <$> activeTasks s)))) as Hp4.
    { rewrite foldl_app. fold s1. change (promises s4) with (promises s3).
      assert (activeTasks s2 = activeTasks s) as Ha2.
      { change (activeTasks s2) with (activeTasks s1). subst s1.
        by destruct (rejectAll_shape terminatedError (taskQueue s) s)
          as (_ & _ & _ & -> & _). }
      subst s3. rewrite Ha2. by apply rejectAll_ext. }
    assert (promises (match terminateAll (workers s4) s4 with
                      | Some s5 => with_readyWorkers [] (with_workers [] s5)
                      | None => emit ThrowTypeError (terminatedPrefix (workers s4) s4)
                      end) = promises s4) as ->.
    { destruct (terminateAll (workers s4) s4) as [s5|] eqn:Hterm.
      - destruct (terminateAll_sameTasks _ _ _ Hterm) as (_ & _ & _ & _ & _ & Hp5 & _).
        by rewrite <-Hp5.
      - destruct (terminatedPrefix_sameTasks (workers s4) s4)
          as (_ & _ & _ & _ & _ & Hp5 & _).
        by rewrite <-Hp5. }
    rewrite Hp4. intros Hpend.
    destruct (decide (p ∈ live s)) as [Hin|Hnot].
    - rewrite <-live_outstanding in Hin.
      apply list_elem_of_fmap in Hin as (t & -> & Hin).
      rewrite rejectAll_pending in Hpend; [done| |done|].
      + rewrite live_outstanding. apply Hc.
      + apply (core_pending s Hc). rewrite <-live_outstanding.
        by apply list_elem_of_fmap_2.
    - split; [|done]. rewrite rejectAll_other in Hpend; [done|].
      by rewrite live_outstanding. }
  apply Tidy_shrink; [done| | | | |].
  - rewrite Hq. apply sublist_nil_l.
  - rewrite Ha. apply sublist_nil_l.
  - intros w _. by rewrite Ha.
  - intros p Hpend. by apply Hp.
  - intros p Hpend Hin. by destruct (Hp p Hpend).
Qed.

Lemma NoDup_app_sublist {A} (l l' r : list A) :
  l' `sublist_of` l → NoDup (l ++ r) → NoDup (l' ++ r).
Proof.
  intros Hsub Hnd. eapply sublist_NoDup; [exact Hnd|]. by apply sublist_app.
Qed.

Lemma Tidy_step s e rest :
  Core s → Tidy s → NoDup (heldIds s ++ submitted (e :: rest)) →
  readyWhileUnbound s e = true →
  Tidy (step s e) ∧ NoDup (heldIds (step s e) ++ submitted rest).
Proof.
  intros Hc Ht Hnd Hrdy.
  assert (∀ s', activeTasks s' = activeTasks s → taskQueue s' = taskQueue s →
            readyWorkers s' = readyWorkers s → promises s' = promises s →
            submitted (e :: rest) = submitted rest →
            Tidy s' ∧ NoDup (heldIds s' ++ submitted rest)) as Hsame.
  { intros s' Ha Hq Hr Hp He. split; [by apply (Tidy_same s)|].
    unfold heldIds, queuedIds in *. by rewrite Ha, Hq, <-He. }
  assert (∀ s1, Core s1 → Tidy s1 → heldIds s1 `sublist_of` heldIds s →
            submitted (e :: rest) = submitted rest →
            Tidy (processQueue s1) ∧ NoDup (heldIds (processQueue s1) ++ submitted rest))
    as Hdrain.
  { intros s1 Hc1 Ht1 Hsub He. rewrite He in Hnd.
    pose proof (NoDup_app_sublist _ _ _ Hsub Hnd) as Hnd1.
    destruct (Tidy_processQueue s1 Hc1) as [Ht2 Hperm]; [|done|].
    { by apply NoDup_app in Hnd1 as (? & _). }
    split; [done|]. by rewrite Hperm. }
  destruct e as [|now rnd url cb|w data|w err|w|]; simpl step.
  - destruct (initialize_sameTasks s (core_flag s Hc)) as (_ & ? & ? & ? & _ & ? & _).
    by apply Hsame.
  - unfold processImage. change (submitted (EProcessImage now rnd url cb :: rest))
      with (taskIdOf now rnd :: submitted rest) in Hnd.
    destruct (Tidy_enqueue now rnd url cb s Hc Ht) as [Ht1 Hperm1].
    rewrite <-Permutation_middle in Hnd.
    change (taskIdOf now rnd :: heldIds s ++ submitted rest)
      with ((taskIdOf now rnd :: heldIds s) ++ submitted rest) in Hnd.
    rewrite <-Hperm1 in Hnd.
    destruct (Tidy_processQueue (enqueue now rnd url cb s)) as [Ht2 Hperm2];
      [by apply Core_enqueue|by apply NoDup_app in Hnd as (? & _)|done|].
    split; [done|]. by rewrite Hperm2.
  - case_match eqn:Hl; [|by apply Hsame]. unfold handleWorkerMessage.
    destruct (nullish data) eqn:Hnull; [by apply Hsame|].
    simpl in Hrdy. rewrite Hl in Hrdy. simpl in Hrdy.
    destruct (isStr (getField "status" data) "ready") eqn:Hst.
    + apply bool_decide_eq_true in Hrdy.
      apply Hdrain; [by apply Core_markReady|by apply Tidy_markReady|done|done].
    + case_match.
      * destruct (Tidy_release w data s Hc Ht) as [Ht1 Hsub].
        apply Hdrain; [by apply Core_release|done|done|done].
      * unfold forward. destruct (boundTask _ s) as [[k t]|]; [|by apply Hsame].
        destruct (task_onProgress t); by apply Hsame.
  - case_match; [|by apply Hsame].
    destruct (Tidy_handleWorkerError w err s Hc Ht) as [Ht1 Hsub].
    split; [done|]. by apply (NoDup_app_sublist (heldIds s)).
  - case_decide; by apply Hsame.
  - destruct (Tidy_terminate s Hc Ht) as [Ht1 Hsub].
    split; [done|]. by apply (NoDup_app_sublist (heldIds s)).
Qed.

Lemma Tidy_run evs : ∀ s,
  Core s → Tidy s → NoDup (heldIds s ++ submitted evs) →
  readyReportsUnbound s evs = true →
  Tidy (run s evs).
Proof.
  induction evs as [|e evs IH]; intros s Hc Ht Hnd Hrdy; simpl; [done|].
  simpl in Hrdy. apply andb_prop in Hrdy as [He Hrest].
  destruct (Tidy_step s e evs Hc Ht Hnd He) as [Ht1 Hnd1].
  apply IH; [by apply Core_step|done|done|done].
Qed.

(** ** The worker script *)

Import WorkerScript.

Lemma flagsAgree_step st e :
  Forall flagsAgree (calls st) → Forall flagsAgree (calls (ustep st e)).
Proof.
  intros Hinv. destruct e as [data|c r|c r|c r]; simpl.
  - destruct (directiveOf data) as [d|]; [|done].
    unfold getInstance_begin. case_match; simpl.
    + apply Forall_app. split; [done|]. by apply Forall_singleton.
    + apply Forall_app. split; [done|]. apply Forall_singleton.
      unfold flagsAgree. simpl. by destruct d.
  - destruct (calls st !! c) as [call|] eqn:Hc; [|done].
    destruct (phase call); try done.
    destruct r as [message|m]; simpl; by apply Forall_insert.
  - destruct (calls st !! c) as [call|] eqn:Hc; [|done].
    destruct (phase call) eqn:Hph; try done.
    destruct r as [message|p]; simpl; apply Forall_insert; try done.
    unfold flagsAgree. simpl. by destruct (directive call).
  - destruct (calls st !! c) as [call|] eqn:Hc; [|done].
    destruct (phase call); try done.
    unfold imageSettled. destruct r as [message|[[width height] bytes]]; simpl;
      by apply Forall_insert.
Qed.

Lemma flagsAgree_run evs : ∀ st,
  Forall flagsAgree (calls st) → Forall flagsAgree (calls (urun st evs)).
Proof.
  induction evs as [|e evs IH]; intros st Hinv; simpl; [done|].
  by apply IH, flagsAgree_step.
Qed.

(** C9.  Along every run of the worker script, when the load a call of
    [getInstance] awaits throws, the script posts a message of status
    ['error'] whose text names the phase, followed by the message of the
    listener's own handler: it names the model when the call was awaiting
    [AutoModel.from_pretrained], and the processor when it was awaiting
    [AutoProcessor.from_pretrained], which it does only after its model
    load has returned.  A load that returns posts no error message. *)
Theorem construction_error_names_phase evs c call message :
  let st := urun initial evs in
  calls st !! c = Some call →
  (phase call = AwaitModel →
     modelLoaded call = false
     ∧ outbox (ustep st (UModelSettled c (inl message)))
       = outbox st ++ [errorMsg ("Failed to load model: " +:+ message);
                       errorMsg message]
     ∧ ∀ m, outbox (ustep st (UModelSettled c (inr m)))
            = outbox st ++ [infoMsg "Model loaded successfully! Loading processor..."])
  ∧ (phase call = AwaitProcessor →
       modelLoaded call = true
       ∧ outbox (ustep st (UProcessorSettled c (inl message)))
         = outbox st ++ [errorMsg ("Failed to load processor: " +:+ message);
                         errorMsg message]
       ∧ ∀ p, outbox (ustep st (UProcessorSettled c (inr p)))
              = outbox st
                  ++ [infoMsg "Processor loaded successfully! Ready to process images.";
                      readyMsg]).
Proof.
  intros st Hc.
  assert (flagsAgree call) as Hflags.
  { assert (Forall flagsAgree (calls st)) as Hall
      by (apply flagsAgree_run; constructor).
    rewrite Forall_lookup in Hall. by apply (Hall c). }
  unfold flagsAgree in Hflags. split.
  - intros Hph. rewrite Hph in Hflags. split; [done|].
    simpl. rewrite Hc, Hph. simpl. unfold constructionError. rewrite Hflags.
    split; [by rewrite <-app_assoc|done].
  - intros Hph. rewrite Hph in Hflags. split; [done|].
    simpl. rewrite Hc, Hph. simpl. unfold constructionError. rewrite Hflags.
    split; [by rewrite <-app_assoc|]. intros p. by rewrite <-app_assoc.
Qed.

Lemma construction_error_names_phase_witness :
  outbox (urun initial [UMessage initMsg; UModelSettled 0 (inl "offline")])
  = [initiateMsg; infoMsg "Loading model...";
     errorMsg "Failed to load model: offline"; errorMsg "offline"]
  ∧ outbox (urun initial [UMessage initMsg; UModelSettled 0 (inr 7);
                           UProcessorSettled 0 (inl "offline")])
    = [initiateMsg; infoMsg "Loading model...";
       infoMsg "Model loaded successfully! Loading processor...";
       errorMsg "Failed to load processor: offline"; errorMsg "offline"].
Proof.
  split.
  - destruct (construction_error_names_phase [UMessage initMsg] 0
                (mkCall DInit AwaitModel false false) "offline" eq_refl)
      as [Hmodel _].
    destruct (Hmodel eq_refl) as (_ & Hout & _). exact Hout.
  - destruct (construction_error_names_phase
                [UMessage initMsg; UModelSettled 0 (inr 7)] 0
                (mkCall DInit AwaitProcessor true false) "offline" eq_refl)
      as [_ Hproc].
    destruct (Hproc eq_refl) as (_ & Hout & _). exact Hout.
Defined.

(** ** C8: how often the pipeline is constructed *)

(** C8.  The code constructs more than once.  [getInstance] tests
    [!this.model || !this.processor] and keeps no handle on a construction
    in flight, so along every run a directive that arrives while the pair
    is incomplete begins a model load of its own, whether or not another
    call is still constructing: the claim that a construction that has
    started is shared does not hold.  Two [init] directives in a row begin
    two loads, and when all four loads return the pair stored is the one
    of the second construction; after a failed [init], two task
    directives bring the number of model loads to three. *)
Theorem directive_in_flight_constructs_again :
  (∀ evs data d,
     let st := urun initial evs in
     directiveOf data = Some d → needsConstruction st = true →
     modelLoads (ustep st (UMessage data)) = S (modelLoads st)
     ∧ calls (ustep st (UMessage data)) !! length (calls st)
       = Some (mkCall d AwaitModel false false))
  ∧ ¬ (∀ evs data,
         let st := urun initial evs in
         (∃ call, call ∈ calls st ∧ constructing call = true)
         ∨ (is_Some (model st) ∧ is_Some (processor st)) →
         modelLoads (ustep st (UMessage data)) = modelLoads st)
  ∧ (let st := urun initial [UMessage initMsg; UMessage initMsg;
                             UModelSettled 0 (inr 7); UModelSettled 1 (inr 8);
                             UProcessorSettled 0 (inr 9);
                             UProcessorSettled 1 (inr 10)] in
     modelLoads st = 2 ∧ processorLoads st = 2
     ∧ model st = Some 8 ∧ processor st = Some 10
     ∧ instanceOf <$> calls st
       = [Some (Some 8, Some 9); Some (Some 8, Some 10)])
  ∧ (let st := urun initial
                 [UMessage initMsg; UModelSettled 0 (inl "offline");
                  UMessage (VObj [("imageUrl", VStr "u1"); ("taskId", VStr "t1")]);
                  UMessage (VObj [("imageUrl", VStr "u2"); ("taskId", VStr "t2")])] in
     modelLoads st = 3).
Proof.
  split; [|split; [|split]].
  - intros evs data d st Hd Hneeds. simpl. rewrite Hd.
    unfold getInstance_begin. rewrite Hneeds. simpl. split; [done|].
    by rewrite lookup_app_r, Nat.sub_diag by done.
  - intros H. specialize (H [UMessage initMsg] initMsg). simpl in H.
    assert (2 = 1) as Hbad; [|done]. apply H. left.
    eexists. split; [apply list_elem_of_here|done].
  - vm_compute. by repeat split.
  - vm_compute. reflexivity.
Qed.

Lemma built_step m p n ml pl st e :
  built m p n ml pl st → built m p n ml pl (ustep st e).
Proof.
  intros (Hm & Hp & Hml & Hpl & Hcalls & Hnew).
  assert (needsConstruction st = false) as Hneeds.
  { unfold needsConstruction. rewrite Hm, Hp.
    rewrite !bool_decide_eq_true_2; [done|by eexists|by eexists]. }
  assert (∀ c call, calls st !! c = Some call → constructing call = false) as Hidle.
  { intros c call Hc. rewrite Forall_lookup in Hcalls. by apply (Hcalls c). }
  destruct e as [data|c r|c r|c r]; simpl.
  - destruct (directiveOf data) as [d|]; [|done].
    unfold getInstance_begin. rewrite Hneeds. unfold built. simpl.
    split_and!; try done.
    + apply Forall_app. split; [done|]. apply Forall_singleton.
      unfold constructing. simpl. by destruct d.
    + intros c call Hle [Hc|[Hge Hc]]%lookup_app_Some; [by eapply Hnew|].
      apply list_lookup_singleton_Some in Hc as [_ <-].
      unfold instanceOf. simpl. rewrite Hm, Hp. by destruct d.
  - destruct (calls st !! c) as [call|] eqn:Hc; [|done].
    apply Hidle in Hc. unfold constructing in Hc.
    by destruct (phase call).
  - destruct (calls st !! c) as [call|] eqn:Hc; [|done].
    apply Hidle in Hc. unfold constructing in Hc.
    by destruct (phase call).
  - destruct (calls st !! c) as [call|] eqn:Hc; [|done].
    destruct (phase call) as [| |m0 p0|] eqn:Hph; try done.
    assert (c < length (calls st)) as Hlt by (by eapply lookup_lt_Some).
    unfold imageSettled, built.
    destruct r as [message|[[width height] bytes]]; simpl.
    + split_and!; try done.
      * by apply Forall_insert.
      * intros c' call' Hle Hlk. destruct (decide (c = c')) as [->|Hne].
        -- rewrite list_lookup_insert_eq in Hlk by done. injection Hlk as <-.
           specialize (Hnew _ _ Hle Hc). unfold instanceOf in *. simpl.
           by rewrite Hph in Hnew.
        -- rewrite list_lookup_insert_ne in Hlk by done. by eapply Hnew.
    + split_and!; try done.
      * by apply Forall_insert.
      * intros c' call' Hle Hlk. destruct (decide (c = c')) as [->|Hne].
        -- rewrite list_lookup_insert_eq in Hlk by done. injection Hlk as <-.
           specialize (Hnew _ _ Hle Hc). unfold instanceOf in *. simpl.
           by rewrite Hph in Hnew.
        -- rewrite list_lookup_insert_ne in Hlk by done. by eapply Hnew.
Qed.

Lemma built_run m p n ml pl evs : ∀ st,
  built m p n ml pl st → built m p n ml pl (urun st evs).
Proof.
  induction evs as [|e evs IH]; intros st Hb; simpl; [done|].
  by apply IH, built_step.
Qed.

(** Once the model and the processor are both stored and no call of
    [getInstance] is still constructing, no sequence of further
    directives and settlements begins a load or changes the stored pair,
    and every call of [getInstance] made from then on returns that pair. *)
Theorem constructed_pipeline_is_reused st m p evs :
  model st = Some m → processor st = Some p →
  Forall (λ call, constructing call = false) (calls st) →
  let st' := urun st evs in
  model st' = Some m ∧ processor st' = Some p
  ∧ modelLoads st' = modelLoads st ∧ processorLoads st' = processorLoads st
  ∧ Forall (λ call, constructing call = false) (calls st')
  ∧ (∀ c call, length (calls st) ≤ c → calls st' !! c = Some call →
       instanceOf call = Some (Some m, Some p)).
Proof.
  intros Hm Hp Hcalls st'.
  apply (built_run m p (length (calls st)) (modelLoads st) (processorLoads st)).
  unfold built. split_and!; try done.
  intros c call Hle Hc. apply lookup_lt_Some in Hc. lia.
Qed.

Lemma constructed_pipeline_is_reused_witness :
  let st := urun initial [UMessage initMsg; UModelSettled 0 (inr 7);
                          UProcessorSettled 0 (inr 9)] in
  let st' := urun st [UMessage initMsg;
                      UMessage (VObj [("imageUrl", VStr "u1"); ("taskId", VStr "t1")]);
                      UMessage initMsg] in
  modelLoads st' = 1 ∧ processorLoads st' = 1
  ∧ model st' = Some 7 ∧ processor st' = Some 9.
Proof.
  intros st st'.
  destruct (constructed_pipeline_is_reused st 7 9
              [UMessage initMsg;
               UMessage (VObj [("imageUrl", VStr "u1"); ("taskId", VStr "t1")]);
               UMessage initMsg] eq_refl eq_refl)
    as (Hm & Hp & Hml & Hpl & _).
  { repeat constructor. }
  split_and!; [exact Hml|exact Hpl|exact Hm|exact Hp].
Defined.

(** * Further properties of the worker script and of the pool *)

(** ** The alpha channel written by the task branch *)

Lemma writeAlphaFrom_length mask : ∀ start data,
  length (writeAlphaFrom start mask data) = length data.
Proof.
  induction mask as [|v mask IH]; intros start data; simpl; [done|].
  by rewrite IH, length_insert.
Qed.

Lemma writeAlphaFrom_other mask : ∀ start data j,
  (∀ k, k < length mask → j ≠ 4 * (start + k) + 3) →
  writeAlphaFrom start mask data !! j = data !! j.
Proof.
  induction mask as [|v mask IH]; intros start data j Hj; [done|].
  cbn [writeAlphaFrom]. rewrite IH.
  - apply list_lookup_insert_ne. specialize (Hj 0). simpl in Hj. lia.
  - intros k Hk. specialize (Hj (S k)). simpl in Hj. lia.
Qed.

Lemma writeAlphaFrom_written mask : ∀ start data k v,
  mask !! k = Some v → 4 * (start + k) + 3 < length data →
  writeAlphaFrom start mask data !! (4 * (start + k) + 3) = Some (clampByte v).
Proof.
  induction mask as [|v0 mask IH]; intros start data k v Hk Hlen; [done|].
  cbn [writeAlphaFrom]. destruct k as [|k].
  - injection Hk as ->. rewrite writeAlphaFrom_other by (intros; lia).
    rewrite Nat.add_0_r in *. by apply list_lookup_insert_eq.
  - replace (start + S k) with (S start + k) in * by lia.
    apply IH; [done|]. by rewrite length_insert.
Qed.

(** The alpha loop keeps the size of the pixel array and every colour
    byte (the indices that are not [3] modulo [4]); pixel [k] of the mask,
    when the array has that pixel, gets the mask value as its alpha byte
    (the value itself for a byte); pixels past the end of the mask keep
    their alpha. *)
Theorem writeAlpha_sets_alpha_only mask data :
  length (writeAlpha mask data) = length data
  ∧ (∀ j, j mod 4 ≠ 3 → writeAlpha mask data !! j = data !! j)
  ∧ (∀ k v, mask !! k = Some v → 4 * k + 3 < length data →
       writeAlpha mask data !! (4 * k + 3) = Some (clampByte v)
       ∧ ((0 ≤ v ≤ 255)%Z → clampByte v = v))
  ∧ (∀ k, length mask ≤ k →
       writeAlpha mask data !! (4 * k + 3) = data !! (4 * k + 3)).
Proof.
  unfold writeAlpha. split_and!.
  - apply writeAlphaFrom_length.
  - intros j Hj. apply writeAlphaFrom_other. intros k _ ->.
    apply Hj. rewrite Nat.add_0_l, Nat.add_comm, Nat.mul_comm.
    by rewrite Nat.Div0.mod_add.
  - intros k v Hk Hlen. split.
    + by apply (writeAlphaFrom_written mask 0 data k v).
    + unfold clampByte. lia.
  - intros k Hk. apply writeAlphaFrom_other. intros k' Hk'. lia.
Qed.

(** ** What the worker makes of the messages of the pool *)

(** The [init] message of the pool takes the first branch of the
    listener, and the message of a dispatched task takes the second one
    exactly when the image URL is not the empty string: for the empty
    string the listener does nothing at all; it starts no call and
    posts nothing. *)
Theorem pool_messages_understood_by_worker :
  directiveOf initMsg = Some DInit
  ∧ (∀ t, directiveOf (taskMsg t)
          = if decide (task_imageUrl t = "") then None
            else Some (DTask (VStr (task_imageUrl t))))
  ∧ (∀ t st, task_imageUrl t = "" → ustep st (UMessage (taskMsg t)) = st)
  ∧ (∀ t st, task_imageUrl t ≠ "" →
       length (calls (ustep st (UMessage (taskMsg t)))) = S (length (calls st))).
Proof.
  assert (∀ t, directiveOf (taskMsg t)
               = if decide (task_imageUrl t = "") then None
                 else Some (DTask (VStr (task_imageUrl t)))) as Htask.
  { intros t. unfold directiveOf, taskMsg. simpl.
    destruct (decide (task_imageUrl t = "")) as [->|Hne]; [done|].
    by rewrite bool_decide_eq_false_2. }
  split_and!; [done|done| |].
  - intros t st Hurl. simpl. rewrite Htask. by rewrite decide_True.
  - intros t st Hurl. simpl. rewrite Htask, decide_False by done.
    unfold getInstance_begin. case_match; simpl; rewrite length_app; simpl; lia.
Qed.

(** ** The pipeline is built in order and never torn down *)

Lemma model_kept st e : is_Some (model st) → is_Some (model (ustep st e)).
Proof.
  intros Hm. destruct e as [data|c r|c r|c r]; simpl.
  - destruct (directiveOf data); [|done]. unfold getInstance_begin. by case_match.
  - destruct (calls st !! c) as [call|]; [|done]. destruct (phase call); try done.
    destruct r; simpl; [done|by eexists].
  - destruct (calls st !! c) as [call|]; [|done]. destruct (phase call); try done.
    by destruct r.
  - destruct (calls st !! c) as [call|]; [|done]. destruct (phase call); try done.
    unfold imageSettled. by destruct r as [?|[[? ?] ?]].
Qed.

Lemma processor_kept st e : is_Some (processor st) → is_Some (processor (ustep st e)).
Proof.
  intros Hm. destruct e as [data|c r|c r|c r]; simpl.
  - destruct (directiveOf data); [|done]. unfold getInstance_begin. by case_match.
  - destruct (calls st !! c) as [call|]; [|done]. destruct (phase call); try done.
    by destruct r.
  - destruct (calls st !! c) as [call|]; [|done]. destruct (phase call); try done.
    destruct r; simpl; [done|by eexists].
  - destruct (calls st !! c) as [call|]; [|done]. destruct (phase call); try done.
    unfold imageSettled. by destruct r as [?|[[? ?] ?]].
Qed.

Lemma ready_needs_model_step st e :
  ((∀ c call, calls st !! c = Some call → phase call = AwaitProcessor →
      is_Some (model st))
   ∧ (readyMsg ∈ outbox st → is_Some (model st) ∧ is_Some (processor st))) →
  (∀ c call, calls (ustep st e) !! c = Some call → phase call = AwaitProcessor →
     is_Some (model (ustep st e)))
  ∧ (readyMsg ∈ outbox (ustep st e) →
     is_Some (model (ustep st e)) ∧ is_Some (processor (ustep st e))).
Proof.
  intros [Hwait Hready].
  assert (∀ st', calls st' = calls st → outbox st' = outbox st →
            model st' = model st → processor st' = processor st →
            (∀ c call, calls st' !! c = Some call → phase call = AwaitProcessor →
               is_Some (model st'))
            ∧ (readyMsg ∈ outbox st' → is_Some (model st') ∧ is_Some (processor st')))
    as Hsame.
  { intros st' -> -> -> ->. done. }
  destruct e as [data|c r|c r|c r]; simpl.
  - destruct (directiveOf data) as [d|]; [|done].
    unfold getInstance_begin. case_match; simpl.
    + split.
      * intros c call [Hc|[_ Hc]]%lookup_app_Some; [by eapply Hwait|].
        by apply list_lookup_singleton_Some in Hc as [_ <-].
      * rewrite !elem_of_app, !list_elem_of_singleton.
        intros [[Hin|Heq]|Heq]; [by apply Hready|done|done].
    + split; [|done].
      intros c call [Hc|[_ Hc]]%lookup_app_Some; [by eapply Hwait|].
      apply list_lookup_singleton_Some in Hc as [_ <-]. simpl. by destruct d.
  - destruct (calls st !! c) as [call0|] eqn:Hc0; [|done].
    destruct (phase call0) eqn:Hph; try done.
    destruct r as [message|m]; simpl.
    + split.
      * intros c' call Hlk. destruct (decide (c = c')) as [->|Hne].
        -- rewrite list_lookup_insert_eq in Hlk by (by eapply lookup_lt_Some).
           by injection Hlk as <-.
        -- rewrite list_lookup_insert_ne in Hlk by done. by eapply Hwait.
      * rewrite !elem_of_app, !list_elem_of_singleton.
        intros [[Hin|Heq]|Heq]; [by apply Hready|done|done].
    + split; [intros; by eexists|].
      rewrite elem_of_app, list_elem_of_singleton.
      intros [Hin|Heq]; [|done]. split; [by eexists|by apply Hready].
  - destruct (calls st !! c) as [call0|] eqn:Hc0; [|done].
    destruct (phase call0) eqn:Hph; try done.
    assert (is_Some (model st)) as Hm by (by eapply Hwait).
    destruct r as [message|p]; simpl.
    + split.
      * intros c' call Hlk. destruct (decide (c = c')) as [->|Hne].
        -- rewrite list_lookup_insert_eq in Hlk by (by eapply lookup_lt_Some).
           by injection Hlk as <-.
        -- rewrite list_lookup_insert_ne in Hlk by done. by eapply Hwait.
      * rewrite !elem_of_app, !list_elem_of_singleton.
        intros [[Hin|Heq]|Heq]; [by apply Hready|done|done].
    + split; [done|]. intros _. split; [done|by eexists].
  - destruct (calls st !! c) as [call0|] eqn:Hc0; [|done].
    destruct (phase call0) eqn:Hph; try done.
    unfold imageSettled. destruct r as [message|[[width height] bytes]]; simpl.
    + split.
      * intros c' call Hlk. destruct (decide (c = c')) as [->|Hne].
        -- rewrite list_lookup_insert_eq in Hlk by (by eapply lookup_lt_Some).
           by injection Hlk as <-.
        -- rewrite list_lookup_insert_ne in Hlk by done. by eapply Hwait.
      * rewrite elem_of_app, list_elem_of_singleton.
        intros [Hin|Heq]; [by apply Hready|done].
    + split.
      * intros c' call Hlk. destruct (decide (c = c')) as [->|Hne].
        -- rewrite list_lookup_insert_eq in Hlk by (by eapply lookup_lt_Some).
           by injection Hlk as <-.
        -- rewrite list_lookup_insert_ne in Hlk by done. by eapply Hwait.
      * rewrite elem_of_app, list_elem_of_singleton.
        intros [Hin|Heq]; [by apply Hready|done].
Qed.

(** Along every run of the worker script, once the model or the
    processor is stored it stays stored: nothing resets the pipeline. *)
Theorem pipeline_never_torn_down st evs :
  (is_Some (model st) → is_Some (model (urun st evs)))
  ∧ (is_Some (processor st) → is_Some (processor (urun st evs))).
Proof.
  revert st. induction evs as [|e evs IH]; intros st; simpl; [done|].
  destruct (IH (ustep st e)) as [IHm IHp]. split.
  - intros Hm. by apply IHm, model_kept.
  - intros Hp. by apply IHp, processor_kept.
Qed.

(** A worker that has posted ['ready'] holds a complete pipeline: in
    every run of the script from its start, if the ['ready'] message
    is in what was posted then the model and the processor are both
    stored, so a later call of [getInstance] begins no construction. *)
Theorem ready_report_means_pipeline_built evs :
  let st := urun initial evs in
  readyMsg ∈ outbox st →
  is_Some (model st) ∧ is_Some (processor st) ∧ needsConstruction st = false.
Proof.
  intros st Hin.
  assert (∀ evs st0,
            ((∀ c call, calls st0 !! c = Some call → phase call = AwaitProcessor →
                is_Some (model st0))
             ∧ (readyMsg ∈ outbox st0 → is_Some (model st0) ∧ is_Some (processor st0))) →
            (readyMsg ∈ outbox (urun st0 evs) →
             is_Some (model (urun st0 evs)) ∧ is_Some (processor (urun st0 evs))))
    as Hrun.
  { clear. induction evs as [|e evs IH]; intros st0 Hinv; simpl; [apply Hinv|].
    apply IH. by apply ready_needs_model_step. }
  destruct (Hrun evs initial) as [Hm Hp]; [|done|].
  { split; [done|]. simpl. intros H. by apply not_elem_of_nil in H. }
  split_and!; [done|done|]. unfold needsConstruction.
  by rewrite !bool_decide_eq_true_2.
Qed.

Lemma ready_report_means_pipeline_built_witness :
  let st := urun initial [UMessage initMsg; UModelSettled 0 (inr 7);
                          UProcessorSettled 0 (inr 9)] in
  model st = Some 7 ∧ processor st = Some 9 ∧ needsConstruction st = false.
Proof.
  intros st.
  destruct (ready_report_means_pipeline_built
              [UMessage initMsg; UModelSettled 0 (inr 7); UProcessorSettled 0 (inr 9)])
    as (_ & _ & Hneeds).
  { vm_compute. do 4 apply list_elem_of_further. apply list_elem_of_here. }
  split_and!; [reflexivity|reflexivity|exact Hneeds].
Defined.

(** ** Reports of a worker that change nothing *)

Lemma with_readyWorkers_id s : with_readyWorkers (readyWorkers s) s = s.
Proof. by destruct s. Qed.

(** A ['ready'] report of a worker that is already in the ready set
    changes nothing, in any state a run can reach: the set ignores the
    second insertion and no task can be waiting. *)
Theorem repeated_ready_report_is_ignored requested hc evs w data :
  let s := run (newWorkerPool requested hc) evs in
  isStr (getField "status" data) "ready" = true →
  w ∈ readyWorkers s →
  handleWorkerMessage w data s = s.
Proof.
  intros s Hst Hw. unfold handleWorkerMessage.
  assert (nullish data = false) as -> by (by destruct data). rewrite Hst.
  assert (markReady w s = s) as ->.
  { unfold markReady, jsset_add. rewrite decide_True by done.
    apply with_readyWorkers_id. }
  apply processQueue_idle.
  destruct (drained_reachable requested hc evs) as [Hq|Hr]; [by left|].
  fold s in Hr. rewrite Hr in Hw. by apply not_elem_of_nil in Hw.
Qed.

Lemma repeated_ready_report_is_ignored_witness :
  let s := run (newWorkerPool 1 None) [EInitialize; EWorkerMessage 0 readyMsg] in
  handleWorkerMessage 0 readyMsg s = s.
Proof.
  intros s.
  apply (repeated_ready_report_is_ignored 1 None
           [EInitialize; EWorkerMessage 0 readyMsg] 0 readyMsg eq_refl).
  vm_compute. apply list_elem_of_here.
Defined.

(** A message whose status is none of ['ready'], ['complete'] and
    ['error'] changes nothing in the pool: the queue, the active map, the
    ready set, the workers and the promises stay as they are.  When the
    message is [null] or [undefined], reading its status throws a
    [TypeError] and no callback is called.  Any other message is handed,
    as it is, to the [onProgress] callback of the first active task bound
    to the worker, when that task has one; from a worker bound to no task
    it is dropped. *)
Theorem progress_is_relayed_verbatim w data s :
  isStr (getField "status" data) "ready" = false →
  isStr (getField "status" data) "complete" = false →
  isStr (getField "status" data) "error" = false →
  let s' := handleWorkerMessage w data s in
  sameShape s s' ∧ promises s' = promises s
  ∧ (nullish data = true → log s' = log s ++ [ThrowTypeError])
  ∧ (nullish data = false →
     (findTaskIdByWorker w (activeTasks s) = None → s' = s)
     ∧ (∀ k t, findTaskIdByWorker w (activeTasks s) = Some k → k ≠ "" →
          jsmap_get k (activeTasks s) = Some t →
          log s' = log s ++ match task_onProgress t with
                            | Some cb => [CallProgress cb data]
                            | None => []
                            end)).
Proof.
  intros H1 H2 H3 s'. subst s'. unfold handleWorkerMessage.
  destruct (nullish data) eqn:Hnull.
  { split; [by repeat split|]. split; [done|]. split; [done|]. by intros. }
  rewrite H1, H2, H3. simpl. unfold forward.
  split; [|split; [|split; [done|intros _; split]]].
  - destruct (boundTask _ s) as [[k t]|]; [|apply sameShape_refl].
    destruct (task_onProgress t); [by repeat split|apply sameShape_refl].
  - destruct (boundTask _ s) as [[k t]|]; [|done]. by destruct (task_onProgress t).
  - by intros ->.
  - intros k t Hf Hk Hg. unfold boundTask. rewrite Hf, decide_False by done.
    rewrite Hg. simpl. destruct (task_onProgress t); [done|by rewrite app_nil_r].
Qed.

Lemma progress_is_relayed_verbatim_witness :
  let s := run (newWorkerPool 1 None)
             [EInitialize; EWorkerMessage 0 readyMsg;
              EProcessImage 7 "x1" "u1" (Some 5)] in
  log (handleWorkerMessage 0 (infoMsg "Loading model...") s)
  = log s ++ [CallProgress 5 (infoMsg "Loading model...")]
  ∧ log (handleWorkerMessage 0 VNull s) = log s ++ [ThrowTypeError].
Proof.
  intros s. split.
  - destruct (progress_is_relayed_verbatim 0 (infoMsg "Loading model...") s
                eq_refl eq_refl eq_refl) as (_ & _ & _ & Hobj).
    destruct (Hobj eq_refl) as [_ Hlog].
    apply (Hlog "task_7_x1" (mkTask "task_7_x1" "u1" 0 (Some 5) (Some 0)));
      [reflexivity|done|reflexivity].
  - destruct (progress_is_relayed_verbatim 0 VNull s eq_refl eq_refl eq_refl)
      as (_ & _ & Hthrow & _).
    by apply Hthrow.
Defined.

(** ** A pool without workers *)

Lemma no_workers_step s e :
  (e ≠ EInitialize ∨ maxWorkers s = 0) →
  heap s = [] ∧ workers s = [] ∧ readyWorkers s = [] ∧ activeTasks s = []
  ∧ timers s = [] →
  let s' := step s e in
  (heap s' = [] ∧ workers s' = [] ∧ readyWorkers s' = [] ∧ activeTasks s' = []
     ∧ timers s' = [])
  ∧ maxWorkers s' = maxWorkers s
  ∧ dispatched (log s') = dispatched (log s)
  ∧ (e ≠ ETerminate →
     queuedIds s' = queuedIds s ++ submitted [e]
     ∧ (Forall (λ x, x = Pending) (promises s) →
        Forall (λ x, x = Pending) (promises s'))).
Proof.
  intros He (Hh & Hw & Hr & Ha & Ht) s'. subst s'.
  destruct e as [|now rnd url cb|w data|w err|w|]; simpl.
  - destruct He as [He|Hmax]; [done|]. unfold initialize.
    destruct (isInitializing s); [by rewrite app_nil_r|].
    simpl. rewrite Hmax. simpl. by rewrite app_nil_r.
  - unfold processImage. rewrite processQueue_idle by (by right).
    split_and!; try done. intros _. split.
    + unfold queuedIds. simpl. by rewrite fmap_app.
    + intros Hp. simpl. apply Forall_app. split; [done|]. by apply Forall_singleton.
  - unfold listening. rewrite Hh. simpl. by rewrite app_nil_r.
  - unfold listening. rewrite Hh. simpl. by rewrite app_nil_r.
  - rewrite Ht. rewrite decide_False by apply not_elem_of_nil. by rewrite app_nil_r.
  - destruct (terminate_tasks s) as (Hq' & Ha' & _ & Hr').
    assert (Forall is_Some (workers s)) as Hdense by (rewrite Hw; constructor).
    destruct (terminate_dense s Hdense) as (_ & _ & Hw' & Hr'' & _ & _).
    pose proof (terminate_quiet s) as Hquiet.
    assert (heap (terminate s) = [] ∧ timers (terminate s) = []
            ∧ maxWorkers (terminate s) = maxWorkers s) as (Hh' & Ht' & Hm').
    { unfold terminate.
      set (s1 := foldl _ s (taskQueue s)). set (s2 := with_taskQueue [] s1).
      set (s3 := foldl _ s2 _). set (s4 := with_activeTasks [] s3).
      pose proof (rejectAll_shape terminatedError (taskQueue s) s)
        as (Hm1 & Hw1 & _ & _ & _ & _ & Hh1 & Ht1).
      pose proof (rejectAll_shape terminatedError (snd <$> activeTasks s2) s2)
        as (Hm3 & Hw3 & _ & _ & _ & _ & Hh3 & Ht3).
      fold s1 in Hm1, Hw1, Hh1, Ht1. fold s3 in Hm3, Hw3, Hh3, Ht3.
      assert (workers s4 = []) as -> by (simpl; rewrite Hw3; simpl; by rewrite Hw1).
      simpl. rewrite Hh3, Ht3, Hm3. simpl. by rewrite Hh1, Ht1, Hm1. }
    split_and!; try done. by apply extendsQuietly_dispatched.
Qed.

(** Submissions to a pool that has no workers, because [initialize()]
    was never called or because it was built for zero workers, are only
    queued: no message is ever posted to a worker, and until
    [terminate()] the queue holds every submitted task in order with its
    promise pending. *)
Theorem pool_without_workers_only_queues requested hc evs :
  EInitialize ∉ evs ∨ Nat.min requested (hardwareDefault hc) = 0 →
  let s := run (newWorkerPool requested hc) evs in
  workers s = [] ∧ readyWorkers s = [] ∧ activeTasks s = []
  ∧ dispatched (log s) = []
  ∧ (ETerminate ∉ evs →
     queuedIds s = submitted evs ∧ Forall (λ x, x = Pending) (promises s)
     ∧ length (promises s) = length (submitted evs)).
Proof.
  intros Hno s.
  assert (∀ evs s0,
            (EInitialize ∉ evs ∨ maxWorkers s0 = 0) →
            heap s0 = [] ∧ workers s0 = [] ∧ readyWorkers s0 = []
            ∧ activeTasks s0 = [] ∧ timers s0 = [] →
            let s1 := run s0 evs in
            (workers s1 = [] ∧ readyWorkers s1 = [] ∧ activeTasks s1 = [])
            ∧ dispatched (log s1) = dispatched (log s0)
            ∧ (ETerminate ∉ evs →
               queuedIds s1 = queuedIds s0 ++ submitted evs
               ∧ (Forall (λ x, x = Pending) (promises s0) →
                  Forall (λ x, x = Pending) (promises s1))
               ∧ length (promises s1) = length (promises s0) + length (submitted evs)))
    as Hrun.
  { clear. induction evs as [|e evs IH]; intros s0 Hno Hempty.
    { simpl. destruct Hempty as (_ & ? & ? & ? & _).
      rewrite app_nil_r, Nat.add_0_r. by split_and!. }
    change (run s0 (e :: evs)) with (run (step s0 e) evs). cbv zeta.
    assert (e ≠ EInitialize ∨ maxWorkers s0 = 0) as He.
    { destruct Hno as [Hno|?]; [left|by right].
      intros ->. apply Hno, list_elem_of_here. }
    destruct (no_workers_step s0 e He Hempty) as (Hempty' & Hmax & Hd & Hq).
    destruct (IH (step s0 e)) as (Hfin & Hd' & Hq'); [|done|].
    { destruct Hno as [Hno|?]; [left|right; by rewrite Hmax].
      intros Hin. by apply Hno, list_elem_of_further. }
    split; [done|]. split; [by rewrite Hd', Hd|].
    intros Hterm.
    destruct Hq as [Hq1 Hp1]; [intros ->; apply Hterm, list_elem_of_here|].
    destruct Hq' as (Hq2 & Hp2 & Hlen2);
      [intros Hin; by apply Hterm, list_elem_of_further|].
    rewrite Hq2, Hq1, <-app_assoc, Hlen2.
    replace (submitted (e :: evs)) with (submitted [e] ++ submitted evs)
      by (by rewrite <-submitted_app).
    split; [done|]. split; [auto|].
    rewrite length_app.
    assert (length (promises (step s0 e)) = length (promises s0) + length (submitted [e]))
      as ->; [|lia].
    destruct e as [|now rnd url cb|w data|w err|w|]; simpl;
      destruct Hempty as (Hh & Hw & Hr & Ha & Ht).
    - destruct He as [He|Hmax0]; [done|]. unfold initialize.
      destruct (isInitializing s0); [lia|]. simpl. rewrite Hmax0. simpl. lia.
    - unfold processImage. rewrite processQueue_promises. simpl.
      rewrite length_app. simpl. lia.
    - unfold listening. rewrite Hh. simpl. lia.
    - unfold listening. rewrite Hh. simpl. lia.
    - rewrite Ht, decide_False by apply not_elem_of_nil. lia.
    - destruct Hterm. apply list_elem_of_here. }
  destruct (Hrun evs (newWorkerPool requested hc)) as ((? & ? & ?) & Hd & Hq);
    [done|done|].
  fold s in Hd, Hq. split_and!; try done.
  intros Hterm. destruct (Hq Hterm) as (Hq1 & Hp1 & Hlen). split_and!; try done.
  by apply Hp1.
Qed.

Lemma pool_without_workers_only_queues_witness :
  let s := run (newWorkerPool 2 None)
             [EProcessImage 1 "a" "u1" None; EWorkerMessage 0 readyMsg;
              EProcessImage 2 "b" "u2" None] in
  queuedIds s = ["task_1_a"; "task_2_b"] ∧ dispatched (log s) = [].
Proof.
  intros s.
  destruct (pool_without_workers_only_queues 2 None
              [EProcessImage 1 "a" "u1" None; EWorkerMessage 0 readyMsg;
               EProcessImage 2 "b" "u2" None])
    as (_ & _ & _ & Hd & Hq).
  { left. intros Hin.
    repeat (apply elem_of_cons in Hin as [Hin|Hin]; [discriminate Hin|]).
    by apply not_elem_of_nil in Hin. }
  destruct Hq as (Hq & _).
  { intros Hin.
    repeat (apply elem_of_cons in Hin as [Hin|Hin]; [discriminate Hin|]).
    by apply not_elem_of_nil in Hin. }
  split; [exact Hq|exact Hd].
Defined.

(** ** [terminate()] and the restart timers *)

Lemma terminateAll_units ws : ∀ s s',
  terminateAll ws s = Some s' →
  length (heap s') = length (heap s) ∧ (∀ w, idOf w s' = idOf w s)
  ∧ timers s' = timers s.
Proof.
  induction ws as [|[w|] ws IH]; intros s s'; simpl.
  - by intros [= <-].
  - intros (Hlen & Hid & Ht)%IH. split_and!.
    + rewrite Hlen. simpl. apply length_alter.
    + intros w'. rewrite Hid. unfold idOf. simpl. rewrite list_lookup_alter.
      case_decide; [|done]. subst. by destruct (heap s !! _).
    + by rewrite Ht.
  - done.
Qed.

(** [terminate()] clears no restart timer: when the timer of a worker
    that faulted before fires on the terminated pool, [restartWorker]
    allocates a new worker, stores it in the emptied list at the ordinal
    of the old one, leaving holes below it, and sends it [init]. *)
Theorem restart_timer_survives_terminate requested hc evs w :
  let s := run (newWorkerPool requested hc) evs in
  Forall is_Some (workers s) → w ∈ timers s → w < length (heap s) →
  let s1 := terminate s in
  let s2 := step s1 (ERestartTimer w) in
  let new := length (heap s) in
  workers s1 = [] ∧ w ∈ timers s1
  ∧ workers s2 = replicate (idOf w s) None ++ [Some new]
  ∧ totalWorkers (getStats s2) = S (idOf w s)
  ∧ listening new s2 = true
  ∧ last (log s2) = Some (PostMessage new initMsg).
Proof.
  intros s Hdense Htimer Hlt s1 s2 new.
  destruct (terminate_dense s Hdense) as (_ & _ & Hw1 & _ & _ & _).
  fold s1 in Hw1.
  assert (length (heap s1) = length (heap s) ∧ (∀ w', idOf w' s1 = idOf w' s)
          ∧ timers s1 = timers s) as (Hlen & Hid & Ht).
  { subst s1. unfold terminate.
    set (t1 := foldl _ s (taskQueue s)). set (t2 := with_taskQueue [] t1).
    set (t3 := foldl _ t2 _). set (t4 := with_activeTasks [] t3).
    pose proof (rejectAll_shape terminatedError (taskQueue s) s)
      as (_ & Hw & _ & _ & _ & _ & Hh & Htm).
    pose proof (rejectAll_shape terminatedError (snd <$> activeTasks t2) t2)
      as (_ & Hw3 & _ & _ & _ & _ & Hh3 & Htm3).
    fold t1 in Hw, Hh, Htm. fold t3 in Hw3, Hh3, Htm3.
    assert (heap t4 = heap s) as Hh4 by (simpl; rewrite Hh3; simpl; done).
    assert (timers t4 = timers s) as Ht4 by (simpl; rewrite Htm3; simpl; done).
    assert (workers t4 = workers s) as Hw4 by (simpl; rewrite Hw3; simpl; done).
    destruct (terminateAll_dense (workers t4) t4) as [t5 Hterm]; [by rewrite Hw4|].
    rewrite Hterm. simpl.
    destruct (terminateAll_units _ _ _ Hterm) as (Hl5 & Hi5 & Ht5).
    rewrite Hl5, Ht5, Hh4, Ht4. split_and!; try done.
    intros w'. unfold idOf in *. simpl. specialize (Hi5 w'). by rewrite Hi5, Hh4. }
  assert (w ∈ timers s1) as Htimer1 by (by rewrite Ht).
  destruct (lookup_lt_is_Some_2 (heap s1) w) as [o Ho]; [by rewrite Hlen|].
  assert (worker_id o = idOf w s) as Hido.
  { rewrite <-Hid. unfold idOf. by rewrite Ho. }
  assert (s2 = restartWorker w (with_timers (remove_first w (timers s1)) s1)) as Hs2
    by (subst s2; simpl; by rewrite decide_True).
  destruct (restartWorker_spec w (with_timers (remove_first w (timers s1)) s1) o Ho)
    as (Hs2w & Hs2h & Hs2l).
  rewrite <-Hs2 in Hs2w, Hs2h, Hs2l. rewrite Hido in Hs2w, Hs2h.
  change (heap (with_timers (remove_first w (timers s1)) s1)) with (heap s1)
    in Hs2w, Hs2h, Hs2l.
  change (workers (with_timers (remove_first w (timers s1)) s1)) with (workers s1)
    in Hs2w.
  rewrite Hlen in Hs2w, Hs2l. rewrite Hw1 in Hs2w. fold new in Hs2w, Hs2l.
  assert (workers s2 = replicate (idOf w s) None ++ [Some new]) as Hw2.
  { rewrite Hs2w. unfold array_set.
    case_decide as Hc; [simpl in Hc; lia|]. simpl. by rewrite Nat.sub_0_r. }
  split_and!; try done.
  - rewrite totalWorkers_getStats, Hw2, length_app, length_replicate. simpl. lia.
  - unfold listening. rewrite Hs2h.
    rewrite lookup_app_r by (rewrite length_alter; lia).
    rewrite length_alter, Hlen. subst new. by rewrite Nat.sub_diag.
  - rewrite Hs2l.
    change [TerminateWorker w; PostMessage new initMsg]
      with ([TerminateWorker w] ++ [PostMessage new initMsg]).
    by rewrite (assoc_L (++)), last_snoc.
Qed.

Lemma restart_timer_survives_terminate_witness :
  let s := run (newWorkerPool 2 None)
             [EInitialize; EWorkerError 1 (VErr "crashed")] in
  let s2 := step (terminate s) (ERestartTimer 1) in
  workers (terminate s) = [] ∧ workers s2 = [None; Some 2].
Proof.
  intros s s2.
  assert (Forall is_Some (workers s)) as Hdense by (repeat constructor; by eexists).
  assert (1 ∈ timers s) as Htimer by (vm_compute; apply list_elem_of_here).
  assert (1 < length (heap s)) as Hlt by (vm_compute; lia).
  destruct (restart_timer_survives_terminate 2 None
              [EInitialize; EWorkerError 1 (VErr "crashed")] 1 Hdense Htimer Hlt)
    as (Hw1 & _ & Hw2 & _).
  split; [exact Hw1|exact Hw2].
Defined.

(** ** Ready workers are served in the order they became ready *)

Lemma assignments_app l1 l2 : assignments (l1 ++ l2) = assignments l1 ++ assignments l2.
Proof. apply omap_app. Qed.

Lemma submit_step_assignment x s :
  Core s → drained s →
  let s1 := submit s x in
  (readyWorkers s = [] ∧ assignments (log s1) = assignments (log s)
   ∧ readyWorkers s1 = [] ∧ taskQueue s1 ≠ [])
  ∨ (∃ w ws, taskQueue s = [] ∧ readyWorkers s = w :: ws ∧ taskQueue s1 = []
             ∧ assignments (log s1) = assignments (log s) ++ [(w, submissionId x)]
             ∧ readyWorkers s1 = ws).
Proof.
  intros Hc Hd. destruct x as [[[now rnd] url] cb]. simpl.
  unfold processImage. destruct (readyWorkers s) as [|w ws] eqn:Hr.
  - left. rewrite processQueue_idle by (by right). split_and!; try done.
    simpl. by destruct (taskQueue s).
  - right. destruct Hd as [Hq|?]; [|congruence]. exists w, ws.
    rewrite (processQueue_dispatch _
               (mkTask (taskIdOf now rnd) url (length (promises s)) cb None) [] w ws);
      [|simpl; by rewrite Hq|done].
    split_and!; try done.
    + simpl. by rewrite assignments_app.
    + simpl. rewrite Hr. apply jsset_delete_head. rewrite <-Hr. apply Hc.
Qed.

Lemma markReady_appends w s :
  w ∉ readyWorkers s → readyWorkers (markReady w s) = readyWorkers s ++ [w].
Proof. intros Hw. simpl. unfold jsset_add. by rewrite decide_False. Qed.

(** The ready set is served first come, first served.  A worker that
    is marked ready goes behind the workers that are ready already, and in
    any state a run can reach in which no task waits, a batch of
    submissions gives its first task to the worker that has been ready
    longest, its second to the next, and so on, for as many tasks as there
    are ready workers; the ready workers left over keep their order. *)
Theorem ready_workers_served_in_order requested hc evs subs :
  let s := run (newWorkerPool requested hc) evs in
  taskQueue s = [] →
  let s' := foldl submit s subs in
  assignments (log s')
  = assignments (log s) ++ zip (readyWorkers s) (submissionId <$> subs)
  ∧ readyWorkers s' = drop (length subs) (readyWorkers s)
  ∧ (∀ w, w ∉ readyWorkers s → readyWorkers (markReady w s) = readyWorkers s ++ [w]).
Proof.
  intros s Hq s'. split_and!; [| |intros w Hw; by apply markReady_appends].
  - subst s'.
    assert (∀ subs s0, Core s0 → drained s0 →
              (taskQueue s0 = [] ∨ readyWorkers s0 = []) →
              assignments (log (foldl submit s0 subs))
              = assignments (log s0)
                  ++ (if decide (taskQueue s0 = []) then
                        zip (readyWorkers s0) (submissionId <$> subs)
                      else [])) as Hgen.
    { clear. induction subs as [|x subs IH]; intros s0 Hc Hd Hcase.
      { simpl. case_decide; [|by rewrite app_nil_r].
        destruct (readyWorkers s0); by rewrite app_nil_r. }
      cbn [foldl].
      assert (Core (submit s0 x) ∧ drained (submit s0 x)) as [Hc1 Hd1].
      { destruct (submit_step x s0 Hc Hd) as (? & ? & _). done. }
      rewrite IH by done.
      destruct (submit_step_assignment x s0 Hc Hd)
        as [(Hr & Ha & Hr1 & Hq1)|(w & ws & Hq0 & Hr & Hq1 & Ha & Hr1)].
      - rewrite Ha, Hr. rewrite decide_False by done.
        case_decide; simpl; by rewrite ?app_nil_r.
      - rewrite Ha, Hr, Hr1. rewrite !decide_True by done.
        rewrite fmap_cons. simpl. by rewrite <-app_assoc. }
    rewrite Hgen; [by rewrite decide_True|apply Core_reachable
                   |apply drained_reachable|by left].
  - subst s'.
    assert (∀ subs s0, Core s0 → drained s0 → taskQueue s0 = [] ∨ readyWorkers s0 = [] →
              readyWorkers (foldl submit s0 subs)
              = drop (length subs) (readyWorkers s0)) as Hgen.
    { clear. induction subs as [|x subs IH]; intros s0 Hc Hd Hcase; [done|].
      cbn [foldl].
      assert (Core (submit s0 x) ∧ drained (submit s0 x)) as [Hc1 Hd1].
      { destruct (submit_step x s0 Hc Hd) as (? & ? & _). done. }
      rewrite IH by done.
      destruct (submit_step_assignment x s0 Hc Hd)
        as [(Hr & Ha & Hr1 & Hq1)|(w & ws & Hq0 & Hr & Hq1 & Ha & Hr1)].
      - rewrite Hr1, Hr. by rewrite !drop_nil.
      - by rewrite Hr1, Hr. }
    apply Hgen; [apply Core_reachable|apply drained_reachable|by left].
Qed.

Lemma ready_workers_served_in_order_witness :
  let s := run (newWorkerPool 2 None)
             [EInitialize; EWorkerMessage 1 readyMsg; EWorkerMessage 0 readyMsg] in
  let subs : list Submission :=
    [(1%N, "a", "u1", None); (2%N, "b", "u2", None); (3%N, "c", "u3", None)] in
  assignments (log (foldl submit s subs)) = [(1, "task_1_a"); (0, "task_2_b")].
Proof.
  intros s subs.
  destruct (ready_workers_served_in_order 2 None
              [EInitialize; EWorkerMessage 1 readyMsg; EWorkerMessage 0 readyMsg]
              subs eq_refl) as (Ha & _).
  exact Ha.
Defined.

(** ** No promise is settled twice *)

Lemma settledPromises_app l1 l2 :
  settledPromises (l1 ++ l2) = settledPromises l1 ++ settledPromises l2.
Proof. apply omap_app. Qed.

Lemma settledOnce_same s s' :
  settledPromises (log s') = settledPromises (log s) →
  (∃ new, promises s' = promises s ++ new ∧ Forall (λ x, x = Pending) new) →
  settledOnce s → settledOnce s'.
Proof.
  intros Hl (new & Hp & Hnew) [Hnd Hiff]. split; [by rewrite Hl|].
  intros p. rewrite Hl, Hiff, Hp. split.
  - intros (r & Hr & Hpend). exists r. split; [|done].
    rewrite lookup_app_l; [done|]. by eapply lookup_lt_Some.
  - intros (r & Hr & Hpend). exists r. split; [|done].
    apply lookup_app_Some in Hr as [Hr|[_ Hr]]; [done|].
    rewrite Forall_lookup in Hnew. apply Hnew in Hr. by subst r.
Qed.

Lemma settledOnce_keep s s' :
  settledPromises (log s') = settledPromises (log s) → promises s' = promises s →
  settledOnce s → settledOnce s'.
Proof.
  intros Hl Hp. apply settledOnce_same; [done|]. exists []. by rewrite app_nil_r.
Qed.

Lemma settledOnce_call s s' p r :
  promises s !! p = Some Pending → isPending r = false →
  settledPromises (log s') = settledPromises (log s) ++ [p] →
  promises s' = <[p := r]> (promises s) →
  settledOnce s → settledOnce s'.
Proof.
  intros Hp Hr Hl Hps [Hnd Hiff].
  assert (p ∉ settledPromises (log s)) as Hnot.
  { rewrite Hiff. intros (r' & Hr' & Hpend). rewrite Hp in Hr'. by injection Hr' as <-. }
  split.
  - rewrite Hl. apply NoDup_app. split_and!; [done| |apply NoDup_singleton].
    intros q Hq ->%list_elem_of_singleton. done.
  - intros q. rewrite Hl, Hps, elem_of_app, list_elem_of_singleton, Hiff.
    destruct (decide (q = p)) as [->|Hne].
    + rewrite list_lookup_insert_eq by (by eapply lookup_lt_Some).
      split; [intros _; by exists r|by right].
    + rewrite list_lookup_insert_ne by done. split; [by intros [?|?]|by left].
Qed.

Lemma settledOnce_rejectTask t e s :
  promises s !! task_promise t = Some Pending →
  settledOnce s → settledOnce (rejectTask t e s).
Proof.
  intros Hp. apply (settledOnce_call s _ (task_promise t) (Rejected e)); [done|done| |].
  - by rewrite rejectTask_log, settledPromises_app.
  - unfold rejectTask, settle. simpl. by rewrite Hp.
Qed.

Lemma settledOnce_resolveTask t v s :
  promises s !! task_promise t = Some Pending →
  settledOnce s → settledOnce (resolveTask t v s).
Proof.
  intros Hp. apply (settledOnce_call s _ (task_promise t) (Fulfilled v)); [done|done| |].
  - by rewrite resolveTask_log, settledPromises_app.
  - unfold resolveTask, settle. simpl. by rewrite Hp.
Qed.

Lemma settledOnce_rejectAll e ts : ∀ s,
  NoDup (task_promise <$> ts) →
  (∀ t, t ∈ ts → promises s !! task_promise t = Some Pending) →
  settledOnce s → settledOnce (foldl (λ acc t, rejectTask t e acc) s ts).
Proof.
  induction ts as [|t ts IH]; intros s Hnd Hpend Hs; [done|]. cbn [foldl].
  rewrite fmap_cons in Hnd. apply NoDup_cons in Hnd as [Hnot Hnd].
  apply IH; [done| |].
  - intros t' Hin. rewrite rejectTask_other; [apply Hpend; by apply list_elem_of_further|].
    intros Heq. apply Hnot. rewrite <-Heq. by apply list_elem_of_fmap_2.
  - apply settledOnce_rejectTask; [|done]. apply Hpend, list_elem_of_here.
Qed.

Lemma settledOnce_processQueue s : settledOnce s → settledOnce (processQueue s).
Proof.
  apply settledOnce_keep; [|apply processQueue_promises].
  rewrite processQueue_log, settledPromises_app.
  destruct (taskQueue s), (readyWorkers s); by rewrite app_nil_r.
Qed.

Lemma settledPromises_terminations (ws : list (option nat)) :
  settledPromises (omap (λ o, TerminateWorker <$> o) ws) = [].
Proof. induction ws as [|[w|] ws IH]; done. Qed.

Lemma terminatedPrefix_settled ws : ∀ s,
  settledPromises (log (terminatedPrefix ws s)) = settledPromises (log s)
  ∧ promises (terminatedPrefix ws s) = promises s.
Proof.
  induction ws as [|[w|] ws IH]; intros s; simpl; try done.
  destruct (IH (terminateWorker w s)) as [-> ->]. simpl.
  by rewrite settledPromises_app, app_nil_r.
Qed.

Lemma settledOnce_step s e : Core s → settledOnce s → settledOnce (step s e).
Proof.
  intros Hc Hs. destruct e as [|now rnd url cb|w data|w err|w|]; simpl.
  - revert Hs. apply settledOnce_keep;
      [|by destruct (initialize_sameTasks s (core_flag s Hc)) as (_ & _ & _ & _ & _ & ? & _)].
    rewrite initialize_unfold by apply Hc. simpl. rewrite spawn_log. simpl.
    rewrite settledPromises_app.
    assert (∀ a n, settledPromises ((λ w, PostMessage w initMsg) <$> seq a n) = [])
      as ->; [|by rewrite app_nil_r].
    intros a n. revert a. induction n as [|n IH]; intros a; [done|]. apply IH.
  - apply settledOnce_processQueue. revert Hs. apply settledOnce_same; [done|].
    exists [Pending]. split; [done|]. by apply Forall_singleton.
  - case_match; [|done]. unfold handleWorkerMessage. repeat case_match.
    + revert Hs. apply settledOnce_keep; [|done]. simpl.
      by rewrite settledPromises_app, app_nil_r.
    + apply settledOnce_processQueue. revert Hs. by apply settledOnce_keep.
    + apply settledOnce_processQueue. unfold release. cbv zeta.
      set (s2 := with_readyWorkers _ _).
      destruct (boundTask _ s2) as [[k t]|] eqn:Hb; [|revert Hs; by apply settledOnce_keep].
      apply boundTask_Some in Hb as (_ & _ & Hget). apply jsmap_get_elem in Hget.
      assert (promises s !! task_promise t = Some Pending) as Hp.
      { apply (core_pending s Hc). unfold live, activePromises. apply elem_of_app. right.
        apply list_elem_of_fmap. by exists (k, t). }
      case_match.
      * apply settledOnce_resolveTask; [done|]. revert Hs. by apply settledOnce_keep.
      * apply settledOnce_rejectTask; [done|]. revert Hs. by apply settledOnce_keep.
    + unfold forward. destruct (boundTask _ s) as [[k t]|]; [|done].
      destruct (task_onProgress t); [|done]. revert Hs.
      apply settledOnce_keep; [|done]. simpl. by rewrite settledPromises_app, app_nil_r.
  - case_match; [|done]. rewrite handleWorkerError_closed by apply Hc.
    set (s0 := with_readyWorkers _ _). set (bound := snd <$> boundTo w (activeTasks s)).
    assert (settledOnce (foldl (λ acc t, rejectTask t err acc) s0 bound)) as Hs1.
    { apply settledOnce_rejectAll.
      - subst bound. rewrite <-list_fmap_compose.
        eapply sublist_NoDup; [|apply fmap_sublist, sublist_filter].
        pose proof (core_live s Hc) as Hl. by apply NoDup_app in Hl as (_ & _ & Hl).
      - intros t Hin. apply (core_pending s Hc). unfold live. apply elem_of_app. right.
        unfold activePromises. subst bound.
        apply list_elem_of_fmap in Hin as ([k t'] & -> & Hin).
        apply list_elem_of_filter in Hin as [_ Hin].
        apply list_elem_of_fmap. by exists (k, t').
      - revert Hs. by apply settledOnce_keep. }
    revert Hs1. apply settledOnce_keep; [|done].
    simpl. by rewrite settledPromises_app, app_nil_r.
  - case_decide; [|done]. revert Hs. apply settledOnce_keep; [|done].
    simpl. by rewrite !settledPromises_app, !app_nil_r.
  - unfold terminate.
    set (s1 := foldl _ s (taskQueue s)). set (s2 := with_taskQueue [] s1).
    set (s3 := foldl _ s2 _). set (s4 := with_activeTasks [] s3).
    pose proof (core_live s Hc) as Hlive. unfold live in Hlive.
    apply NoDup_app in Hlive as (Hndq & Hdisj & Hnda).
    assert (settledOnce s1) as Hs1.
    { apply settledOnce_rejectAll; [done| |done].
      intros t Hin. apply (core_pending s Hc). unfold live. apply elem_of_app. left.
      by apply list_elem_of_fmap_2. }
    assert (activeTasks s2 = activeTasks s) as Ha2.
    { change (activeTasks s2) with (activeTasks s1). subst s1.
      by destruct (rejectAll_shape terminatedError (taskQueue s) s)
        as (_ & _ & _ & -> & _). }
    assert (settledOnce s3) as Hs3.
    { apply settledOnce_rejectAll.
      - rewrite Ha2, <-list_fmap_compose. done.
      - intros t Hin. rewrite Ha2 in Hin.
        apply list_elem_of_fmap in Hin as ([k t'] & -> & Hin).
        change (promises s2) with (promises s1). subst s1.
        rewrite rejectAll_other.
        + apply (core_pending s Hc). unfold live. apply elem_of_app. right.
          apply list_elem_of_fmap. by exists (k, t').
        + intros Hq. apply (Hdisj _ Hq). apply list_elem_of_fmap. by exists (k, t').
      - revert Hs1. by apply settledOnce_keep. }
    destruct (terminateAll (workers s4) s4) as [s5|] eqn:Hterm.
    + revert Hs3. apply settledOnce_keep.
      * simpl. rewrite (terminateAll_log _ _ _ Hterm), settledPromises_app.
        by rewrite settledPromises_terminations, app_nil_r.
      * simpl. by destruct (terminateAll_sameTasks _ _ _ Hterm)
          as (_ & _ & _ & _ & _ & -> & _).
    + revert Hs3. destruct (terminatedPrefix_settled (workers s4) s4) as [Hl Hp].
      apply settledOnce_keep.
      * change (log (emit ThrowTypeError (terminatedPrefix (workers s4) s4)))
          with (log (terminatedPrefix (workers s4) s4) ++ [ThrowTypeError]).
        by rewrite settledPromises_app, Hl, app_nil_r.
      * change (promises (emit ThrowTypeError (terminatedPrefix (workers s4) s4)))
          with (promises (terminatedPrefix (workers s4) s4)).
        by rewrite Hp.
Qed.

(** Along every run, [resolve] or [reject] is called at most once on
    each promise handed out by [processImage], and a promise is settled
    exactly when one of them has been called on it: no call is made on a
    promise that is settled already, by any handler and in any order of
    events. *)
Theorem no_promise_is_settled_twice requested hc evs :
  let s := run (newWorkerPool requested hc) evs in
  NoDup (settledPromises (log s))
  ∧ (∀ p, p ∈ settledPromises (log s)
          ↔ ∃ r, promises s !! p = Some r ∧ isPending r = false)
  ∧ length (settledPromises (log s)) = length (settlements (log s)).
Proof.
  intros s.
  assert (settledOnce s) as [Hnd Hiff].
  { subst s. generalize (Core_new requested hc).
    assert (settledOnce (newWorkerPool requested hc)) as Hs0.
    { split; [apply NoDup_nil_2|]. intros p. simpl. split.
      - intros H. by apply not_elem_of_nil in H.
      - intros (r & Hr & _). by rewrite lookup_nil in Hr. }
    revert Hs0. generalize (newWorkerPool requested hc).
    induction evs as [|e evs IH]; intros s0 Hs0 Hc0; simpl; [done|].
    apply IH; [by apply settledOnce_step|by apply Core_step]. }
  split; [done|]. split; [done|].
  unfold settledPromises, settlements. generalize (log s). clear.
  induction l as [|a l IH]; [done|].
  rewrite filter_cons.
  destruct a; csimpl; (by rewrite IH) || done.
Qed.

(** ** What [getStats] counts *)

Lemma length_filter_ne (n : nat) (l : list nat) :
  length (filter (λ p, p ≠ n) l) ≤ length l
  ∧ (n ∈ l → length (filter (λ p, p ≠ n) l) < length l)
  ∧ (NoDup l → length l ≤ S (length (filter (λ p, p ≠ n) l)))
  ∧ (n ∉ l → filter (λ p, p ≠ n) l = l).
Proof.
  induction l as [|a l (IH1 & IH2 & IH3 & IH4)].
  - split; [done|]. split; [|split; [simpl; lia|done]].
    intros H. by apply not_elem_of_nil in H.
  - rewrite filter_cons. destruct (decide (a ≠ n)) as [Hne|Heq].
    + split; [simpl; lia|]. split; [|split].
      * intros [?|Hin]%elem_of_cons; [congruence|]. simpl. apply IH2 in Hin. lia.
      * intros [_ Hnd]%NoDup_cons. apply IH3 in Hnd. simpl. lia.
      * intros Hn. apply not_elem_of_cons in Hn as [_ Hn]. by rewrite IH4.
    + assert (a = n) as -> by (by destruct (decide (a = n)); [|exfalso; apply Heq]).
      split; [simpl; lia|]. split; [|split].
      * intros _. simpl. lia.
      * intros [Hn Hnd]%NoDup_cons. rewrite IH4 by done. simpl. lia.
      * intros Hn. exfalso. apply Hn, list_elem_of_here.
Qed.

Lemma pending_count_upper (ps : list PromiseState) : ∀ l : list nat,
  NoDup l → (∀ p, p ∈ l → ps !! p = Some Pending) →
  length l ≤ length (filter (λ x, isPending x = true) ps).
Proof.
  induction ps as [|x ps IH] using rev_ind; intros l Hnd Hall.
  - destruct l as [|p l]; [done|]. specialize (Hall p (list_elem_of_here _ _)).
    by rewrite lookup_nil in Hall.
  - set (n := length ps).
    destruct (length_filter_ne n l) as (_ & _ & H3 & H4).
    assert (length (filter (λ p, p ≠ n) l) ≤ length (filter (λ x, isPending x = true) ps))
      as Hle.
    { apply IH; [by apply NoDup_filter|].
      intros p [Hne Hin]%list_elem_of_filter. specialize (Hall p Hin).
      apply lookup_app_Some in Hall as [Hl|[Hge Hr]]; [done|].
      apply lookup_lt_Some in Hr. simpl in Hr. subst n. lia. }
    rewrite filter_app, length_app.
    destruct (decide (n ∈ l)) as [Hin|Hnot].
    + specialize (Hall n Hin). subst n. rewrite lookup_app_r, Nat.sub_diag in Hall by done.
      injection Hall as ->. rewrite filter_cons_True by done. simpl.
      specialize (H3 Hnd). lia.
    + rewrite H4 in Hle by done. lia.
Qed.

Lemma pending_count_lower (ps : list PromiseState) : ∀ l : list nat,
  (∀ p, ps !! p = Some Pending → p ∈ l) →
  length (filter (λ x, isPending x = true) ps) ≤ length l.
Proof.
  induction ps as [|x ps IH] using rev_ind; intros l Hall.
  - simpl. lia.
  - set (n := length ps).
    destruct (length_filter_ne n l) as (H1 & H2 & _ & _).
    assert (length (filter (λ x, isPending x = true) ps) ≤ length (filter (λ p, p ≠ n) l))
      as Hle.
    { apply IH. intros p Hp. apply list_elem_of_filter. split.
      - apply lookup_lt_Some in Hp. subst n. lia.
      - apply Hall. by rewrite lookup_app_l by (by eapply lookup_lt_Some). }
    rewrite filter_app, length_app.
    destruct x; rewrite ?filter_cons_True, ?filter_cons_False by done; simpl; try lia.
    assert (n ∈ l) as Hin.
    { apply Hall. subst n. by rewrite lookup_app_r, Nat.sub_diag by done. }
    apply H2 in Hin. lia.
Qed.

Lemma stats_are_live s :
  activeTasksCount (getStats s) + queuedTasks (getStats s) = length (live s).
Proof.
  unfold live, queuedPromises, activePromises. simpl.
  rewrite length_app, !length_fmap. lia.
Qed.

(** The two task counts of [getStats] never exceed the number of
    promises still pending: a task that was resolved or rejected is
    counted nowhere.  When the submitted task ids are distinct and
    workers report ['ready'] only while unbound, the counts add up to
    exactly the number of pending promises: every call of [processImage]
    that has not been answered yet is counted, as active or as queued. *)
Theorem stats_count_the_pending_tasks requested hc evs :
  let s := run (newWorkerPool requested hc) evs in
  activeTasksCount (getStats s) + queuedTasks (getStats s) ≤ pendingCount s
  ∧ (NoDup (submitted evs) →
     readyReportsUnbound (newWorkerPool requested hc) evs = true →
     activeTasksCount (getStats s) + queuedTasks (getStats s) = pendingCount s).
Proof.
  intros s.
  pose proof (Core_reachable requested hc evs) as Hc. fold s in Hc.
  assert (length (live s) ≤ pendingCount s) as Hle.
  { apply pending_count_upper; [apply (core_live s Hc)|apply (core_pending s Hc)]. }
  rewrite stats_are_live. split; [done|].
  intros Hids Hrdy.
  assert (Tidy s) as Ht.
  { apply Tidy_run; [apply Core_new|apply Tidy_new|done|done]. }
  apply Nat.le_antisymm; [done|].
  apply pending_count_lower, (tidy_pending s Ht).
Qed.

Lemma stats_count_the_pending_tasks_witness :
  let s := run (newWorkerPool 1 None)
             [EInitialize; EWorkerMessage 0 WorkerScript.readyMsg;
              EProcessImage 1 "a" "u1" None; EProcessImage 2 "b" "u2" None;
              EProcessImage 3 "c" "u3" None;
              EWorkerMessage 0 (WorkerScript.completeMsg 1 1 [])] in
  activeTasksCount (getStats s) = 1 ∧ queuedTasks (getStats s) = 1
  ∧ pendingCount s = 2.
Proof.
  intros s.
  pose (evs := [EInitialize; EWorkerMessage 0 WorkerScript.readyMsg;
                EProcessImage 1 "a" "u1" None; EProcessImage 2 "b" "u2" None;
                EProcessImage 3 "c" "u3" None;
                EWorkerMessage 0 (WorkerScript.completeMsg 1 1 [])]).
  assert (NoDup (submitted evs)) as Hids.
  { apply (bool_decide_unpack _). vm_compute. exact I. }
  assert (readyReportsUnbound (newWorkerPool 1 None) evs = true) as Hrdy
    by (vm_compute; reflexivity).
  destruct (stats_count_the_pending_tasks 1 None evs) as [_ Heq].
  specialize (Heq Hids Hrdy).
  change (activeTasksCount (getStats s) + queuedTasks (getStats s) = pendingCount s)
    in Heq.
  assert (activeTasksCount (getStats s) = 1) as Ha by (vm_compute; reflexivity).
  assert (queuedTasks (getStats s) = 1) as Hq by (vm_compute; reflexivity).
  split; [exact Ha|]. split; [exact Hq|]. rewrite <-Heq, Ha, Hq. reflexivity.
Defined.

(** ** A failed construction is reported twice *)

Lemma boundTo_single_split w m k t :
  NoDup m.*1 → boundTo w m = [(k, t)] →
  ∃ m1 m2, m = m1 ++ (k, t) :: m2 ∧ jsmap_delete k m = m1 ++ m2
           ∧ task_worker t = Some w ∧ boundTo w m1 = [] ∧ boundTo w m2 = [].
Proof.
  intros Hnd Hb.
  assert ((k, t) ∈ boundTo w m) as Hin by (rewrite Hb; apply list_elem_of_here).
  apply list_elem_of_filter in Hin as [Hw Hin]. simpl in Hw.
  destruct (jsmap_delete_split k t m Hnd Hin) as (m1 & m2 & -> & Hdel).
  exists m1, m2. split; [done|]. split; [done|]. split; [done|].
  rewrite boundTo_app, boundTo_cons, decide_True in Hb by done.
  destruct (boundTo w m1) as [|x l1]; [|destruct l1; simplify_eq/=].
  simpl in Hb. by injection Hb as ->.
Qed.

Lemma listening_set_busy w w' b s :
  listening w (set_busy w' b s) = listening w s.
Proof.
  unfold listening, set_busy. simpl.
  destruct (decide (w = w')) as [->|Hne].
  - rewrite list_lookup_alter_eq. by destruct (heap s !! w').
  - by rewrite list_lookup_alter_ne.
Qed.

(** When the model load awaited by a task's call of [getInstance]
    throws, the script posts two messages of status ['error'].  The pool
    rejects the worker's task on the first and hands the worker, now
    ready, the task at the head of the queue; the second then rejects
    that task as well, with the bare message, although the worker has
    not begun it. *)
Theorem failed_construction_rejects_the_next_task
    uevs c call message s w k t t2 rest :
  let st := urun initial uevs in
  calls st !! c = Some call → phase call = AwaitModel →
  Core s → listening w s = true →
  boundTo w (activeTasks s) = [(k, t)] → k ≠ "" →
  readyWorkers s = [] → taskQueue s = t2 :: rest →
  task_id t2 ≠ "" → task_id t2 ∉ (activeTasks s).*1 →
  let posted := drop (length (outbox st))
                  (outbox (ustep st (UModelSettled c (inl message)))) in
  let s' := run s (EWorkerMessage w <$> posted) in
  length posted = 2
  ∧ promises s' !! task_promise t
    = Some (Rejected (VErr ("Failed to load model: " +:+ message)))
  ∧ PostMessage w (taskMsg (setWorker w t2)) ∈ log s'
  ∧ promises s' !! task_promise t2 = Some (Rejected (VErr message)).
Proof.
  intros st Hc Hph Hcore Hl Hb Hk Hr Hq Hid Hfresh posted s'.
  assert (posted = [errorMsg ("Failed to load model: " +:+ message); errorMsg message])
    as Hposted.
  { assert (flagsAgree call) as Hflags.
    { assert (Forall flagsAgree (calls st)) as Hall
        by (apply flagsAgree_run; constructor).
      rewrite Forall_lookup in Hall. by apply (Hall c). }
    unfold flagsAgree in Hflags. rewrite Hph in Hflags.
    subst posted. simpl. rewrite Hc, Hph. simpl. unfold constructionError.
    rewrite Hflags, <-app_assoc. by rewrite drop_app_length. }
  subst s'. rewrite Hposted. split; [done|].
  change (run s _) with
    (step (step s (EWorkerMessage w (errorMsg ("Failed to load model: " +:+ message))))
       (EWorkerMessage w (errorMsg message))).
  set (e1 := errorMsg ("Failed to load model: " +:+ message)).
  destruct (boundTo_single_split w _ k t (core_keys s Hcore) Hb)
    as (m1 & m2 & Hm & Hdel & Hw & Hb1 & Hb2).
  assert (findTaskIdByWorker w (activeTasks s) = Some k) as Hfind.
  { rewrite Hm, findTaskIdByWorker_app.
    apply findTaskIdByWorker_None in Hb1 as ->. simpl. by rewrite decide_True. }
  assert (jsmap_get k (activeTasks s) = Some t) as Hget.
  { apply jsmap_get_unique; [apply Hcore|]. rewrite Hm.
    apply elem_of_app. right. apply list_elem_of_here. }
  assert (promises s !! task_promise t = Some Pending) as Hpt.
  { apply (core_pending s Hcore). unfold live, activePromises. apply elem_of_app. right.
    apply list_elem_of_fmap. exists (k, t). split; [done|]. by apply jsmap_get_elem. }
  assert (promises s !! task_promise t2 = Some Pending) as Hpt2.
  { apply (core_pending s Hcore). unfold live, queuedPromises. apply elem_of_app. left.
    rewrite Hq. apply list_elem_of_here. }
  assert (task_promise t ≠ task_promise t2) as Hne.
  { pose proof (core_live s Hcore) as Hlive. unfold live in Hlive.
    apply NoDup_app in Hlive as (_ & Hdisj & _). intros Heq.
    apply (Hdisj (task_promise t2)).
    - unfold queuedPromises. rewrite Hq. apply list_elem_of_here.
    - unfold activePromises. apply list_elem_of_fmap. exists (k, t).
      split; [done|]. by apply jsmap_get_elem. }
  set (s1 := step s (EWorkerMessage w e1)).
  assert (s1 = executeTask t2 w
            (with_readyWorkers [] (with_taskQueue rest
              (rejectTask t (VErr ("Failed to load model: " +:+ message))
                 (with_activeTasks (m1 ++ m2)
                    (with_readyWorkers [w] (set_busy w false s))))))) as Hs1.
  { subst s1.
    change (step s (EWorkerMessage w e1))
      with (if listening w s then handleWorkerMessage w e1 s else s).
    rewrite Hl.
    rewrite handleWorkerMessage_settled by (by right).
    rewrite (release_bound w e1 s k t Hfind Hk Hget). cbv zeta.
    change (isStr (getField "status" e1) "complete") with false. cbv iota.
    rewrite Hr, Hdel.
    change (jsset_add w []) with [w].
    change (newError (getField "error" e1))
      with (VErr ("Failed to load model: " +:+ message)).
    set (X := rejectTask _ _ _).
    assert (taskQueue X = t2 :: rest) as HqX.
    { subst X. by destruct (rejectTask_shape t (VErr ("Failed to load model: " +:+ message))
        (with_activeTasks (m1 ++ m2) (with_readyWorkers [w] (set_busy w false s))))
        as (_ & _ & -> & _). }
    assert (readyWorkers X = [w]) as HrX.
    { subst X. by destruct (rejectTask_shape t (VErr ("Failed to load model: " +:+ message))
        (with_activeTasks (m1 ++ m2) (with_readyWorkers [w] (set_busy w false s))))
        as (_ & _ & _ & _ & -> & _). }
    rewrite (processQueue_dispatch X t2 rest w [] HqX HrX).
    unfold dispatchHead. rewrite HrX.
    assert (jsset_delete w [w] = []) as ->.
    { unfold jsset_delete. by rewrite filter_cons_False by (intros H; by apply H). }
    done. }
  assert (promises s1 = <[task_promise t := Rejected (VErr ("Failed to load model: " +:+ message))]>
                          (promises s)) as Hp1.
  { rewrite Hs1. unfold executeTask, rejectTask, settle. simpl. by rewrite Hpt. }
  assert (activeTasks s1 = (m1 ++ m2) ++ [(task_id t2, setWorker w t2)]) as Ha1.
  { rewrite Hs1. unfold executeTask. cbv zeta.
    change (activeTasks (emit ?a (with_activeTasks ?m ?x))) with m.
    change (task_id (setWorker w t2)) with (task_id t2).
    replace (activeTasks (set_busy w true _)) with (m1 ++ m2).
    - apply jsmap_set_fresh. intros Hin. apply Hfresh. rewrite Hm.
      rewrite fmap_app, fmap_cons. rewrite fmap_app in Hin.
      apply elem_of_app in Hin as [?|?]; apply elem_of_app; [by left|right].
      by apply list_elem_of_further.
    - unfold rejectTask, settle. simpl. by rewrite Hpt. }
  assert (listening w s1 = true) as Hl1.
  { rewrite Hs1. unfold executeTask. cbv zeta.
    change (listening w (emit ?a (with_activeTasks ?m ?x))) with (listening w x).
    rewrite listening_set_busy.
    change (listening w (with_readyWorkers ?a (with_taskQueue ?b ?x)))
      with (listening w x).
    unfold rejectTask, settle. simpl. rewrite Hpt.
    change (listening w (with_promises ?a (emit ?b (with_activeTasks ?c
              (with_readyWorkers ?d ?x))))) with (listening w x).
    by rewrite listening_set_busy. }
  assert (Core s1) as Hcore1 by (by apply Core_step).
  assert (findTaskIdByWorker w (activeTasks s1) = Some (task_id t2)) as Hfind1.
  { rewrite Ha1, findTaskIdByWorker_app.
    assert (findTaskIdByWorker w (m1 ++ m2) = None) as ->
      by (by apply findTaskIdByWorker_None; rewrite boundTo_app, Hb1, Hb2).
    simpl. by rewrite decide_True. }
  assert (jsmap_get (task_id t2) (activeTasks s1) = Some (setWorker w t2)) as Hget1.
  { apply jsmap_get_unique; [apply Hcore1|]. rewrite Ha1.
    apply elem_of_app. right. apply list_elem_of_here. }
  assert (PostMessage w (taskMsg (setWorker w t2)) ∈ log s1) as Hpost.
  { rewrite Hs1. unfold executeTask. simpl. apply elem_of_app. right.
    apply list_elem_of_here. }
  set (e2 := errorMsg message).
  assert (step s1 (EWorkerMessage w e2)
          = processQueue (rejectTask (setWorker w t2) (VErr message)
              (with_activeTasks (jsmap_delete (task_id t2) (activeTasks s1))
                 (with_readyWorkers (jsset_add w (readyWorkers s1))
                    (set_busy w false s1))))) as ->.
  { simpl. rewrite Hl1. rewrite handleWorkerMessage_settled by (by right).
    by rewrite (release_bound w e2 s1 _ _ Hfind1 Hid Hget1). }
  rewrite processQueue_promises, processQueue_log.
  assert (promises s1 !! task_promise t2 = Some Pending) as Hpt2'.
  { rewrite Hp1, list_lookup_insert_ne by done. done. }
  split; [|split].
  - rewrite rejectTask_other by done. simpl.
    rewrite Hp1. apply list_lookup_insert_eq. by eapply lookup_lt_Some.
  - apply elem_of_app. left. rewrite rejectTask_log. simpl.
    apply elem_of_app. by left.
  - unfold rejectTask, settle. simpl. rewrite Hpt2'. simpl.
    apply list_lookup_insert_eq. by eapply lookup_lt_Some.
Qed.


Lemma failed_construction_rejects_the_next_task_witness :
  let s := run (newWorkerPool 1 None)
             [EInitialize;
              EWorkerMessage 0 (errorMsg "Failed to load model: offline");
              EWorkerMessage 0 (errorMsg "offline");
              EProcessImage 1 "a" "u1" None; EProcessImage 2 "b" "u2" None] in
  let s' := run s [EWorkerMessage 0 (errorMsg "Failed to load model: offline");
                   EWorkerMessage 0 (errorMsg "offline")] in
  taskQueue s = [mkTask "task_2_b" "u2" 1 None None]
  ∧ promises s' !! 0 = Some (Rejected (VErr "Failed to load model: offline"))
  ∧ promises s' !! 1 = Some (Rejected (VErr "offline")).
Proof.
  intros s s'.
  pose (uevs := [UMessage initMsg; UModelSettled 0 (inl "offline");
                 UMessage (taskMsg (mkTask "task_1_a" "u1" 0 None (Some 0)))]).
  pose (call := mkCall (DTask (VStr "u1")) AwaitModel false false).
  pose (t := mkTask "task_1_a" "u1" 0 None (Some 0)).
  pose (t2 := mkTask "task_2_b" "u2" 1 None None).
  assert (calls (urun initial uevs) !! 1 = Some call) as Hc
    by (vm_compute; reflexivity).
  assert (Core s) as Hcore by apply Core_reachable.
  assert (listening 0 s = true) as Hl by (vm_compute; reflexivity).
  assert (boundTo 0 (activeTasks s) = [("task_1_a", t)]) as Hb
    by (vm_compute; reflexivity).
  assert (readyWorkers s = []) as Hr by (vm_compute; reflexivity).
  assert (taskQueue s = [t2]) as Hq by (vm_compute; reflexivity).
  assert (task_id t2 ∉ (activeTasks s).*1) as Hfresh.
  { apply (bool_decide_unpack _). vm_compute. exact I. }
  destruct (failed_construction_rejects_the_next_task uevs 1 call "offline"
              s 0 "task_1_a" t t2 [] Hc eq_refl Hcore Hl Hb
              ltac:(discriminate) Hr Hq ltac:(discriminate) Hfresh)
    as (_ & Ht & _ & Ht2).
  split; [exact Hq|]. split.
  - vm_compute in Ht. vm_compute. exact Ht.
  - vm_compute in Ht2. vm_compute. exact Ht2.
Defined.

(** ** Tasks left on a terminated worker *)

Lemma wasTerminated_alter f w' w s s' :
  (∀ o, worker_terminated o = true → worker_terminated (f o) = true) →
  heap s' = alter f w' (heap s) → wasTerminated w s → wasTerminated w s'.
Proof.
  intros Hf Hh. unfold wasTerminated. rewrite Hh, list_lookup_alter.
  destruct (heap s !! w) as [o|] eqn:Ho; [|done]. simpl. intros [= Ht].
  case_decide as Hw; [subst w'; rewrite Ho|]; simpl; [f_equal; by apply Hf|by rewrite Ht].
Qed.

Lemma wasTerminated_app l w s s' :
  heap s' = heap s ++ l → wasTerminated w s → wasTerminated w s'.
Proof.
  intros Hh. unfold wasTerminated. rewrite Hh.
  destruct (heap s !! w) as [o|] eqn:Ho; [|done].
  by rewrite (lookup_app_l_Some _ _ _ _ Ho).
Qed.

Lemma wasTerminated_same w s s' :
  heap s' = heap s → wasTerminated w s → wasTerminated w s'.
Proof. unfold wasTerminated. by intros ->. Qed.

Lemma wasTerminated_not_listening w s : wasTerminated w s → listening w s = false.
Proof.
  unfold wasTerminated, listening. destruct (heap s !! w) as [o|]; [|done].
  simpl. by intros [= ->].
Qed.

Lemma jsmap_set_other {V} (k k' : string) (v v' : V) m :
  k ≠ k' → (k, v) ∈ m → (k, v) ∈ jsmap_set k' v' m.
Proof.
  intros Hne. induction m as [|[k0 v0] m IH]; csimpl.
  - intros H. by apply not_elem_of_nil in H.
  - intros [Heq|Hin]%elem_of_cons.
    + injection Heq as <- <-. rewrite decide_False by done. apply list_elem_of_here.
    + case_decide; apply list_elem_of_further; [done|by apply IH].
Qed.

Lemma jsmap_delete_other {V} (k k' : string) (v : V) m :
  k ≠ k' → (k, v) ∈ m → (k, v) ∈ jsmap_delete k' m.
Proof. intros Hne Hin. by apply list_elem_of_filter. Qed.

Lemma jsmap_value_unique {V} (k : string) (v v' : V) m :
  NoDup m.*1 → (k, v) ∈ m → (k, v') ∈ m → v = v'.
Proof.
  intros Hnd H1 H2. apply (jsmap_get_unique _ _ _ Hnd) in H1, H2. congruence.
Qed.

Lemma stranded_processQueue k t w s :
  stranded k t w s → k ∉ queuedIds s →
  stranded k t w (processQueue s) ∧ k ∉ queuedIds (processQueue s).
Proof.
  intros (Hin & Hw & Hterm) Hq.
  destruct (processQueue_either s) as [[_ ->]|(t' & rest & w' & ws & Hq' & _ & ->)];
    [done|].
  unfold queuedIds in *. rewrite Hq', fmap_cons, not_elem_of_cons in Hq.
  destruct Hq as [Hne Hrest]. split; [|done]. split; [|split; [done|]].
  - unfold dispatchHead, executeTask. simpl. by apply jsmap_set_other.
  - revert Hterm.
    by apply (wasTerminated_alter (λ o, mkWorker (worker_id o) true (worker_terminated o)) w').
Qed.

Lemma stranded_release k t w w' data s :
  Core s → w' ≠ w → stranded k t w s →
  stranded k t w (release w' data s).
Proof.
  intros Hc Hne (Hin & Hw & Hterm). split; [|split; [done|]].
  - unfold release. cbv zeta.
    destruct (boundTask _ _) as [[k' t']|] eqn:Hb; [|done].
    apply boundTask_Some in Hb as (Hfind & _ & Hget).
    apply findTaskIdByWorker_Some in Hfind as (t'' & Hin' & Hw').
    assert (k ≠ k') as Hk.
    { intros <-. pose proof (jsmap_value_unique _ _ _ _ (core_keys s Hc) Hin Hin') as <-.
      congruence. }
    case_match.
    + match goal with
      | |- context [resolveTask t' data ?X] =>
          destruct (resolveTask_shape t' data X) as (_ & _ & _ & -> & _)
      end. by apply jsmap_delete_other.
    + match goal with
      | |- context [rejectTask t' ?e ?X] =>
          destruct (rejectTask_shape t' e X) as (_ & _ & _ & -> & _)
      end. by apply jsmap_delete_other.
  - destruct (release_frame w' data s) as (_ & _ & _ & _ & Hh). revert Hterm.
    by apply (wasTerminated_alter (λ o, mkWorker (worker_id o) false (worker_terminated o)) w').
Qed.

Lemma stranded_step k t w s e :
  Core s → stranded k t w s → k ∉ queuedIds s →
  e ≠ ETerminate → k ∉ submitted [e] →
  stranded k t w (step s e) ∧ k ∉ queuedIds (step s e).
Proof.
  intros Hc Hs Hq He Hsub.
  destruct e as [|now rnd url cb|w' data|w' err|w'|]; simpl; [| | | | |done].
  - destruct Hs as (Hin & Hw & Hterm).
    destruct (initialize_sameTasks s (core_flag s Hc)) as (_ & Hq' & Ha' & _).
    unfold queuedIds, stranded. rewrite Hq', Ha'. split; [|done].
    split; [done|]. split; [done|]. revert Hterm.
    rewrite initialize_unfold by apply Hc.
    apply (wasTerminated_app ((λ i, mkWorker i false false) <$> seq 0 (maxWorkers s))).
    simpl. by rewrite spawn_heap.
  - apply stranded_processQueue.
    + destruct Hs as (Hin & Hw & Hterm). by split.
    + unfold queuedIds, enqueue. simpl. rewrite fmap_app. simpl.
      intros [?|Heq%list_elem_of_singleton]%elem_of_app; [done|].
      apply Hsub. simpl. rewrite <-Heq. apply list_elem_of_here.
  - destruct (listening w' s) eqn:Hl; [|done].
    assert (w' ≠ w) as Hne.
    { intros ->. destruct Hs as (_ & _ & Hterm).
      apply wasTerminated_not_listening in Hterm. congruence. }
    unfold handleWorkerMessage. repeat case_match.
    + destruct Hs as (Hin & Hw & Hterm). by repeat split.
    + apply stranded_processQueue; [|done]. destruct Hs as (Hin & Hw & Hterm). by split.
    + apply stranded_processQueue; [by apply stranded_release|].
      unfold queuedIds. by destruct (release_frame w' data s) as (-> & _).
    + split; [|unfold forward; by repeat case_match].
      destruct Hs as (Hin & Hw & Hterm). unfold forward. by repeat case_match.
  - destruct (listening w' s) eqn:Hl; [|done].
    assert (w' ≠ w) as Hne.
    { intros ->. destruct Hs as (_ & _ & Hterm).
      apply wasTerminated_not_listening in Hterm. congruence. }
    rewrite handleWorkerError_closed by apply Hc.
    set (s2 := with_readyWorkers _ _).
    pose proof (rejectAll_shape err (snd <$> boundTo w' (activeTasks s)) s2)
      as (_ & _ & Hq2 & _ & _ & _ & Hh2 & _).
    destruct Hs as (Hin & Hw & Hterm). split.
    + split; [|split; [done|]].
      * simpl. apply list_elem_of_filter. split; [|done]. simpl. congruence.
      * revert Hterm.
        apply (wasTerminated_alter (λ o, mkWorker (worker_id o) false (worker_terminated o)) w');
          [done|]. simpl. by rewrite Hh2.
    + unfold queuedIds. simpl. by rewrite Hq2.
  - case_decide; [|done]. destruct Hs as (Hin & Hw & Hterm). split; [|done].
    split; [done|]. split; [done|].
    set (s0 := with_timers _ s).
    apply (wasTerminated_app [mkWorker (idOf w' (terminateWorker w' s0)) false false]
             w (terminateWorker w' s0)); [done|].
    revert Hterm.
    by apply (wasTerminated_alter (λ o, mkWorker (worker_id o) (worker_busy o) true) w').
Qed.

(** A task bound to a worker that was terminated stays in the active
    map with its promise pending, whatever happens next, until
    [terminate] is called on the pool: the replaced worker's listeners no
    longer run, and no other handler touches the task.  [restartWorker]
    terminates a worker without looking for tasks bound to it, so a task
    dispatched to a faulted worker before its restart timer fires is left
    in this state. *)
Theorem task_on_terminated_worker_is_never_settled k t w s evs :
  Core s → stranded k t w s → k ∉ queuedIds s →
  ETerminate ∉ evs → k ∉ submitted evs →
  let s' := run s evs in
  stranded k t w s' ∧ promises s' !! task_promise t = Some Pending.
Proof.
  intros Hc Hs Hq Hterm Hsub s'.
  assert (Core s' ∧ stranded k t w s') as [Hc' Hs'].
  { subst s'. revert s Hc Hs Hq.
    induction evs as [|e evs IH]; intros s Hc Hs Hq; [done|].
    change (run s (e :: evs)) with (run (step s e) evs).
    apply not_elem_of_cons in Hterm as [He Hterm].
    replace (submitted (e :: evs)) with (submitted [e] ++ submitted evs) in Hsub
      by (by rewrite <-submitted_app).
    apply not_elem_of_app in Hsub as [Hsub1 Hsub2].
    destruct (stranded_step k t w s e Hc Hs Hq) as [Hs1 Hq1]; [congruence|done|].
    apply IH; [done|done|by apply Core_step|done|done]. }
  split; [done|].
  apply (core_pending s' Hc'). unfold live, activePromises. apply elem_of_app. right.
  apply list_elem_of_fmap. exists (k, t). split; [done|]. apply Hs'.
Qed.

Lemma task_on_terminated_worker_is_never_settled_witness :
  let s := run (newWorkerPool 1 None)
             [EInitialize; EWorkerMessage 0 readyMsg;
              EProcessImage 1 "a" "u1" None; EProcessImage 2 "b" "u2" None;
              EWorkerError 0 (VErr "boom"); EWorkerMessage 0 (errorMsg "boom");
              ERestartTimer 0] in
  let s' := run s [EWorkerMessage 1 readyMsg; EWorkerMessage 0 (completeMsg 1 1 []);
                   EProcessImage 3 "c" "u3" None;
                   EWorkerMessage 1 (completeMsg 1 1 [])] in
  workers s = [Some 1]
  ∧ activeTasks s' = [("task_2_b", mkTask "task_2_b" "u2" 1 None (Some 0))]
  ∧ promises s' !! 1 = Some Pending.
Proof.
  intros s s'.
  pose (t := mkTask "task_2_b" "u2" 1 None (Some 0)).
  pose (evs := [EWorkerMessage 1 readyMsg; EWorkerMessage 0 (completeMsg 1 1 []);
                EProcessImage 3 "c" "u3" None;
                EWorkerMessage 1 (completeMsg 1 1 [])]).
  assert (Core s) as Hcore by apply Core_reachable.
  assert (activeTasks s = [("task_2_b", t)]) as Ha by (vm_compute; reflexivity).
  assert (wasTerminated 0 s) as Hterm by (vm_compute; reflexivity).
  assert (stranded "task_2_b" t 0 s) as Hs.
  { split; [rewrite Ha; apply list_elem_of_here|]. split; [reflexivity|exact Hterm]. }
  assert (queuedIds s = []) as Hq by (vm_compute; reflexivity).
  assert ("task_2_b" ∉ queuedIds s) as Hnq by (rewrite Hq; apply not_elem_of_nil).
  assert (ETerminate ∉ evs) as Hnt.
  { subst evs. repeat (apply not_elem_of_cons; split; [discriminate|]).
    apply not_elem_of_nil. }
  assert ("task_2_b" ∉ submitted evs) as Hsub.
  { apply (bool_decide_unpack _). vm_compute. exact I. }
  destruct (task_on_terminated_worker_is_never_settled "task_2_b" t 0 s evs
              Hcore Hs Hnq Hnt Hsub) as [_ Hp].
  assert (workers s = [Some 1]) as Hw by (vm_compute; reflexivity).
  assert (activeTasks s' = [("task_2_b", t)]) as Ha' by (vm_compute; reflexivity).
  split; [exact Hw|]. split; [exact Ha'|]. exact Hp.
Defined.

Lemma jsmap_set_elem {V} (k : string) (v : V) m : (k, v) ∈ jsmap_set k v m.
Proof.
  induction m as [|[k0 v0] m IH]; csimpl; [apply list_elem_of_here|].
  case_decide; [apply list_elem_of_here|by apply list_elem_of_further].
Qed.

(** [restartWorker] terminates the old worker without removing it from
    the ready set.  When the worker is at the head of the ready set as its
    restart timer fires, it is still there afterwards, and the next call
    of [processImage] binds its task to the terminated worker and posts
    the task to it. *)
Theorem restarted_worker_stays_in_ready_set s w ws now rnd url cb :
  w ∈ timers s → w < length (heap s) →
  readyWorkers s = w :: ws → taskQueue s = [] →
  let s1 := step s (ERestartTimer w) in
  let s2 := step s1 (EProcessImage now rnd url cb) in
  let t := mkTask (taskIdOf now rnd) url (length (promises s)) cb (Some w) in
  wasTerminated w s1 ∧ readyWorkers s1 = w :: ws
  ∧ stranded (taskIdOf now rnd) t w s2
  ∧ last (log s2) = Some (PostMessage w (taskMsg t)).
Proof.
  intros Htimer Hlt Hr Hq s1 s2 t.
  destruct (lookup_lt_is_Some_2 _ _ Hlt) as [o Ho].
  assert (s1 = restartWorker w (with_timers (remove_first w (timers s)) s)) as Hs1.
  { subst s1. simpl. by rewrite decide_True. }
  assert (wasTerminated w s1) as Hterm.
  { rewrite Hs1. unfold wasTerminated, restartWorker, terminateWorker. simpl.
    rewrite lookup_app_l by (by rewrite length_alter).
    by rewrite list_lookup_alter_eq, Ho. }
  assert (readyWorkers s1 = w :: ws) as Hr1 by (by rewrite Hs1).
  assert (taskQueue s1 = []) as Hq1 by (by rewrite Hs1).
  assert (promises s1 = promises s) as Hp1 by (by rewrite Hs1).
  split; [done|]. split; [done|].
  assert (s2 = dispatchHead (mkTask (taskIdOf now rnd) url (length (promises s)) cb None)
                 [] w (enqueue now rnd url cb s1)) as Hs2.
  { subst s2. simpl. unfold processImage.
    apply processQueue_dispatch with (ws := ws).
    - unfold enqueue. simpl. by rewrite Hq1, Hp1.
    - unfold enqueue. simpl. by rewrite Hr1. }
  rewrite Hs2. split; [split; [|split; [done|]]|].
  - unfold dispatchHead, executeTask. simpl. apply jsmap_set_elem.
  - revert Hterm.
    by apply (wasTerminated_alter (λ o, mkWorker (worker_id o) true (worker_terminated o)) w).
  - unfold dispatchHead, executeTask. simpl. by rewrite last_snoc.
Qed.

Lemma restarted_worker_stays_in_ready_set_witness :
  let s := run (newWorkerPool 1 None)
             [EInitialize; EWorkerMessage 0 readyMsg; EWorkerError 0 (VErr "boom");
              EWorkerMessage 0 readyMsg] in
  let s2 := run s [ERestartTimer 0; EProcessImage 1 "a" "u1" None] in
  timers s = [0]
  ∧ stranded "task_1_a" (mkTask "task_1_a" "u1" 0 None (Some 0)) 0 s2
  ∧ last (log s2)
    = Some (PostMessage 0 (taskMsg (mkTask "task_1_a" "u1" 0 None (Some 0)))).
Proof.
  intros s s2.
  assert (timers s = [0]) as Ht by (vm_compute; reflexivity).
  assert (0 ∈ timers s) as Hin by (rewrite Ht; apply list_elem_of_here).
  assert (0 < length (heap s)) as Hlt by (vm_compute; lia).
  assert (readyWorkers s = [0]) as Hr by (vm_compute; reflexivity).
  assert (taskQueue s = []) as Hq by (vm_compute; reflexivity).
  destruct (restarted_worker_stays_in_ready_set s 0 [] 1 "a" "u1" None Hin Hlt Hr Hq)
    as (_ & _ & Hs & Hlast).
  assert (promises s = []) as Hp by (vm_compute; reflexivity).
  rewrite Hp in Hs, Hlast.
  split; [exact Ht|]. split; [exact Hs|exact Hlast].
Defined.

(** ** A reply settles the task that was posted *)

Lemma dispatched_assignments l : dispatched l = snd <$> assignments l.
Proof.
  induction l as [|a l IH]; [done|].
  destruct a as [w msg| | | | | |]; csimpl; try done.
  destruct (getField "taskId" msg); csimpl; by rewrite ?IH.
Qed.

Lemma assignments_quiet s s' :
  extendsQuietly s s' → assignments (log s') = assignments (log s).
Proof.
  intros (l & -> & Hl). rewrite assignments_app.
  rewrite dispatched_assignments in Hl. apply fmap_nil_inv in Hl as ->.
  by rewrite app_nil_r.
Qed.

Lemma jsmap_set_elem_inv {V} (k k' : string) (v v' : V) m :
  (k', v') ∈ jsmap_set k v m → (k', v') = (k, v) ∨ (k', v') ∈ m.
Proof.
  induction m as [|[k0 v0] m IH]; csimpl.
  - intros ->%list_elem_of_singleton. by left.
  - case_decide.
    + intros [->|Hin]%elem_of_cons; [by left|]. right. by apply list_elem_of_further.
    + intros [->|Hin]%elem_of_cons; [right; apply list_elem_of_here|].
      destruct (IH Hin) as [?|?]; [by left|]. right. by apply list_elem_of_further.
Qed.

Lemma release_active_sub w data s :
  activeTasks (release w data s) `sublist_of` activeTasks s.
Proof.
  unfold release. cbv zeta. destruct (boundTask _ _) as [[k t]|]; [|done].
  case_match.
  - match goal with
    | |- context [resolveTask t data ?X] =>
        destruct (resolveTask_shape t data X) as (_ & _ & _ & -> & _)
    end. apply jsmap_delete_sublist.
  - match goal with
    | |- context [rejectTask t ?e ?X] =>
        destruct (rejectTask_shape t e X) as (_ & _ & _ & -> & _)
    end. apply jsmap_delete_sublist.
Qed.

Lemma answersLast_shrink s s' :
  answersLast s → (∀ kt, kt ∈ activeTasks s' → kt ∈ activeTasks s) →
  assignments (log s') = assignments (log s) → answersLast s'.
Proof.
  intros Ha Hsub Hl w k t Hin Hw. rewrite Hl. by apply (Ha w k t); [apply Hsub|].
Qed.

Lemma answersLast_dispatchHead t rest w ws s :
  taskQueue s = t :: rest → readyWorkers s = w :: ws →
  Tidy s → NoDup (heldIds s) → answersLast s →
  answersLast (dispatchHead t rest w s).
Proof.
  intros Hq Hr Ht Hnd Ha.
  assert (task_id t ∉ (activeTasks s).*1) as Hfresh.
  { unfold heldIds, queuedIds in Hnd. apply NoDup_app in Hnd as (_ & Hdisj & _).
    apply Hdisj. rewrite Hq. apply list_elem_of_here. }
  assert (boundTo w (activeTasks s) = []) as Hfree.
  { apply (tidy_ready s Ht). rewrite Hr. apply list_elem_of_here. }
  assert (activeTasks (dispatchHead t rest w s)
          = activeTasks s ++ [(task_id t, setWorker w t)]) as Hact.
  { unfold dispatchHead, executeTask. simpl. by apply jsmap_set_fresh. }
  assert (assignments (log (dispatchHead t rest w s))
          = assignments (log s) ++ [(w, task_id t)]) as Hlog.
  { unfold dispatchHead, executeTask. simpl. by rewrite assignments_app. }
  intros w' k' t' Hin Hw'. rewrite Hlog. unfold lastTo. rewrite filter_app.
  rewrite Hact in Hin. apply elem_of_app in Hin as [Hin|Hin%list_elem_of_singleton].
  - assert (w' ≠ w) as Hne.
    { intros ->. assert ((k', t') ∈ boundTo w (activeTasks s)) as Hb
        by (by apply list_elem_of_filter).
      rewrite Hfree in Hb. by apply not_elem_of_nil in Hb. }
    rewrite filter_cons_False by (simpl; congruence).
    rewrite filter_nil, app_nil_r. by apply (Ha w' k' t').
  - injection Hin as -> ->. simpl in Hw'. injection Hw' as <-.
    rewrite filter_cons_True by done. by rewrite filter_nil, last_snoc.
Qed.

Lemma answersLast_processQueue s :
  Tidy s → NoDup (heldIds s) → answersLast s → answersLast (processQueue s).
Proof.
  intros Ht Hnd Ha.
  destruct (processQueue_either s) as [[_ ->]|(t & rest & w & ws & Hq & Hr & ->)];
    [done|]. by eapply answersLast_dispatchHead.
Qed.

Lemma answersLast_step s e rest :
  Core s → Tidy s → NoDup (heldIds s ++ submitted (e :: rest)) →
  readyWhileUnbound s e = true →
  answersLast s → answersLast (step s e).
Proof.
  intros Hc Ht Hnd Hrdy Ha.
  assert (NoDup (heldIds s)) as Hheld by (by apply NoDup_app in Hnd as (? & _)).
  destruct e as [|now rnd url cb|w data|w err|w|]; simpl step.
  - apply (answersLast_shrink s); [done| |by apply assignments_quiet, initialize_quiet, Hc].
    by destruct (initialize_sameTasks s (core_flag s Hc)) as (_ & _ & -> & _).
  - unfold processImage.
    destruct (Tidy_enqueue now rnd url cb s Hc Ht) as [Ht1 Hperm1].
    apply answersLast_processQueue; [done| |by apply (answersLast_shrink s)].
    rewrite Hperm1.
    change (submitted (EProcessImage now rnd url cb :: rest))
      with (taskIdOf now rnd :: submitted rest) in Hnd.
    rewrite <-Permutation_middle in Hnd.
    change (taskIdOf now rnd :: heldIds s ++ submitted rest)
      with ((taskIdOf now rnd :: heldIds s) ++ submitted rest) in Hnd.
    by apply NoDup_app in Hnd as (? & _).
  - case_match eqn:Hl; [|done]. unfold handleWorkerMessage.
    destruct (nullish data) eqn:Hnull.
    { apply (answersLast_shrink s); [done|done|]. simpl.
      by rewrite assignments_app, app_nil_r. }
    simpl in Hrdy. rewrite Hl in Hrdy. simpl in Hrdy.
    destruct (isStr (getField "status" data) "ready") eqn:Hst.
    + apply bool_decide_eq_true in Hrdy.
      apply answersLast_processQueue;
        [by apply Tidy_markReady|done|by apply (answersLast_shrink s)].
    + case_match.
      * destruct (Tidy_release w data s Hc Ht) as [Ht1 Hsub].
        apply answersLast_processQueue; [done|by eapply sublist_NoDup|].
        apply (answersLast_shrink s); [done| |apply assignments_quiet, release_quiet].
        intros kt Hin. eapply elem_of_sublist; [done|apply release_active_sub].
      * apply (answersLast_shrink s); [done| |apply assignments_quiet, forward_frame].
        unfold forward. by repeat case_match.
  - case_match; [|done].
    apply (answersLast_shrink s);
      [done| |by apply assignments_quiet, handleWorkerError_frame, Hc].
    rewrite handleWorkerError_closed by apply Hc. simpl.
    intros kt Hin. by apply list_elem_of_filter in Hin as [_ ?].
  - case_decide; [|done]. apply (answersLast_shrink s); [done|done|].
    unfold restartWorker, terminateWorker. simpl.
    by rewrite !assignments_app, !app_nil_r.
  - apply (answersLast_shrink s); [done| |apply assignments_quiet, terminate_quiet].
    destruct (terminate_tasks s) as (_ & -> & _). intros kt Hin.
    by apply not_elem_of_nil in Hin.
Qed.

Lemma answersLast_run evs : ∀ s,
  Core s → Tidy s → NoDup (heldIds s ++ submitted evs) →
  readyReportsUnbound s evs = true →
  answersLast s → answersLast (run s evs).
Proof.
  induction evs as [|e evs IH]; intros s Hc Ht Hnd Hrdy Ha; simpl; [done|].
  simpl in Hrdy. apply andb_prop in Hrdy as [He Hrest].
  destruct (Tidy_step s e evs Hc Ht Hnd He) as [Ht1 Hnd1].
  apply IH; [by apply Core_step|done|done|done|by eapply answersLast_step].
Qed.

Lemma tracked_shrink subs s s' :
  tracked subs s → length (promises s') = length (promises s) →
  (∀ t, t ∈ taskQueue s' → t ∈ taskQueue s) →
  (∀ kt, kt ∈ activeTasks s' → kt ∈ activeTasks s) →
  tracked subs s'.
Proof.
  intros (Hlen & Hq & Ha) Hp Hsq Hsa. split; [congruence|]. split.
  - intros t Hin. by apply Hq, Hsq.
  - intros k t Hin. by apply Ha, Hsa.
Qed.

Lemma tracked_processQueue subs s : tracked subs s → tracked subs (processQueue s).
Proof.
  intros (Hlen & Hq & Ha).
  destruct (processQueue_either s) as [[_ ->]|(t & rest & w & ws & Hq' & Hr & ->)];
    [done|].
  split; [done|]. split.
  - intros t' Hin. apply Hq. rewrite Hq'. by apply list_elem_of_further.
  - intros k' t' Hin. unfold dispatchHead, executeTask in Hin. simpl in Hin.
    apply jsmap_set_elem_inv in Hin as [Heq|Hin]; [|by apply Ha].
    injection Heq as -> ->. split; [done|]. simpl. apply Hq. rewrite Hq'.
    apply list_elem_of_here.
Qed.

Lemma rejectAll_promises_length e ts : ∀ s,
  length (promises (foldl (λ acc t, rejectTask t e acc) s ts)) = length (promises s).
Proof.
  induction ts as [|t ts IH]; intros s; [done|]. cbn [foldl]. rewrite IH.
  unfold rejectTask. by rewrite settle_length.
Qed.

Lemma release_promises_length w data s :
  length (promises (release w data s)) = length (promises s).
Proof.
  unfold release. cbv zeta. destruct (boundTask _ _) as [[k t]|]; [|done].
  case_match; unfold resolveTask, rejectTask; by rewrite settle_length.
Qed.

Lemma terminate_promises_length s :
  length (promises (terminate s)) = length (promises s).
Proof.
  unfold terminate.
  set (s1 := foldl _ s (taskQueue s)). set (s2 := with_taskQueue [] s1).
  set (s3 := foldl _ s2 _). set (s4 := with_activeTasks [] s3).
  assert (length (promises s4) = length (promises s)) as <-.
  { change (promises s4) with (promises s3). subst s3.
    rewrite rejectAll_promises_length. change (promises s2) with (promises s1).
    subst s1. apply rejectAll_promises_length. }
  destruct (terminateAll (workers s4) s4) as [s5|] eqn:Hterm.
  - simpl. by destruct (terminateAll_sameTasks _ _ _ Hterm)
      as (_ & _ & _ & _ & _ & -> & _).
  - destruct (terminatedPrefix_settled (workers s4) s4) as [_ Hp].
    change (promises (emit ThrowTypeError (terminatedPrefix (workers s4) s4)))
      with (promises (terminatedPrefix (workers s4) s4)).
    by rewrite Hp.
Qed.

Lemma tracked_step subs s e :
  Core s → tracked subs s → tracked (subs ++ submitted [e]) (step s e).
Proof.
  intros Hc Htr. destruct e as [|now rnd url cb|w data|w err|w|]; simpl step;
    simpl submitted; rewrite ?app_nil_r.
  - destruct (initialize_sameTasks s (core_flag s Hc)) as (_ & Hq & Ha & _ & _ & Hp & _).
    apply (tracked_shrink subs s); [done|by rewrite Hp|by rewrite Hq|by rewrite Ha].
  - apply tracked_processQueue. destruct Htr as (Hlen & Hq & Ha).
    split; [|split].
    + unfold enqueue. simpl. rewrite !length_app. simpl. lia.
    + unfold enqueue. simpl. intros t [Hin| ->%list_elem_of_singleton]%elem_of_app.
      * rewrite lookup_app_l; [by apply Hq|].
        apply Hq in Hin. by apply lookup_lt_Some in Hin.
      * simpl. rewrite Hlen. by rewrite lookup_app_r, Nat.sub_diag by done.
    + unfold enqueue. simpl. intros k t Hin. destruct (Ha k t Hin) as [Hid Hsub].
      split; [done|]. rewrite lookup_app_l; [done|]. by apply lookup_lt_Some in Hsub.
  - case_match; [|done]. unfold handleWorkerMessage. repeat case_match.
    + by apply (tracked_shrink subs s).
    + apply tracked_processQueue. by apply (tracked_shrink subs s).
    + apply tracked_processQueue.
      apply (tracked_shrink subs s); [done|apply release_promises_length| |].
      * by destruct (release_frame w data s) as (-> & _).
      * intros kt Hin. eapply elem_of_sublist; [done|apply release_active_sub].
    + apply (tracked_shrink subs s); [done| | |]; unfold forward; by repeat case_match.
  - case_match; [|done]. rewrite handleWorkerError_closed by apply Hc.
    set (s2 := with_readyWorkers _ _).
    pose proof (rejectAll_shape err (snd <$> boundTo w (activeTasks s)) s2)
      as (_ & _ & Hq2 & _).
    apply (tracked_shrink subs s); [done| | |].
    + simpl. by rewrite rejectAll_promises_length.
    + simpl. by rewrite Hq2.
    + simpl. intros kt Hin. by apply list_elem_of_filter in Hin as [_ ?].
  - case_decide; [|done]. by apply (tracked_shrink subs s).
  - destruct (terminate_tasks s) as (Hq & Ha & _).
    apply (tracked_shrink subs s); [done|apply terminate_promises_length| |].
    + rewrite Hq. intros t Hin. by apply not_elem_of_nil in Hin.
    + rewrite Ha. intros kt Hin. by apply not_elem_of_nil in Hin.
Qed.

Lemma tracked_run evs : ∀ subs s,
  Core s → tracked subs s → tracked (subs ++ submitted evs) (run s evs).
Proof.
  induction evs as [|e evs IH]; intros subs s Hc Htr.
  - simpl. by rewrite app_nil_r.
  - change (run s (e :: evs)) with (run (step s e) evs).
    replace (submitted (e :: evs)) with (submitted [e] ++ submitted evs)
      by (by rewrite <-submitted_app).
    rewrite app_assoc. apply IH; [by apply Core_step|by apply tracked_step].
Qed.

(** Replies carry no task id: the pool matches a reply to a task by the
    worker it came from.  Along every run in which the submitted ids are
    distinct and workers report ['ready'] only while unbound, the task
    bound to a worker is the last task that was posted to that worker; it
    was created by the call of [processImage] whose position, counting
    from 0, is the task's promise; that promise is pending; and a
    ['complete'] report from the worker fulfils exactly that promise with
    the message, an ['error'] report rejects it with an [Error] of the
    message's [error] field. *)
Theorem reply_settles_the_task_last_posted requested hc evs w data k :
  NoDup (submitted evs) →
  readyReportsUnbound (newWorkerPool requested hc) evs = true →
  let s := run (newWorkerPool requested hc) evs in
  listening w s = true →
  findTaskIdByWorker w (activeTasks s) = Some k →
  ∃ i, submitted evs !! i = Some k
     ∧ lastTo w (assignments (log s)) = Some (w, k)
     ∧ promises s !! i = Some Pending
     ∧ (isStr (getField "status" data) "complete" = true →
        promises (step s (EWorkerMessage w data)) !! i = Some (Fulfilled data))
     ∧ (isStr (getField "status" data) "error" = true →
        promises (step s (EWorkerMessage w data)) !! i
        = Some (Rejected (newError (getField "error" data)))).
Proof.
  intros Hids Hrdy s Hl Hfind.
  pose proof (Core_reachable requested hc evs) as Hc. fold s in Hc.
  assert (Tidy s) as Ht.
  { apply Tidy_run; [apply Core_new|apply Tidy_new|done|done]. }
  assert (answersLast s) as Ha.
  { apply answersLast_run; [apply Core_new|apply Tidy_new|done|done|].
    intros w' k' t' Hin. by apply not_elem_of_nil in Hin. }
  assert (tracked (submitted evs) s) as (_ & _ & Htr).
  { apply (tracked_run evs [] (newWorkerPool requested hc)); [apply Core_new|].
    split; [done|]. split.
    - intros t Hin. by apply not_elem_of_nil in Hin.
    - intros k' t' Hin. by apply not_elem_of_nil in Hin. }
  destruct (findTaskIdByWorker_Some _ _ _ Hfind) as (t & Hin & Hw).
  destruct (Htr k t Hin) as [Hid Hsub].
  assert (promises s !! task_promise t = Some Pending) as Hp.
  { apply (core_pending s Hc). unfold live, activePromises. apply elem_of_app. right.
    apply list_elem_of_fmap. by exists (k, t). }
  assert (jsmap_get k (activeTasks s) = Some t) as Hget
    by (by apply jsmap_get_unique; [apply Hc|]).
  assert (k ≠ "") as Hk.
  { apply (tidy_ids s Ht). unfold heldIds. apply elem_of_app. right.
    apply list_elem_of_fmap. by exists (k, t). }
  exists (task_promise t). split; [done|]. split; [by apply (Ha w k t)|].
  split; [done|]. split.
  - intros Hst. simpl. rewrite Hl, handleWorkerMessage_settled by (by left).
    rewrite processQueue_promises, (release_bound w data s k t Hfind Hk Hget).
    cbv zeta. rewrite Hst. by apply resolveTask_pending.
  - intros Hst. simpl. rewrite Hl, handleWorkerMessage_settled by (by right).
    rewrite processQueue_promises, (release_bound w data s k t Hfind Hk Hget).
    cbv zeta.
    assert (isStr (getField "status" data) "complete" = false) as ->.
    { apply isStr_eq in Hst. by rewrite Hst. }
    by apply rejectTask_pending.
Qed.

Lemma reply_settles_the_task_last_posted_witness :
  let evs := [EInitialize; EWorkerMessage 0 readyMsg; EWorkerMessage 1 readyMsg;
              EProcessImage 1 "a" "u1" None; EProcessImage 2 "b" "u2" None;
              EProcessImage 3 "c" "u3" None;
              EWorkerMessage 1 (completeMsg 1 1 [])] in
  let s := run (newWorkerPool 2 None) evs in
  ∃ i, submitted evs !! i = Some "task_3_c"
     ∧ lastTo 1 (assignments (log s)) = Some (1, "task_3_c")
     ∧ promises s !! i = Some Pending
     ∧ promises (step s (EWorkerMessage 1 (completeMsg 2 2 []))) !! i
       = Some (Fulfilled (completeMsg 2 2 [])).
Proof.
  intros evs s.
  assert (NoDup (submitted evs)) as Hids.
  { apply (bool_decide_unpack _). vm_compute. exact I. }
  assert (readyReportsUnbound (newWorkerPool 2 None) evs = true) as Hrdy
    by (vm_compute; reflexivity).
  assert (listening 1 s = true) as Hl by (vm_compute; reflexivity).
  assert (findTaskIdByWorker 1 (activeTasks s) = Some "task_3_c") as Hfind
    by (vm_compute; reflexivity).
  destruct (reply_settles_the_task_last_posted 2 None evs 1 (completeMsg 2 2 [])
              "task_3_c" Hids Hrdy Hl Hfind) as (i & Hsub & Hlast & Hp & Hdone & _).
  exists i. split; [exact Hsub|]. split; [exact Hlast|]. split; [exact Hp|].
  apply Hdone. reflexivity.
Defined.

(** ** The first [initialize] *)

(** The constructor caps the requested number of workers by
    [navigator.hardwareConcurrency], taking 4 when that is missing or 0.
    The first [initialize] creates that many workers, numbered from 0 in
    the order of the worker list, none busy, posts [{ type: 'init' }] to
    each in that order and to nobody else, and leaves the ready set empty:
    no worker is handed a task before it reports. *)
Theorem first_initialize_creates_the_workers requested hc :
  let n := Nat.min requested (hardwareDefault hc) in
  let s := step (newWorkerPool requested hc) EInitialize in
  n ≤ requested
  ∧ n = Nat.min requested (match hc with Some (S c) => S c | _ => 4 end)
  ∧ workers s = Some <$> seq 0 n
  ∧ (∀ i, i < n → heap s !! i = Some (mkWorker i false false))
  ∧ length (heap s) = n
  ∧ log s = (λ w, PostMessage w initMsg) <$> seq 0 n
  ∧ getStats s = mkStats n 0 0 0 false.
Proof.
  intros n s.
  assert (s = with_isInitializing false
                (foldl (λ acc i, spawnWorker i acc)
                   (with_isInitializing true (newWorkerPool requested hc)) (seq 0 n)))
    as Hs by done.
  assert (workers s = Some <$> seq 0 n) as Hw.
  { rewrite Hs. simpl. by rewrite spawn_workers. }
  assert (heap s = (λ i, mkWorker i false false) <$> seq 0 n) as Hh.
  { rewrite Hs. simpl. by rewrite spawn_heap. }
  split; [apply Nat.le_min_l|]. split; [done|]. split; [done|]. split; [|split; [|split]].
  - intros i Hi. rewrite Hh, list_lookup_fmap, lookup_seq_lt by done. done.
  - by rewrite Hh, length_fmap, length_seq.
  - rewrite Hs. simpl. by rewrite spawn_log.
  - unfold getStats. rewrite Hw, length_fmap, length_seq.
    destruct (initialize_sameTasks (newWorkerPool requested hc) eq_refl)
      as (_ & Hq & Ha & Hr & Hi & _).
    change (step (newWorkerPool requested hc) EInitialize)
      with (initialize (newWorkerPool requested hc)) in s.
    subst s. by rewrite Hq, Ha, Hr, Hi.
Qed.

(** ** The progress events of the library *)

Lemma assoc_jsmap_set k k0 v0 base :
  assoc k (jsmap_set k0 v0 base) = if decide (k = k0) then v0 else assoc k base.
Proof.
  induction base as [|[k1 v1] base IH]; csimpl.
  - done.
  - destruct (decide (k0 = k1)) as [->|Hne]; csimpl.
    + by destruct (decide (k = k1)).
    + rewrite IH. destruct (decide (k = k1)) as [->|?]; [|done].
      by rewrite decide_False by done.
Qed.

Lemma spread_assoc k extra : ∀ base,
  NoDup extra.*1 →
  assoc k (spread base extra)
  = if decide (k ∈ extra.*1) then assoc k extra else assoc k base.
Proof.
  induction extra as [|[k0 v0] extra IH]; intros base Hnd.
  - destruct (decide (k ∈ ([] : list (string * JsVal)).*1)) as [Hin|_]; [|done].
    by apply not_elem_of_nil in Hin.
  - rewrite fmap_cons in Hnd. apply NoDup_cons in Hnd as [Hk0 Hnd].
    change (spread base ((k0, v0) :: extra)) with (spread (jsmap_set k0 v0 base) extra).
    rewrite IH by done. rewrite assoc_jsmap_set. rewrite fmap_cons.
    change (assoc k ((k0, v0) :: extra))
      with (if decide (k = k0) then v0 else assoc k extra).
    change ((k0, v0).1) with k0 in *.
    destruct (decide (k = k0)) as [->|Hne].
    + rewrite (decide_False (P := k0 ∈ extra.*1)) by done.
      destruct (decide (k0 ∈ k0 :: extra.*1)) as [_|Hn]; [done|].
      exfalso. apply Hn, list_elem_of_here.
    + destruct (decide (k ∈ extra.*1)) as [Hin|Hin].
      * destruct (decide (k ∈ k0 :: extra.*1)) as [_|Hn]; [done|].
        exfalso. by apply Hn, list_elem_of_further.
      * destruct (decide (k ∈ k0 :: extra.*1)) as [[?|?]%elem_of_cons|_]; done.
Qed.

(** A progress event of the library is posted twice: as it is, by the
    listener's callback, and then as the message of the model's or the
    processor's callback.  For a download event, of status ['progress']
    with a file, that message has status ['progress'].  For every other
    event the properties of the event are spread last, so each of them,
    the status included, replaces the one the callback wrote: the message
    has the status of the event, and status ['progress'] only when the
    event has none. *)
Theorem progress_event_keeps_its_status percent progress st :
  NoDup progress.*1 →
  let download := isStr (assoc "status" progress) "progress"
                  && truthy (assoc "file" progress) in
  let relayed kind st' :=
    ∃ m, outbox st' = outbox st ++ [VObj progress; m]
       ∧ (download = true →
          getField "status" m = VStr "progress" ∧ getField "type" m = VStr kind
          ∧ getField "file" m = assoc "file" progress)
       ∧ (download = false →
          (∀ k, k ∈ progress.*1 → getField k m = assoc k progress)
          ∧ ("status" ∉ progress.*1 → getField "status" m = VStr "progress")
          ∧ ("type" ∉ progress.*1 → getField "type" m = VStr kind)) in
  relayed "model" (modelProgressCallback percent progress st)
  ∧ relayed "processor" (processorProgressCallback percent progress st).
Proof.
  intros Hnd download relayed.
  assert (∀ kind label,
            relayed kind (post (progressReport kind label percent progress)
                            (post (VObj progress) st))) as Hboth.
  { intros kind label. exists (progressReport kind label percent progress).
    split; [simpl; by rewrite <-app_assoc|].
    unfold progressReport. simpl getField. fold download.
    clearbody download. destruct download; split; try done; intros _.
    split; [|split].
    - intros k Hk. simpl. rewrite spread_assoc by done. by rewrite decide_True.
    - intros Hk. simpl. rewrite spread_assoc by done. by rewrite decide_False.
    - intros Hk. simpl. rewrite spread_assoc by done. by rewrite decide_False. }
  split; apply Hboth.
Qed.

Lemma progress_event_keeps_its_status_witness :
  let progress := [("status", VStr "ready"); ("task", VStr "image-segmentation")] in
  ∃ m, outbox (modelProgressCallback (λ _, "0") progress initial) = [VObj progress; m]
     ∧ getField "status" m = VStr "ready" ∧ getField "type" m = VStr "model".
Proof.
  intros progress.
  assert (NoDup progress.*1) as Hnd.
  { apply (bool_decide_unpack _). vm_compute. exact I. }
  destruct (progress_event_keeps_its_status (λ _, "0") progress initial Hnd)
    as [(m & Hout & _ & Hother) _].
  destruct (Hother eq_refl) as (Hkeys & _ & Htype).
  exists m. split; [exact Hout|]. split.
  - apply (Hkeys "status"). apply list_elem_of_here.
  - apply Htype. apply (bool_decide_unpack _). vm_compute. exact I.
Defined.

(** A progress event of status ['ready'] from the library therefore
    reaches the pool as two messages of status ['ready'], and the pool
    puts the worker into its ready set on them as it does on the script's
    own ['ready'] report, although the script posts that report only after
    the processor has loaded as well. *)
Theorem library_ready_event_marks_worker_ready percent progress st s w :
  NoDup progress.*1 → assoc "status" progress = VStr "ready" →
  listening w s = true → taskQueue s = [] →
  let posted := drop (length (outbox st))
                  (outbox (modelProgressCallback percent progress st)) in
  let s' := run s (EWorkerMessage w <$> posted) in
  length posted = 2 ∧ s' = markReady w s ∧ w ∈ readyWorkers s'.
Proof.
  intros Hnd Hst Hl Hq posted s'.
  assert (posted = [VObj progress; progressReport "model" "Model" percent progress])
    as Hposted.
  { subst posted. simpl. by rewrite <-app_assoc, drop_app_length. }
  assert (isStr (getField "status" (progressReport "model" "Model" percent progress))
            "ready" = true) as Hst2.
  { unfold progressReport. simpl getField. rewrite Hst. simpl.
    rewrite spread_assoc by done. rewrite decide_True; [by rewrite Hst|].
    destruct (decide ("status" ∈ progress.*1)) as [Hin|Hnin]; [done|].
    exfalso. clear -Hst Hnin. induction progress as [|[k v] progress IH]; [done|].
    simpl in Hst. rewrite fmap_cons, not_elem_of_cons in Hnin. destruct Hnin as [Hne Hnin].
    simpl in Hne. rewrite decide_False in Hst by done. by apply IH. }
  assert (∀ data x, isStr (getField "status" data) "ready" = true →
            listening w x = true → taskQueue x = [] →
            step x (EWorkerMessage w data) = markReady w x) as Hstep.
  { intros data x Hd Hlx Hqx. simpl. rewrite Hlx. unfold handleWorkerMessage.
    assert (nullish data = false) as -> by (by destruct data).
    rewrite Hd. apply processQueue_idle. by left. }
  assert (step s (EWorkerMessage w (VObj progress)) = markReady w s) as H1.
  { apply Hstep; try done. simpl. by rewrite Hst. }
  assert (step (markReady w s)
            (EWorkerMessage w (progressReport "model" "Model" percent progress))
          = markReady w (markReady w s)) as H2.
  { by apply Hstep. }
  assert (s' = markReady w s) as Hs'.
  { subst s'. rewrite Hposted. unfold run. cbn [fmap list_fmap foldl].
    rewrite H1, H2.
    unfold markReady. simpl. unfold jsset_add at 1.
    rewrite decide_True; [done|]. apply jsset_add_elem. }
  split; [by rewrite Hposted|]. split; [done|].
  rewrite Hs'. simpl. apply jsset_add_elem.
Qed.

Lemma library_ready_event_marks_worker_ready_witness :
  let s := run (newWorkerPool 1 None) [EInitialize] in
  let s' := run s [EWorkerMessage 0 (VObj [("status", VStr "ready")]);
                   EWorkerMessage 0
                     (VObj [("status", VStr "ready"); ("type", VStr "model");
                            ("message", VStr "Model loading: ready")])] in
  readyWorkers s = [] ∧ readyWorkers s' = [0].
Proof.
  intros s s'.
  assert (NoDup [("status", VStr "ready")].*1) as Hnd.
  { apply (bool_decide_unpack _). vm_compute. exact I. }
  destruct (library_ready_event_marks_worker_ready (λ _, "0")
              [("status", VStr "ready")] initial s 0 Hnd eq_refl eq_refl eq_refl)
    as (_ & Hs' & _).
  split; [reflexivity|].
  change s' with (run s (EWorkerMessage 0 <$>
    drop (length (outbox initial))
      (outbox (modelProgressCallback (λ _, "0") [("status", VStr "ready")] initial)))).
  rewrite Hs'. reflexivity.
Defined.

(** ** C4: where tasks and workers are *)

(** *** Unsettled tasks are held when the ids are distinct *)

Lemma Held_same s s' :
  promises s' = promises s → taskQueue s' = taskQueue s →
  activeTasks s' = activeTasks s → Held s → Held s'.
Proof.
  intros Hp Hq Ha Hh p. unfold live, queuedPromises, activePromises.
  rewrite Hp, Hq, Ha. apply Hh.
Qed.

Lemma Held_dispatchHead t rest w ws s :
  taskQueue s = t :: rest → readyWorkers s = w :: ws →
  NoDup (heldIds s) → Held s →
  Held (dispatchHead t rest w s)
  ∧ heldIds (dispatchHead t rest w s) ≡ₚ heldIds s.
Proof.
  intros Hq Hr Hnd Hpend.
  assert (task_id t ∉ (activeTasks s).*1) as Hfresh.
  { unfold heldIds, queuedIds in Hnd. rewrite Hq in Hnd. csimpl in Hnd.
    apply NoDup_cons in Hnd as [Hnot _]. intros Hin. apply Hnot.
    apply elem_of_app. by right. }
  assert (activeTasks (dispatchHead t rest w s)
          = activeTasks s ++ [(task_id t, setWorker w t)]) as Ha.
  { simpl. by apply jsmap_set_fresh. }
  split.
  - intros p Hp. simpl in Hp. apply Hpend in Hp.
    unfold live, queuedPromises, activePromises in *. rewrite Ha. simpl taskQueue.
    rewrite Hq in Hp. rewrite fmap_app. csimpl. csimpl in Hp.
    apply elem_of_cons in Hp as [->|Hp].
    + rewrite !elem_of_app. right. right. apply list_elem_of_here.
    + rewrite (assoc_L (++)). apply elem_of_app. by left.
  - unfold heldIds, queuedIds. rewrite Ha. simpl taskQueue. rewrite Hq.
    rewrite fmap_app. csimpl. rewrite (assoc_L (++)), <-Permutation_cons_append. done.
Qed.

Lemma Held_processQueue s :
  NoDup (heldIds s) → Held s →
  Held (processQueue s) ∧ heldIds (processQueue s) ≡ₚ heldIds s.
Proof.
  intros Hnd Hh.
  destruct (processQueue_either s) as [[_ ->]|(t & rest & w & ws & Hq & Hr & ->)];
    [done|]. by eapply Held_dispatchHead.
Qed.

Lemma Held_enqueue now rnd url cb s :
  Held s →
  Held (enqueue now rnd url cb s)
  ∧ heldIds (enqueue now rnd url cb s) ≡ₚ taskIdOf now rnd :: heldIds s.
Proof.
  intros Hpend. split.
  - intros p Hp. simpl in Hp.
    unfold live, queuedPromises, activePromises in *. simpl.
    rewrite fmap_app. csimpl. rewrite <-(assoc_L (++)). csimpl.
    rewrite <-Permutation_middle.
    destruct (decide (p = length (promises s))) as [->|Hne].
    + apply list_elem_of_here.
    + apply list_elem_of_further, Hpend.
      apply lookup_app_Some in Hp as [Hp|[Hge Hp]]; [done|].
      apply list_lookup_singleton_Some in Hp as [Hp _]. lia.
  - unfold heldIds, queuedIds. simpl. rewrite fmap_app. csimpl.
    rewrite <-(assoc_L (++)). csimpl. by rewrite <-Permutation_middle.
Qed.

Lemma heldIds_release w data s :
  heldIds (release w data s) `sublist_of` heldIds s.
Proof.
  unfold heldIds, queuedIds. destruct (release_frame w data s) as (-> & _).
  apply sublist_app; [done|]. apply fmap_sublist, release_active_sub.
Qed.

Lemma Held_release w data s : Core s → Held s → Held (release w data s).
Proof.
  intros Hc Hpend. unfold release. cbv zeta.
  set (s2 := with_readyWorkers _ _).
  destruct (boundTask _ s2) as [[k t]|] eqn:Hb; [|by apply (Held_same s)].
  apply boundTask_Some in Hb as (_ & _ & Hget). apply jsmap_get_elem in Hget.
  change (activeTasks s2) with (activeTasks s) in Hget.
  destruct (jsmap_delete_split k t (activeTasks s) (core_keys s Hc) Hget)
    as (m1 & m2 & Hsplit & Hdel).
  assert (promises s !! task_promise t = Some Pending) as Hpt.
  { apply (core_pending s Hc). unfold live, activePromises. apply elem_of_app. right.
    apply list_elem_of_fmap. by exists (k, t). }
  set (s' := with_activeTasks _ s2).
  assert (∀ s4, sameShape s' s4 →
            promises s4 !! task_promise t ≠ Some Pending →
            (∀ q, q ≠ task_promise t → promises s4 !! q = promises s !! q) →
            Held s4) as Hfin.
  { intros s4 (_ & _ & Hq4 & Ha4 & _) Hsettled Hother p Hp.
    destruct (decide (p = task_promise t)) as [->|Hne]; [done|].
    rewrite Hother in Hp by done. apply Hpend in Hp.
    unfold live, queuedPromises, activePromises in *. rewrite Hq4, Ha4.
    simpl taskQueue. simpl activeTasks. rewrite Hdel.
    rewrite Hsplit, !fmap_app, fmap_cons, !elem_of_app, elem_of_cons in Hp.
    simpl in Hp. rewrite !fmap_app, !elem_of_app. tauto. }
  case_match.
  - apply Hfin; [apply resolveTask_shape| |].
    + rewrite resolveTask_pending by done. done.
    + intros q Hq. by rewrite resolveTask_other.
  - apply Hfin; [apply rejectTask_shape| |].
    + rewrite rejectTask_pending by done. done.
    + intros q Hq. by rewrite rejectTask_other.
Qed.

Lemma Held_handleWorkerError w e s :
  Core s → Held s →
  Held (handleWorkerError w e s)
  ∧ heldIds (handleWorkerError w e s) `sublist_of` heldIds s.
Proof.
  intros Hc Hpend. rewrite handleWorkerError_closed by apply Hc.
  set (s0 := with_readyWorkers _ _). set (bound := snd <$> boundTo w (activeTasks s)).
  pose proof (rejectAll_shape e bound s0) as (_ & _ & Hq0 & _).
  assert (NoDup (task_promise <$> bound)) as Hnd.
  { subst bound. rewrite <-list_fmap_compose.
    eapply sublist_NoDup; [|apply fmap_sublist, sublist_filter].
    pose proof (core_live s Hc) as Hl. by apply NoDup_app in Hl as (_ & _ & Hl). }
  assert (∀ t, t ∈ bound → promises s !! task_promise t = Some Pending) as Hpb.
  { intros t Hin. apply (core_pending s Hc). unfold live. apply elem_of_app. right.
    unfold activePromises. subst bound.
    apply list_elem_of_fmap in Hin as ([k t'] & -> & Hin).
    apply list_elem_of_filter in Hin as [_ Hin].
    apply list_elem_of_fmap. by exists (k, t'). }
  split.
  - intros p. simpl promises.
    destruct (decide (p ∈ task_promise <$> bound)) as [Hin|Hnot].
    { apply list_elem_of_fmap in Hin as (t & -> & Hin).
      rewrite (rejectAll_pending e bound s0 t) by auto. done. }
    rewrite rejectAll_other by done. intros Hp. apply Hpend in Hp.
    unfold live, queuedPromises, activePromises in *. simpl.
    rewrite Hq0. simpl. revert Hp. rewrite !elem_of_app. intros [Hq|Ha]; [by left|right].
    apply list_elem_of_fmap in Ha as ([k t] & -> & Hin).
    apply list_elem_of_fmap. exists (k, t). split; [done|].
    apply list_elem_of_filter. split; [|done]. simpl. intros Hw. apply Hnot.
    subst bound. rewrite <-list_fmap_compose. apply list_elem_of_fmap.
    exists (k, t). split; [done|]. by apply list_elem_of_filter.
  - unfold heldIds, queuedIds. simpl. rewrite Hq0. simpl.
    apply sublist_app; [done|]. apply fmap_sublist, sublist_filter.
Qed.

Lemma Held_terminate s :
  Core s → Held s →
  Held (terminate s) ∧ heldIds (terminate s) `sublist_of` heldIds s.
Proof.
  intros Hc Hpend. destruct (terminate_tasks s) as (Hq & Ha & _). split.
  - intros p. unfold terminate.
    set (s1 := foldl _ s (taskQueue s)). set (s2 := with_taskQueue [] s1).
    set (s3 := foldl _ s2 _). set (s4 := with_activeTasks [] s3).
    assert (promises s4
            = promises (foldl (λ acc t, rejectTask t terminatedError acc) s
                          (taskQueue s ++ (snd <$> activeTasks s)))) as Hp4.
    { rewrite foldl_app. fold s1. change (promises s4) with (promises s3).
      assert (activeTasks s2 = activeTasks s) as Ha2.
      { change (activeTasks s2) with (activeTasks s1). subst s1.
        by destruct (rejectAll_shape terminatedError (taskQueue s) s)
          as (_ & _ & _ & -> & _). }
      subst s3. rewrite Ha2. by apply rejectAll_ext. }
    assert (promises (match terminateAll (workers s4) s4 with
                      | Some s5 => with_readyWorkers [] (with_workers [] s5)
                      | None => emit ThrowTypeError (terminatedPrefix (workers s4) s4)
                      end) = promises s4) as ->.
    { destruct (terminateAll (workers s4) s4) as [s5|] eqn:Hterm.
      - destruct (terminateAll_sameTasks _ _ _ Hterm) as (_ & _ & _ & _ & _ & Hp5 & _).
        by rewrite <-Hp5.
      - destruct (terminatedPrefix_sameTasks (workers s4) s4)
          as (_ & _ & _ & _ & _ & Hp5 & _).
        by rewrite <-Hp5. }
    rewrite Hp4. intros Hp. exfalso.
    destruct (decide (p ∈ live s)) as [Hin|Hnot].
    + rewrite <-live_outstanding in Hin.
      apply list_elem_of_fmap in Hin as (t & -> & Hin).
      rewrite rejectAll_pending in Hp; [done| |done|].
      * rewrite live_outstanding. apply Hc.
      * apply (core_pending s Hc). rewrite <-live_outstanding.
        by apply list_elem_of_fmap_2.
    + rewrite rejectAll_other in Hp by (by rewrite live_outstanding).
      by apply Hnot, Hpend.
  - unfold heldIds, queuedIds. rewrite Hq, Ha. apply sublist_nil_l.
Qed.

Lemma Held_step s e rest :
  Core s → Held s → NoDup (heldIds s ++ submitted (e :: rest)) →
  Held (step s e) ∧ NoDup (heldIds (step s e) ++ submitted rest).
Proof.
  intros Hc Hh Hnd.
  assert (∀ s', activeTasks s' = activeTasks s → taskQueue s' = taskQueue s →
            promises s' = promises s →
            submitted (e :: rest) = submitted rest →
            Held s' ∧ NoDup (heldIds s' ++ submitted rest)) as Hsame.
  { intros s' Ha Hq Hp He. split; [by apply (Held_same s)|].
    unfold heldIds, queuedIds in *. by rewrite Ha, Hq, <-He. }
  assert (∀ s1, Held s1 → heldIds s1 `sublist_of` heldIds s →
            submitted (e :: rest) = submitted rest →
            Held (processQueue s1) ∧ NoDup (heldIds (processQueue s1) ++ submitted rest))
    as Hdrain.
  { intros s1 Hh1 Hsub He. rewrite He in Hnd.
    pose proof (NoDup_app_sublist _ _ _ Hsub Hnd) as Hnd1.
    destruct (Held_processQueue s1) as [Hh2 Hperm]; [|done|].
    { by apply NoDup_app in Hnd1 as (? & _). }
    split; [done|]. by rewrite Hperm. }
  destruct e as [|now rnd url cb|w data|w err|w|]; simpl step.
  - destruct (initialize_sameTasks s (core_flag s Hc)) as (_ & ? & ? & _ & _ & ? & _).
    by apply Hsame.
  - unfold processImage. change (submitted (EProcessImage now rnd url cb :: rest))
      with (taskIdOf now rnd :: submitted rest) in Hnd.
    destruct (Held_enqueue now rnd url cb s Hh) as [Hh1 Hperm1].
    rewrite <-Permutation_middle in Hnd.
    change (taskIdOf now rnd :: heldIds s ++ submitted rest)
      with ((taskIdOf now rnd :: heldIds s) ++ submitted rest) in Hnd.
    rewrite <-Hperm1 in Hnd.
    destruct (Held_processQueue (enqueue now rnd url cb s)) as [Hh2 Hperm2];
      [by apply NoDup_app in Hnd as (? & _)|done|].
    split; [done|]. by rewrite Hperm2.
  - case_match eqn:Hl; [|by apply Hsame]. unfold handleWorkerMessage.
    destruct (nullish data); [by apply Hsame|].
    destruct (isStr (getField "status" data) "ready").
    + apply Hdrain; [by apply (Held_same s)|done|done].
    + case_match.
      * apply Hdrain; [by apply Held_release|apply heldIds_release|done].
      * unfold forward. destruct (boundTask _ s) as [[k t]|]; [|by apply Hsame].
        destruct (task_onProgress t); by apply Hsame.
  - case_match; [|by apply Hsame].
    destruct (Held_handleWorkerError w err s Hc Hh) as [Hh1 Hsub].
    split; [done|]. by apply (NoDup_app_sublist (heldIds s)).
  - case_decide; by apply Hsame.
  - destruct (Held_terminate s Hc Hh) as [Hh1 Hsub].
    split; [done|]. by apply (NoDup_app_sublist (heldIds s)).
Qed.

Lemma Held_run evs : ∀ s,
  Core s → Held s → NoDup (heldIds s ++ submitted evs) → Held (run s evs).
Proof.
  induction evs as [|e evs IH]; intros s Hc Hh Hnd; simpl; [done|].
  destruct (Held_step s e evs Hc Hh Hnd) as [Hh1 Hnd1].
  apply IH; [by apply Core_step|done|done].
Qed.

(** *** Ready workers are unbound when workers report ready only while
    unbound *)

Lemma boundTo_jsmap_set_length w k v m :
  length (boundTo w (jsmap_set k v m))
  ≤ length (boundTo w m) + (if decide (task_worker v = Some w) then 1 else 0).
Proof.
  induction m as [|[k' v'] m IH]; csimpl.
  - rewrite boundTo_cons. case_decide; simpl; lia.
  - destruct (decide (k = k')) as [->|Hne]; rewrite !boundTo_cons.
    + repeat case_decide; simpl; lia.
    + repeat case_decide; simpl; lia.
Qed.

Lemma ReadyUnbound_new requested hc : ReadyUnbound (newWorkerPool requested hc).
Proof.
  split.
  - intros w H. by apply not_elem_of_nil in H.
  - intros w. simpl. lia.
  - intros k H. by apply not_elem_of_nil in H.
Qed.

Lemma ReadyUnbound_same s s' :
  activeTasks s' = activeTasks s → taskQueue s' = taskQueue s →
  readyWorkers s' = readyWorkers s → ReadyUnbound s → ReadyUnbound s'.
Proof.
  intros Ha Hq Hr [? ? ?].
  split; unfold heldIds, queuedIds in *; rewrite ?Ha, ?Hq, ?Hr; done.
Qed.

Lemma ReadyUnbound_shrink s s' :
  ReadyUnbound s →
  taskQueue s' `sublist_of` taskQueue s →
  activeTasks s' `sublist_of` activeTasks s →
  (∀ w, w ∈ readyWorkers s' → boundTo w (activeTasks s') = []) →
  ReadyUnbound s'.
Proof.
  intros [Hready Hone Hids] Hq Ha Hr. split.
  - done.
  - intros w. etrans; [|apply (Hone w)].
    by apply sublist_length, boundTo_sublist.
  - intros k Hk. apply Hids. eapply elem_of_sublist; [done|].
    unfold heldIds, queuedIds. apply sublist_app; by apply fmap_sublist.
Qed.

Lemma ReadyUnbound_dispatchHead t rest w ws s :
  taskQueue s = t :: rest → readyWorkers s = w :: ws →
  Core s → ReadyUnbound s → ReadyUnbound (dispatchHead t rest w s).
Proof.
  intros Hq Hr Hc [Hready Hone Hids].
  assert (boundTo w (activeTasks s) = []) as Hfree
    by (apply Hready; rewrite Hr; apply list_elem_of_here).
  assert (activeTasks (dispatchHead t rest w s)
          = jsmap_set (task_id t) (setWorker w t) (activeTasks s)) as Ha by done.
  assert (readyWorkers (dispatchHead t rest w s) = ws) as Hr'.
  { simpl. rewrite Hr. apply jsset_delete_head. rewrite <-Hr. apply Hc. }
  assert (w ∉ ws) as Hw.
  { pose proof (core_ready s Hc) as Hndr. rewrite Hr in Hndr.
    by apply NoDup_cons in Hndr as [? _]. }
  split.
  - intros w' Hw'. rewrite Hr' in Hw'. rewrite Ha.
    pose proof (boundTo_jsmap_set_length w' (task_id t) (setWorker w t) (activeTasks s))
      as Hlen.
    rewrite Hready in Hlen by (rewrite Hr; by apply list_elem_of_further).
    rewrite decide_False in Hlen by (simpl; intros [= ->]; done).
    simpl in Hlen. by destruct (boundTo w' _); [|simpl in Hlen; lia].
  - intros w'. rewrite Ha.
    pose proof (boundTo_jsmap_set_length w' (task_id t) (setWorker w t) (activeTasks s))
      as Hlen.
    case_decide as Hw'; [|specialize (Hone w'); lia].
    simpl in Hw'. injection Hw' as ->. rewrite Hfree in Hlen. simpl in Hlen. lia.
  - intros k Hk. apply Hids. unfold heldIds, queuedIds in *.
    rewrite Ha, jsmap_set_keys in Hk. simpl taskQueue in Hk.
    rewrite Hq, fmap_cons. apply elem_of_app in Hk as [Hk|Hk].
    + apply elem_of_app. left. by apply list_elem_of_further.
    + revert Hk. case_decide; intros Hk; [apply elem_of_app; by right|].
      apply elem_of_app in Hk as [Hk|Hk%list_elem_of_singleton].
      * apply elem_of_app. by right.
      * subst k. apply elem_of_app. left. apply list_elem_of_here.
Qed.

Lemma ReadyUnbound_processQueue s :
  Core s → ReadyUnbound s → ReadyUnbound (processQueue s).
Proof.
  intros Hc Hu.
  destruct (processQueue_either s) as [[_ ->]|(t & rest & w & ws & Hq & Hr & ->)];
    [done|]. by eapply ReadyUnbound_dispatchHead.
Qed.

Lemma ReadyUnbound_markReady w s :
  findTaskIdByWorker w (activeTasks s) = None →
  ReadyUnbound s → ReadyUnbound (markReady w s).
Proof.
  intros Hf [Hready Hone Hids]. split; try done.
  intros w'. simpl. unfold jsset_add. case_decide; [apply Hready|].
  intros [Hw'| ->%list_elem_of_singleton]%elem_of_app; [by apply Hready|].
  by apply findTaskIdByWorker_None.
Qed.

Lemma ReadyUnbound_release w data s :
  Core s → ReadyUnbound s → ReadyUnbound (release w data s).
Proof.
  intros Hc Hu. pose proof Hu as [Hready Hone Hids].
  assert (∀ w', w' ∈ readyWorkers (release w data s) → w' ∈ readyWorkers s ∨ w' = w)
    as Hrdy.
  { intros w'. destruct (release_frame w data s) as (_ & -> & _).
    unfold jsset_add. case_decide; [by left|].
    intros [?| ->%list_elem_of_singleton]%elem_of_app; [by left|by right]. }
  apply (ReadyUnbound_shrink s); [done| |apply release_active_sub|].
  { by destruct (release_frame w data s) as (-> & _). }
  intros w' [Hw'| ->]%Hrdy.
  { apply sublist_nil_eq. rewrite <-(Hready w' Hw').
    apply boundTo_sublist, release_active_sub. }
  destruct (findTaskIdByWorker w (activeTasks s)) as [k|] eqn:Hf.
  - apply findTaskIdByWorker_Some in Hf as Hin. destruct Hin as (t & Hin & Hw).
    assert (k ≠ "") as Hk.
    { apply Hids. unfold heldIds. apply elem_of_app. right.
      apply list_elem_of_fmap. by exists (k, t). }
    pose proof (jsmap_get_unique k t _ (core_keys s Hc) Hin) as Hget.
    destruct (jsmap_delete_split k t (activeTasks s) (core_keys s Hc) Hin)
      as (m1 & m2 & Hsplit & Hdel).
    assert (boundTo w (m1 ++ m2) = []) as Hfree.
    { specialize (Hone w). rewrite Hsplit, boundTo_app, boundTo_cons in Hone.
      rewrite decide_True in Hone by done. rewrite length_app in Hone. simpl in Hone.
      rewrite boundTo_app.
      destruct (boundTo w m1), (boundTo w m2); simpl in Hone; done || lia. }
    rewrite (release_bound w data s k t) by done. cbv zeta.
    case_match.
    + match goal with
      | |- context [resolveTask t data ?X] =>
          destruct (resolveTask_shape t data X) as (_ & _ & _ & -> & _)
      end. simpl. by rewrite Hdel.
    + match goal with
      | |- context [rejectTask t ?e ?X] =>
          destruct (rejectTask_shape t e X) as (_ & _ & _ & -> & _)
      end. simpl. by rewrite Hdel.
  - rewrite (release_unbound w data s Hf). simpl. by apply findTaskIdByWorker_None.
Qed.

Lemma ReadyUnbound_handleWorkerError w e s :
  Core s → ReadyUnbound s → ReadyUnbound (handleWorkerError w e s).
Proof.
  intros Hc Hu. pose proof Hu as [Hready Hone Hids].
  rewrite handleWorkerError_closed by apply Hc.
  set (s0 := with_readyWorkers _ _). set (bound := snd <$> boundTo w (activeTasks s)).
  pose proof (rejectAll_shape e bound s0) as (_ & _ & Hq0 & _ & Hr0 & _).
  apply (ReadyUnbound_shrink s); [done| | |].
  - simpl. by rewrite Hq0.
  - simpl. apply sublist_filter.
  - intros w'. simpl. rewrite Hr0. simpl. intros [_ Hw']%jsset_delete_elem.
    apply sublist_nil_eq. rewrite <-(Hready w' Hw').
    apply boundTo_sublist, sublist_filter.
Qed.

Lemma ReadyUnbound_step s e :
  Core s → ReadyUnbound s → readyWhileUnbound s e = true →
  ReadyUnbound (step s e).
Proof.
  intros Hc Hu Hrdy.
  destruct e as [|now rnd url cb|w data|w err|w|]; simpl step.
  - destruct (initialize_sameTasks s (core_flag s Hc)) as (_ & ? & ? & ? & _).
    by apply (ReadyUnbound_same s).
  - unfold processImage.
    apply ReadyUnbound_processQueue; [by apply Core_enqueue|].
    destruct Hu as [Hready Hone Hids]. split; [done|done|].
    intros k. unfold heldIds, queuedIds, enqueue. simpl.
    rewrite fmap_app, !elem_of_app. simpl. rewrite list_elem_of_singleton.
    intros [[Hk| ->]|Hk]; [|done|].
    + apply Hids. unfold heldIds, queuedIds. apply elem_of_app. by left.
    + apply Hids. unfold heldIds. apply elem_of_app. by right.
  - case_match eqn:Hl; [|done]. unfold handleWorkerMessage.
    destruct (nullish data) eqn:Hnull; [by apply (ReadyUnbound_same s)|].
    simpl in Hrdy. rewrite Hl in Hrdy. simpl in Hrdy.
    destruct (isStr (getField "status" data) "ready") eqn:Hst.
    + apply bool_decide_eq_true in Hrdy.
      apply ReadyUnbound_processQueue; [by apply Core_markReady|].
      by apply ReadyUnbound_markReady.
    + case_match.
      * apply ReadyUnbound_processQueue; [by apply Core_release|].
        by apply ReadyUnbound_release.
      * unfold forward. destruct (boundTask _ s) as [[k t]|]; [|done].
        destruct (task_onProgress t); [by apply (ReadyUnbound_same s)|done].
  - case_match; [|done]. by apply ReadyUnbound_handleWorkerError.
  - case_decide; [|done]. by apply (ReadyUnbound_same s).
  - destruct (terminate_tasks s) as (Hq & Ha & _).
    apply (ReadyUnbound_shrink s); [done| | |].
    + rewrite Hq. apply sublist_nil_l.
    + rewrite Ha. apply sublist_nil_l.
    + intros w _. by rewrite Ha.
Qed.

Lemma ReadyUnbound_run evs : ∀ s,
  Core s → ReadyUnbound s → readyReportsUnbound s evs = true →
  ReadyUnbound (run s evs).
Proof.
  induction evs as [|e evs IH]; intros s Hc Hu Hrdy; simpl; [done|].
  simpl in Hrdy. apply andb_prop in Hrdy as [He Hrest].
  apply IH; [by apply Core_step|by apply ReadyUnbound_step|done].
Qed.

(** *** The claim and its counterexamples *)

(** C4, as stated, fails in three ways.  Right after [initialize()] the
    workers it has created are bound to no task and are not in the ready
    set, which they join only when they report.  A worker whose [init]
    failed is made ready by its ['error'] report; the task it is then
    given makes its script construct the pipeline and post ['ready'] while
    the task is still running, and the pool puts the worker, bound as it
    is, into the ready set.  And when two submissions get the same id, the
    dispatch of the second overwrites the entry of the first in the active
    map: the first task is in neither collection while its promise is
    pending. *)
Lemma partition_and_ready_iff_unbound_fail :
  ¬ (∀ requested hc evs w,
       let s := run (newWorkerPool requested hc) evs in
       Some w ∈ workers s →
       findTaskIdByWorker w (activeTasks s) = None → w ∈ readyWorkers s)
  ∧ ¬ (∀ requested hc evs w,
         let s := run (newWorkerPool requested hc) evs in
         w ∈ readyWorkers s → findTaskIdByWorker w (activeTasks s) = None)
  ∧ (let st := urun initial
                 [UMessage initMsg; UModelSettled 0 (inl "offline");
                  UMessage (VObj [("imageUrl", VStr "u1"); ("taskId", VStr "task_1_a")]);
                  UModelSettled 1 (inr 7); UProcessorSettled 1 (inr 9)] in
     last (outbox st) = Some readyMsg
     ∧ phase <$> calls st !! 1 = Some (AwaitImage (Some 7) (Some 9)))
  ∧ ¬ (∀ requested hc evs p,
         let s := run (newWorkerPool requested hc) evs in
         promises s !! p = Some Pending →
         p ∈ queuedPromises s ++ activePromises s).
Proof.
  split; [|split; [|split]].
  - intros H. specialize (H 2 None [EInitialize] 0). simpl in H.
    assert (0 ∈ []) as Hin; [|by apply not_elem_of_nil in Hin].
    apply H; [apply list_elem_of_here|done].
  - intros H.
    specialize (H 1 None
      [EInitialize; EWorkerMessage 0 (errorMsg "Failed to load model: offline");
       EWorkerMessage 0 (errorMsg "offline"); EProcessImage 1 "a" "u1" None;
       EWorkerMessage 0 readyMsg] 0).
    assert (Some "task_1_a" = None) as Hbad; [|done].
    etrans; [|apply H].
    + vm_compute. reflexivity.
    + vm_compute. apply list_elem_of_here.
  - vm_compute. by split.
  - intros H.
    specialize (H 2 None
      [EInitialize; EWorkerMessage 0 readyMsg; EWorkerMessage 1 readyMsg;
       EProcessImage 1 "a" "u1" None; EProcessImage 1 "a" "u2" None] 0).
    assert (0 ∈ [1]) as Hin.
    { apply H. vm_compute. reflexivity. }
    apply list_elem_of_singleton in Hin. done.
Qed.

(** C4, amended.  Along every run: no promise occurs twice across the
    queue and the active map, so no task is in both or twice in one, and
    every task in the queue or in the active map has a pending promise, so
    a settled task is in neither.  When the submitted tasks have distinct
    ids, a task whose promise is pending is in exactly one of the queue
    and the active map.  When no worker reports ['ready'] while a task is
    bound to it, a worker in the ready set is bound to no active task.
    The converse is not claimed: a worker just created, or one that has
    faulted, is bound to no task and joins the ready set only when it
    reports. *)
Theorem tasks_partitioned_and_ready_unbound requested hc evs :
  let s := run (newWorkerPool requested hc) evs in
  NoDup (queuedPromises s ++ activePromises s)
  ∧ (∀ p, p ∈ queuedPromises s ++ activePromises s → promises s !! p = Some Pending)
  ∧ (NoDup (submitted evs) →
     ∀ p, promises s !! p = Some Pending →
       (p ∈ queuedPromises s ∧ p ∉ activePromises s)
       ∨ ((p ∉ queuedPromises s) ∧ p ∈ activePromises s))
  ∧ (readyReportsUnbound (newWorkerPool requested hc) evs = true →
     ∀ w, w ∈ readyWorkers s → findTaskIdByWorker w (activeTasks s) = None).
Proof.
  intros s.
  pose proof (Core_reachable requested hc evs) as Hc. fold s in Hc.
  pose proof (core_live s Hc) as Hnd. unfold live in Hnd.
  split; [done|]. split; [apply (core_pending s Hc)|]. split.
  - intros Hids p Hp.
    assert (Held s) as Hh.
    { apply Held_run; [apply Core_new| |done].
      intros q. simpl. by rewrite lookup_nil. }
    apply Hh in Hp. unfold live in Hp.
    apply NoDup_app in Hnd as (_ & Hdisj & _).
    apply elem_of_app in Hp as [Hq|Ha].
    + left. split; [done|]. by apply Hdisj.
    + right. split; [|done]. intros Hq. by apply (Hdisj p).
  - intros Hrdy w Hw.
    assert (ReadyUnbound s) as Hu.
    { apply ReadyUnbound_run; [apply Core_new|apply ReadyUnbound_new|done]. }
    apply findTaskIdByWorker_None. by apply (ru_ready s Hu).
Qed.

Lemma tasks_partitioned_and_ready_unbound_witness :
  let s := run (newWorkerPool 2 None)
             [EInitialize; EWorkerMessage 0 readyMsg;
              EProcessImage 1 "a" "u1" None; EProcessImage 2 "b" "u2" None;
              EWorkerMessage 1 readyMsg;
              EWorkerMessage 0 (completeMsg 1 1 [])] in
  promises s = [Fulfilled (completeMsg 1 1 []); Pending]
  ∧ NoDup (queuedPromises s ++ activePromises s)
  ∧ ((1 ∈ queuedPromises s ∧ 1 ∉ activePromises s)
     ∨ ((1 ∉ queuedPromises s) ∧ 1 ∈ activePromises s))
  ∧ (∀ w, w ∈ readyWorkers s → findTaskIdByWorker w (activeTasks s) = None).
Proof.
  intros s.
  pose (evs := [EInitialize; EWorkerMessage 0 readyMsg;
                EProcessImage 1 "a" "u1" None; EProcessImage 2 "b" "u2" None;
                EWorkerMessage 1 readyMsg;
                EWorkerMessage 0 (completeMsg 1 1 [])]).
  assert (NoDup (submitted evs)) as Hids.
  { apply (bool_decide_unpack _). vm_compute. exact I. }
  assert (readyReportsUnbound (newWorkerPool 2 None) evs = true) as Hrdy
    by (vm_compute; reflexivity).
  destruct (tasks_partitioned_and_ready_unbound 2 None evs)
    as (Hnd & _ & Hheld & Hready).
  assert (promises s !! 1 = Some Pending) as Hp by (vm_compute; reflexivity).
  split; [vm_compute; reflexivity|]. split; [exact Hnd|].
  split; [exact (Hheld Hids 1 Hp)|exact (Hready Hrdy)].
Defined.
